(** * LawComparator: the statute parser and the article aligner

    A shallow embedding of [law_parser.py] (class [LawParser]) and
    [law_comparator.py] (class [LawComparator]), together with the parts of
    CPython's [difflib] that they call: [SequenceMatcher] for
    [calculate_similarity] and [Differ] for [generate_unified_html_diff].

    Conventions.
    - A Python [str] is a sequence of Unicode code points: [list Z].
      Literals are written [py "..."], the UTF-8 decoding of the bytes of
      a Rocq string.
    - A Python [int] is a [Z].
    - A Python [dict] keeps insertion order: it is an association list
      whose keys are pairwise distinct ([dict_wf]), read by [dict_get].
    - A Python [set] of ints is a [gset Z].
    - A similarity is the float [2.0 * M / T] for naturals [M <= T] that
      are far below [2^26]; it is kept as the exact rational [2 * M # T] in
      [Q]. Division of floats is correctly rounded and monotone, and two
      different fractions of that size never round to the same float, so
      comparing the floats (with each other, with [0.8] or with [0.98]) is
      comparing the rationals; float equality is [==]. *)

From Stdlib Require Import ZArith QArith Lia List Permutation Sorted.
From stdpp Require Import base list gmap sorting strings.

Local Open Scope Z_scope.

(* ===================================================================== *)
(** * Python strings *)
(* ===================================================================== *)

Module Py.

(** UTF-8 decoding of a byte sequence (1 to 4 byte forms). *)
Fixpoint utf8_decode (bs : list Z) : list Z :=
  match bs with
  | [] => []
  | b0 :: r0 =>
    if b0 <? 128 then b0 :: utf8_decode r0
    else if b0 <? 224 then
      match r0 with
      | b1 :: r1 => ((b0 mod 32) * 64 + b1 mod 64) :: utf8_decode r1
      | _ => []
      end
    else if b0 <? 240 then
      match r0 with
      | b1 :: b2 :: r2 =>
        ((b0 mod 16) * 4096 + (b1 mod 64) * 64 + b2 mod 64) :: utf8_decode r2
      | _ => []
      end
    else
      match r0 with
      | b1 :: b2 :: b3 :: r3 =>
        ((b0 mod 8) * 262144 + (b1 mod 64) * 4096 + (b2 mod 64) * 64 + b3 mod 64)
          :: utf8_decode r3
      | _ => []
      end
  end.

Definition py (s : string) : list Z :=
  utf8_decode (map (fun a => Z.of_N (Ascii.N_of_ascii a)) (String.list_ascii_of_string s)).

(** A one-character literal, as a code point. *)
Definition ch (s : string) : Z := hd 0 (py s).

(** Membership of a code point in a table of inclusive ranges. *)
Definition in_ranges (tbl : list (Z * Z)) (c : Z) : bool :=
  existsb (fun r => (fst r <=? c) && (c <=? snd r)) tbl.

(** [str.isspace] for one character, which is also what [\s] matches in a
    [str] pattern and what [str.strip()] removes (Unicode 14.0.0, the
    table of CPython 3.11). *)
Definition space_table : list (Z * Z) :=
  [(9, 13); (28, 32); (133, 133); (160, 160); (5760, 5760); (8192, 8202);
   (8232, 8233); (8239, 8239); (8287, 8287); (12288, 12288)].

Definition is_space (c : Z) : bool := in_ranges space_table c.

(** What [\d] matches in a [str] pattern: the Unicode decimal digits,
    category Nd (Unicode 14.0.0). *)
Definition digit_table : list (Z * Z) :=
  [(48, 57); (1632, 1641); (1776, 1785); (1984, 1993); (2406, 2415);
   (2534, 2543); (2662, 2671); (2790, 2799); (2918, 2927); (3046, 3055);
   (3174, 3183); (3302, 3311); (3430, 3439); (3558, 3567); (3664, 3673);
   (3792, 3801); (3872, 3881); (4160, 4169); (4240, 4249); (6112, 6121);
   (6160, 6169); (6470, 6479); (6608, 6617); (6784, 6793); (6800, 6809);
   (6992, 7001); (7088, 7097); (7232, 7241); (7248, 7257); (42528, 42537);
   (43216, 43225); (43264, 43273); (43472, 43481); (43504, 43513);
   (43600, 43609); (44016, 44025); (65296, 65305); (66720, 66729);
   (68912, 68921); (69734, 69743); (69872, 69881); (69942, 69951);
   (70096, 70105); (70384, 70393); (70736, 70745); (70864, 70873);
   (71248, 71257); (71360, 71369); (71472, 71481); (71904, 71913);
   (72016, 72025); (72784, 72793); (73040, 73049); (73120, 73129);
   (92768, 92777); (92864, 92873); (93008, 93017); (120782, 120831);
   (123200, 123209); (123632, 123641); (125264, 125273); (130032, 130041)].

Definition is_digit (c : Z) : bool := in_ranges digit_table c.

(** Equality of strings, [==] on [str]. *)
Fixpoint str_eqb (s t : list Z) : bool :=
  match s, t with
  | [], [] => true
  | c :: s', d :: t' => (c =? d) && str_eqb s' t'
  | _, _ => false
  end.

(** [s.lstrip()], [s.rstrip()], [s.strip()]. *)
Fixpoint lstrip (s : list Z) : list Z :=
  match s with
  | c :: s' => if is_space c then lstrip s' else s
  | [] => []
  end.

Definition rstrip (s : list Z) : list Z := rev (lstrip (rev s)).

Definition strip (s : list Z) : list Z := rstrip (lstrip s).

(** [s.split(sep)] for a one-character separator: never the empty list. *)
Fixpoint split (sep : Z) (s : list Z) : list (list Z) :=
  match s with
  | [] => [[]]
  | c :: s' =>
    if c =? sep then [] :: split sep s'
    else match split sep s' with
         | w :: ws => (c :: w) :: ws
         | [] => [[c]]
         end
  end.

(** [sep.join(parts)]. *)
Fixpoint join (sep : list Z) (parts : list (list Z)) : list Z :=
  match parts with
  | [] => []
  | [p] => p
  | p :: ps => p ++ sep ++ join sep ps
  end.

(** [s.startswith(p)] and [s.endswith(p)], and their tuple forms. *)
Fixpoint startswith (s p : list Z) {struct p} : bool :=
  match p, s with
  | [], _ => true
  | d :: p', c :: s' => (c =? d) && startswith s' p'
  | _ :: _, [] => false
  end.

Definition endswith (s p : list Z) : bool := startswith (rev s) (rev p).

Definition startswith_any (s : list Z) (ps : list (list Z)) : bool :=
  existsb (startswith s) ps.

Definition endswith_any (s : list Z) (ps : list (list Z)) : bool :=
  existsb (endswith s) ps.

(** [s.replace(old, new)] for a one-character [old] and any [new]. *)
Definition replace1 (old : Z) (new : list Z) (s : list Z) : list Z :=
  flat_map (fun c => if c =? old then new else [c]) s.

(** Membership of a character in a regex character class given by the
    characters listed in it and the flag "the class contains [\d]". *)
Definition in_class (chars : list Z) (with_digits : bool) (c : Z) : bool :=
  existsb (Z.eqb c) chars || (with_digits && is_digit c).

(** ** Dictionaries in insertion order *)

Definition dict (K V : Type) := list (K * V).

Definition keys {K V} (d : dict K V) : list K := map fst d.

Fixpoint dict_get {V} (d : dict Z V) (k : Z) : option V :=
  match d with
  | [] => None
  | (k', v) :: d' => if k' =? k then Some v else dict_get d' k
  end.

Definition dict_mem {V} (d : dict Z V) (k : Z) : bool :=
  match dict_get d k with Some _ => true | None => false end.

(** The keys of a dictionary are pairwise distinct. *)
Definition dict_wf {K V} (d : dict K V) : Prop := NoDup (keys d).

(** A dictionary keyed by strings (used for the numeral table). *)
Fixpoint sdict_get {V} (d : dict (list Z) V) (k : list Z) : option V :=
  match d with
  | [] => None
  | (k', v) :: d' => if str_eqb k' k then Some v else sdict_get d' k
  end.

End Py.

Import Py.

(* ===================================================================== *)
(** * law_parser.py: class LawParser *)
(* ===================================================================== *)

Module LawParser.

(** [_build_chinese_number_dict]. *)
Definition _build_chinese_number_dict : dict (list Z) Z :=
  [ (py "零", 0); (py "一", 1); (py "二", 2); (py "三", 3); (py "四", 4);
    (py "五", 5); (py "六", 6); (py "七", 7); (py "八", 8); (py "九", 9);
    (py "十", 10); (py "百", 100); (py "千", 1000); (py "万", 10000) ].

Definition chinese_to_num : dict (list Z) Z :=
  Eval vm_compute in _build_chinese_number_dict.

(** The [while i < len(chinese_num)] loop of
    [_parse_complex_chinese_number], from index [i] on. Every branch ends
    with [i += 1], so the loop is a left-to-right scan of the characters.
    [None] is a [KeyError] of [base_numbers[char]]. *)
Fixpoint parse_loop (base_numbers : dict (list Z) Z) (i : Z) (rest : list Z)
    (result temp_num : Z) : option (Z * Z) :=
  match rest with
  | [] => Some (result, temp_num)
  | c :: rest' =>
    let char := [c] in
    if match sdict_get base_numbers char with
       | Some v => v <? 10
       | None => false
       end
    then
      (* a base digit, 0-9 *)
      match sdict_get base_numbers char with
      | Some v => parse_loop base_numbers (i + 1) rest' result v
      | None => None
      end
    else if existsb (str_eqb char) [py "十"; py "百"; py "千"; py "万"] then
      match sdict_get base_numbers char with
      | Some unit_value =>
        let temp_num :=
          if str_eqb char (py "十") && (i =? 0) then 1 else temp_num in
        let temp_num := if temp_num =? 0 then 1 else temp_num in
        if unit_value =? 10000 then
          parse_loop base_numbers (i + 1) rest'
            (result + temp_num * unit_value) 0
        else if 10 <=? unit_value then
          parse_loop base_numbers (i + 1) rest'
            (result + temp_num * unit_value) 0
        else
          parse_loop base_numbers (i + 1) rest' result temp_num
      | None => None
      end
    else if str_eqb char (py "零") then
      parse_loop base_numbers (i + 1) rest' result temp_num
    else
      parse_loop base_numbers (i + 1) rest' result temp_num
  end.

Definition _parse_complex_chinese_number (chinese_num : list Z)
    (base_numbers : dict (list Z) Z) : option Z :=
  match parse_loop base_numbers 0 chinese_num 0 0 with
  | Some (result, temp_num) =>
    let result := result + temp_num in
    Some (if 0 <? result then result else 0)
  | None => None
  end.

(** [convert_chinese_number]; [Some n] is a normal return of [n]. *)
Definition convert_chinese_number (chinese_num : list Z) : option Z :=
  match chinese_num with
  | [] => Some 0
  | _ =>
    let base_numbers := chinese_to_num in
    match sdict_get base_numbers chinese_num with
    | Some v => Some v
    | None => _parse_complex_chinese_number chinese_num base_numbers
    end
  end.

(** ** Line-break repair *)

Definition terminal_marks : list (list Z) :=
  [py "."; py "。"; py ";"; py "；"; py ":"; py "："; py "!"; py "！";
   py "?"; py "？"].

Definition blocking_prefixes : list (list Z) :=
  [py "("; py "（"; py "第"; py "条"; py "章"; py "节"].

Definition comma_marks : list (list Z) := [py ","; py "，"; py "、"].

(** [re.match(r'^[\(（][一二三四五六七八九十百千万零\d]+[\)）]', line)]:
    an opening parenthesis, a non-empty run of numeral characters, a
    closing parenthesis. The run is taken greedily; the class holds no
    closing parenthesis, so no shorter run can match. *)
Definition enumerator_class (c : Z) : bool :=
  in_class (py "一二三四五六七八九十百千万零") true c.

Fixpoint skip_class (cls : Z -> bool) (s : list Z) : list Z :=
  match s with
  | c :: s' => if cls c then skip_class cls s' else s
  | [] => []
  end.

Definition match_enumerator (line : list Z) : bool :=
  match line with
  | c :: r =>
    in_class (py "(（") false c &&
    match r with
    | d :: _ =>
      enumerator_class d &&
      match skip_class enumerator_class r with
      | e :: _ => in_class (py ")）") false e
      | [] => false
      end
    | [] => false
    end
  | [] => false
  end.

(** [re.search(r'[。，；：！？、.;:!?]$', line)]: [$] matches at the end of
    the string and also just before a newline that ends the string. *)
Definition search_final_punctuation (line : list Z) : bool :=
  let cls := in_class (py "。，；：！？、.;:!?") false in
  match rev line with
  | c :: r =>
    cls c || ((c =? 10) && match r with d :: _ => cls d | [] => false end)
  | [] => false
  end.

Definition _should_merge_lines (current_line next_line : list Z) : bool :=
  if endswith_any current_line terminal_marks then false
  else if startswith_any next_line blocking_prefixes then false
  else if match_enumerator next_line then false
  else if endswith_any current_line comma_marks then true
  else if negb (search_final_punctuation current_line) then true
  else false.

(** The inner [while i + 1 < len(lines)] loop: [rest] is [lines[i+1:]];
    the result is the final [current_line] and [lines[i+1:]] for the
    final [i]. *)
Fixpoint merge_loop (current_line : list Z) (rest : list (list Z))
    : list Z * list (list Z) :=
  match rest with
  | [] => (current_line, [])
  | l :: rest' =>
    let next_line := strip l in
    match next_line with
    | [] => (current_line, rest)
    | _ =>
      if _should_merge_lines current_line next_line
      then merge_loop (current_line ++ next_line) rest'
      else (current_line, rest)
    end
  end.

(** The outer [while i < len(lines)] loop: [lines] is [lines[i:]]. Each
    iteration advances [i], so [length lines] iterations are enough. *)
Fixpoint fix_loop (fuel : nat) (lines : list (list Z)) : list (list Z) :=
  match fuel, lines with
  | S fuel', l :: rest =>
    let current_line := strip l in
    match current_line with
    | [] => fix_loop fuel' rest
    | _ =>
      let '(current_line, rest') := merge_loop current_line rest in
      current_line :: fix_loop fuel' rest'
    end
  | _, _ => []
  end.

Definition fix_pdf_line_breaks (text : list Z) : list Z :=
  match text with
  | [] => text
  | _ =>
    let lines := split 10 text in
    let fixed_lines := fix_loop (length lines) lines in
    join [10] fixed_lines
  end.

(** ** Punctuation normalization *)

(** [punctuation_map], in the order of the literal. The last two entries
    map the ASCII double quote (34) and single quote (39) to themselves. *)
Definition punctuation_map : dict Z (list Z) :=
  [ (ch ",", py "，"); (ch ".", py "。"); (ch ";", py "；"); (ch ":", py "：");
    (ch "?", py "？"); (ch "!", py "！"); (ch "(", py "（"); (ch ")", py "）");
    (ch "[", py "［"); (ch "]", py "］"); (ch "{", py "｛"); (ch "}", py "｝");
    (ch "<", py "《"); (ch ">", py "》"); (ch "«", py "《"); (ch "»", py "》");
    (34, [34]); (39, [39]) ].

(** One attempt of [(\d+)。(\s)] at the start of [s]: the replacement
    text [\1. \2] and the text after the match. [\d+] is greedy, and a
    shorter run of digits is followed by a digit, never by [。]. *)
Definition match_numbering (s : list Z) : option (list Z * list Z) :=
  match s with
  | d :: _ =>
    if is_digit d then
      let digits := take (length s - length (skip_class is_digit s))%nat s in
      match skip_class is_digit s with
      | p :: w :: rest =>
        if (p =? ch "。") && is_space w
        then Some (digits ++ py ". " ++ [w], rest)
        else None
      | _ => None
      end
    else None
  | [] => None
  end.

(** [re.sub(r'(\d+)。(\s)', r'\1. \2', s)]: leftmost matches, not
    overlapping, scanned from the left. *)
Fixpoint sub_numbering_loop (fuel : nat) (s : list Z) : list Z :=
  match fuel, s with
  | S fuel', c :: s' =>
    match match_numbering s with
    | Some (replacement, rest) => replacement ++ sub_numbering_loop fuel' rest
    | None => c :: sub_numbering_loop fuel' s'
    end
  | _, _ => []
  end.

Definition sub_numbering (s : list Z) : list Z :=
  sub_numbering_loop (length s) s.

(** [_clean_spaces]: [re.sub(r'\s+', '', text).strip()]. *)
Definition _clean_spaces (text : list Z) : list Z :=
  match text with
  | [] => text
  | _ => strip (List.filter (fun c => negb (is_space c)) text)
  end.

Definition normalize_punctuation (text : list Z) : list Z :=
  match text with
  | [] => text
  | _ =>
    let normalized_text :=
      fold_left (fun acc kv => replace1 (fst kv) (snd kv) acc)
                punctuation_map text in
    let normalized_text := replace1 34 [34] normalized_text in
    let normalized_text := sub_numbering normalized_text in
    _clean_spaces normalized_text
  end.

End LawParser.

(* ===================================================================== *)
(** * difflib.SequenceMatcher (CPython standard library) *)
(* ===================================================================== *)

(** [calculate_similarity] calls [SequenceMatcher(None, text1, text2).ratio()]:
    no junk predicate, [autojunk] left at its default [True]. *)
Module Difflib.

(** [s[i]] for an index that the callers keep inside [0 <= i < len(s)]. *)
Definition item (s : list Z) (i : Z) : Z := nth (Z.to_nat i) s 0.

Definition len (s : list Z) : Z := Z.of_nat (length s).

(** Python's [list.sort]: a stable sort. [leb x y] is [x <= y]. *)
Fixpoint insert_sorted {A} (leb : A -> A -> bool) (x : A) (l : list A) : list A :=
  match l with
  | [] => [x]
  | y :: l' => if leb x y then x :: l else y :: insert_sorted leb x l'
  end.

Definition sort_by {A} (leb : A -> A -> bool) (l : list A) : list A :=
  foldr (insert_sorted leb) [] l.

(** Order of tuples [(i, j, k)]: lexicographic. *)
Definition triple_leb (x y : Z * Z * Z) : bool :=
  let '(i1, j1, k1) := x in
  let '(i2, j2, k2) := y in
  (i1 <? i2) || ((i1 =? i2) && ((j1 <? j2) || ((j1 =? j2) && (k1 <=? k2)))).

(** The tags of [get_opcodes]: ['replace'], ['delete'], ['insert'],
    ['equal']. *)
Inductive Tag := op_replace | op_delete | op_insert | op_equal.

Definition Opcode : Type := Tag * Z * Z * Z * Z.

Section SequenceMatcher.

Variables a b : list Z.

(** [__chain_b]. [b2j[elt]] lists the indices of [elt] in [b], ascending.
    With [isjunk = None] the junk set stays empty; with [autojunk] and
    [len(b) >= 200] the elements that occur more than [len(b) // 100 + 1]
    times are deleted from [b2j]. [b2j_get elt] is [b2j.get(elt, [])]. *)
Fixpoint indices_from (j : Z) (elt : Z) (s : list Z) : list Z :=
  match s with
  | [] => []
  | c :: s' =>
    if c =? elt then j :: indices_from (j + 1) elt s'
    else indices_from (j + 1) elt s'
  end.

Definition autojunk : bool := true.

Definition b2j_get (elt : Z) : list Z :=
  let idxs := indices_from 0 elt b in
  let n := len b in
  if autojunk && (200 <=? n) && (n / 100 + 1 <? len idxs) then [] else idxs.

(** [self.bjunk.__contains__]: the junk set is empty. *)
Definition isbjunk (elt : Z) : bool := false.

(** The loop [for j in b2j.get(a[i], nothing)] of [find_longest_match]. *)
Fixpoint scan_row (blo bhi i : Z) (j2len : gmap Z Z) (js : list Z)
    (newj2len : gmap Z Z) (best : Z * Z * Z) : gmap Z Z * (Z * Z * Z) :=
  match js with
  | [] => (newj2len, best)
  | j :: js' =>
    if j <? blo then scan_row blo bhi i j2len js' newj2len best
    else if bhi <=? j then (newj2len, best)
    else
      let k := default 0 (j2len !! (j - 1)) + 1 in
      let newj2len := <[j := k]> newj2len in
      let '(besti, bestj, bestsize) := best in
      let best := if bestsize <? k then (i - k + 1, j - k + 1, k) else best in
      scan_row blo bhi i j2len js' newj2len best
  end.

(** The loop [for i in range(alo, ahi)]. *)
Fixpoint scan_rows (blo bhi : Z) (rows : list Z) (j2len : gmap Z Z)
    (best : Z * Z * Z) : Z * Z * Z :=
  match rows with
  | [] => best
  | i :: rows' =>
    let '(newj2len, best) :=
      scan_row blo bhi i j2len (b2j_get (item a i)) ∅ best in
    scan_rows blo bhi rows' newj2len best
  end.

(** The four [while] loops that extend the block. [junk] selects between
    the tests [not isbjunk(..)] and [isbjunk(..)]. Each iteration of the
    first kind decreases [besti - alo], of the second
    [ahi - (besti + bestsize)]. *)
Definition junk_test (junk : bool) (elt : Z) : bool :=
  if junk then isbjunk elt else negb (isbjunk elt).

Fixpoint extend_left (fuel : nat) (junk : bool) (alo blo : Z) (best : Z * Z * Z)
    : Z * Z * Z :=
  let '(besti, bestj, bestsize) := best in
  match fuel with
  | O => best
  | S fuel' =>
    if (alo <? besti) && (blo <? bestj) && junk_test junk (item b (bestj - 1))
       && (item a (besti - 1) =? item b (bestj - 1))
    then extend_left fuel' junk alo blo (besti - 1, bestj - 1, bestsize + 1)
    else best
  end.

Fixpoint extend_right (fuel : nat) (junk : bool) (ahi bhi : Z) (best : Z * Z * Z)
    : Z * Z * Z :=
  let '(besti, bestj, bestsize) := best in
  match fuel with
  | O => best
  | S fuel' =>
    if (besti + bestsize <? ahi) && (bestj + bestsize <? bhi)
       && junk_test junk (item b (bestj + bestsize))
       && (item a (besti + bestsize) =? item b (bestj + bestsize))
    then extend_right fuel' junk ahi bhi (besti, bestj, bestsize + 1)
    else best
  end.

Definition find_longest_match (alo ahi blo bhi : Z) : Z * Z * Z :=
  let best := (alo, blo, 0) in
  let best := scan_rows blo bhi (seqZ alo (ahi - alo)) ∅ best in
  let best := extend_left (Z.to_nat (ahi - alo)) false alo blo best in
  let best := extend_right (Z.to_nat (ahi - alo)) false ahi bhi best in
  let best := extend_left (Z.to_nat (ahi - alo)) true alo blo best in
  let best := extend_right (Z.to_nat (ahi - alo)) true ahi bhi best in
  best.

(** The [while queue] loop of [get_matching_blocks]. The Python list
    [queue] is used as a stack ([pop] and [append] both work at its end);
    here its end is the head of the list. *)
Fixpoint blocks_loop (fuel : nat) (queue : list (Z * Z * Z * Z))
    (matching_blocks : list (Z * Z * Z)) : list (Z * Z * Z) :=
  match fuel, queue with
  | S fuel', (alo, ahi, blo, bhi) :: queue =>
    let '(i, j, k) := find_longest_match alo ahi blo bhi in
    if k =? 0 then blocks_loop fuel' queue matching_blocks
    else
      let matching_blocks := matching_blocks ++ [(i, j, k)] in
      let queue :=
        if (alo <? i) && (blo <? j) then (alo, i, blo, j) :: queue else queue in
      let queue :=
        if (i + k <? ahi) && (j + k <? bhi)
        then (i + k, ahi, j + k, bhi) :: queue else queue in
      blocks_loop fuel' queue matching_blocks
  | _, _ => matching_blocks
  end.

(** The loop that merges adjacent equal blocks. *)
Fixpoint collapse (blocks : list (Z * Z * Z)) (cur : Z * Z * Z)
    (non_adjacent : list (Z * Z * Z)) : list (Z * Z * Z) :=
  let '(i1, j1, k1) := cur in
  match blocks with
  | [] => if k1 =? 0 then non_adjacent else non_adjacent ++ [(i1, j1, k1)]
  | (i2, j2, k2) :: blocks' =>
    if (i1 + k1 =? i2) && (j1 + k1 =? j2)
    then collapse blocks' (i1, j1, k1 + k2) non_adjacent
    else
      collapse blocks' (i2, j2, k2)
        (if k1 =? 0 then non_adjacent else non_adjacent ++ [(i1, j1, k1)])
  end.

(** [get_matching_blocks]. The queue loop pops one window per iteration
    and pushes windows that are strictly smaller in [a];
    [2 * len(a) + 1] iterations empty the queue. *)
Definition get_matching_blocks : list (Z * Z * Z) :=
  let la := len a in
  let lb := len b in
  let matching_blocks :=
    blocks_loop (S (2 * length a)) [(0, la, 0, lb)] [] in
  let matching_blocks := sort_by triple_leb matching_blocks in
  let non_adjacent := collapse matching_blocks (0, 0, 0) [] in
  non_adjacent ++ [(la, lb, 0)].

(** [_calculate_ratio(matches, length)] as an exact rational. *)
Definition _calculate_ratio (matches length : Z) : Q :=
  if length =? 0 then 1%Q else (2 * matches # Z.to_pos length)%Q.

Definition ratio : Q :=
  let matches := foldr Z.add 0 (map snd get_matching_blocks) in
  _calculate_ratio matches (len a + len b).

(** [quick_ratio]: [fullbcount] counts the elements of [b]; the loop over
    [a] counts the elements that still have an occurrence left. *)
Definition fullbcount : gmap Z Z :=
  fold_left (fun m elt => <[elt := default 0 (m !! elt) + 1]> m) b ∅.

Definition quick_step (st : gmap Z Z * Z) (elt : Z) : gmap Z Z * Z :=
  let '(avail, matches) := st in
  let numb :=
    match avail !! elt with
    | Some numb => numb
    | None => default 0 (fullbcount !! elt)
    end in
  (<[elt := numb - 1]> avail, if 0 <? numb then matches + 1 else matches).

Definition quick_ratio : Q :=
  let matches := snd (fold_left quick_step a (∅, 0)) in
  _calculate_ratio matches (len a + len b).

Definition real_quick_ratio : Q :=
  let la := len a in
  let lb := len b in
  _calculate_ratio (Z.min la lb) (la + lb).

(** [get_opcodes]: one iteration of the loop over the matching blocks,
    on the state [(i, j, answer)]. *)
Definition opcodes_step (st : Z * Z * list Opcode) (blk : Z * Z * Z)
    : Z * Z * list Opcode :=
  let '(i, j, answer) := st in
  let '(ai, bj, size) := blk in
  let answer :=
    if (i <? ai) && (j <? bj) then answer ++ [(op_replace, i, ai, j, bj)]
    else if i <? ai then answer ++ [(op_delete, i, ai, j, bj)]
    else if j <? bj then answer ++ [(op_insert, i, ai, j, bj)]
    else answer in
  let i := ai + size in
  let j := bj + size in
  let answer :=
    if size =? 0 then answer else answer ++ [(op_equal, ai, i, bj, j)] in
  (i, j, answer).

Definition get_opcodes : list Opcode :=
  snd (fold_left opcodes_step get_matching_blocks (0, 0, [])).

End SequenceMatcher.

End Difflib.

(* ===================================================================== *)
(** * difflib.Differ (CPython standard library) *)
(* ===================================================================== *)

(** [generate_unified_html_diff] calls [Differ().compare(old_text, new_text)]
    on two strings, with no junk predicates. A string is a sequence of
    one-character strings: the lines that [Differ] compares are the
    characters of the two texts, and line [i] of [x] is the string [x[i]]. *)
Module Differ.

Definition line (x : list Z) (i : Z) : list Z := [Difflib.item x i].

(** Float comparisons [x > y] and [x < y] on ratios. On one-character
    lines the ratios are 0 and 1. *)
Definition Qgtb (x y : Q) : bool := negb (Qle_bool x y).
Definition Qltb (x y : Q) : bool := negb (Qle_bool y x).

(** [_dump(tag, x, lo, hi)]: the lines [tag + ' ' + x[i]]. *)
Definition _dump (tag : Z) (x : list Z) (lo hi : Z) : list (list Z) :=
  map (fun i => tag :: 32 :: line x i) (seqZ lo (hi - lo)).

(** [_plain_replace]. Its assertion [alo < ahi and blo < bhi] holds at
    its one call, in [_fancy_replace], which is entered with both ranges
    non-empty. *)
Definition _plain_replace (a : list Z) (alo ahi : Z) (b : list Z) (blo bhi : Z)
    : list (list Z) :=
  if bhi - blo <? ahi - alo
  then _dump (ch "+") b blo bhi ++ _dump (ch "-") a alo ahi
  else _dump (ch "-") a alo ahi ++ _dump (ch "+") b blo bhi.

(** [_keep_original_ws(s, tag_s)]. *)
Definition _keep_original_ws (s tag_s : list Z) : list Z :=
  map (fun p : Z * Z =>
         let (c, tag_c) := p in
         if (tag_c =? 32) && is_space c then c else tag_c)
      (combine s tag_s).

(** [_qformat(aline, bline, atags, btags)]. *)
Definition _qformat (aline bline atags btags : list Z) : list (list Z) :=
  let atags := rstrip (_keep_original_ws aline atags) in
  let btags := rstrip (_keep_original_ws bline btags) in
  [py "- " ++ aline]
  ++ match atags with [] => [] | _ => [py "? " ++ atags ++ [10]] end
  ++ [py "+ " ++ bline]
  ++ match btags with [] => [] | _ => [py "? " ++ btags ++ [10]] end.

(** The loop over the opcodes of the synch pair that builds [atags] and
    [btags]. *)
Definition tags_step (st : list Z * list Z) (op : Difflib.Opcode)
    : list Z * list Z :=
  let '(atags, btags) := st in
  let '(tag, ai1, ai2, bj1, bj2) := op in
  let la := Z.to_nat (ai2 - ai1) in
  let lb := Z.to_nat (bj2 - bj1) in
  match tag with
  | Difflib.op_replace =>
    (atags ++ replicate la (ch "^"), btags ++ replicate lb (ch "^"))
  | Difflib.op_delete => (atags ++ replicate la (ch "-"), btags)
  | Difflib.op_insert => (atags, btags ++ replicate lb (ch "+"))
  | Difflib.op_equal =>
    (atags ++ replicate la 32, btags ++ replicate lb 32)
  end.

Definition intraline (aelt belt : list Z) : list (list Z) :=
  let '(atags, btags) :=
    fold_left tags_step (Difflib.get_opcodes aelt belt) ([], []) in
  _qformat aelt belt atags btags.

(** The state of the search of [_fancy_replace]: [best_ratio], the pair
    [best_i, best_j] (not bound before its first assignment) and the pair
    [eqi, eqj]. *)
Record Search := {
  best_ratio : Q;
  best_pair : option (Z * Z);
  eq_pair : option (Z * Z)
}.

(** The body of [for i in range(alo, ahi)], inside [for j in range(blo, bhi)]. *)
Definition search_step (a b : list Z) (j : Z) (st : Search) (i : Z) : Search :=
  let bj := line b j in
  let ai := line a i in
  if str_eqb ai bj then
    match eq_pair st with
    | None => {| best_ratio := best_ratio st; best_pair := best_pair st;
                 eq_pair := Some (i, j) |}
    | Some _ => st
    end
  else if (if Qgtb (Difflib.real_quick_ratio ai bj) (best_ratio st)
           then if Qgtb (Difflib.quick_ratio ai bj) (best_ratio st)
                then Qgtb (Difflib.ratio ai bj) (best_ratio st)
                else false
           else false)
  then {| best_ratio := Difflib.ratio ai bj; best_pair := Some (i, j);
          eq_pair := eq_pair st |}
  else st.

Definition search (a : list Z) (alo ahi : Z) (b : list Z) (blo bhi : Z) : Search :=
  fold_left
    (fun st j => fold_left (search_step a b j) (seqZ alo (ahi - alo)) st)
    (seqZ blo (bhi - blo))
    {| best_ratio := 74 # 100; best_pair := None; eq_pair := None |}.

Definition cutoff : Q := 75 # 100.

(** [_fancy_helper], with the method [_fancy_replace] it may call. *)
Definition _fancy_helper
    (_fancy_replace : list Z -> Z -> Z -> list Z -> Z -> Z -> option (list (list Z)))
    (a : list Z) (alo ahi : Z) (b : list Z) (blo bhi : Z)
    : option (list (list Z)) :=
  if alo <? ahi then
    if blo <? bhi then _fancy_replace a alo ahi b blo bhi
    else Some (_dump (ch "-") a alo ahi)
  else if blo <? bhi then Some (_dump (ch "+") b blo bhi)
  else Some [].

(** [_fancy_replace] and [_fancy_helper] call each other, through
    [yield from]: while the delta is drawn, every level of the recursion
    is on the interpreter's stack. [depth] is the number of nested calls of
    [_fancy_replace] that the recursion limit leaves room for; [None] is
    the [RecursionError] of a deeper nesting. (The other [None], an unbound
    [best_i], does not occur: [best_ratio] only changes together with
    [best_i].) *)
Fixpoint _fancy_replace (depth : nat) (a : list Z) (alo ahi : Z)
    (b : list Z) (blo bhi : Z) {struct depth} : option (list (list Z)) :=
  match depth with
  | O => None
  | S depth' =>
    let st := search a alo ahi b blo bhi in
    let synch (best_i best_j : Z) (identical : bool) :=
      match _fancy_helper (_fancy_replace depth') a alo best_i b blo best_j with
      | None => None
      | Some before =>
        let aelt := line a best_i in
        let belt := line b best_j in
        let pair :=
          if identical then [py "  " ++ aelt] else intraline aelt belt in
        match _fancy_helper (_fancy_replace depth')
                a (best_i + 1) ahi b (best_j + 1) bhi with
        | None => None
        | Some after => Some (before ++ pair ++ after)
        end
      end in
    if Qltb (best_ratio st) cutoff then
      match eq_pair st with
      | None => Some (_plain_replace a alo ahi b blo bhi)
      | Some (eqi, eqj) => synch eqi eqj true
      end
    else
      match best_pair st with
      | Some (best_i, best_j) => synch best_i best_j false
      | None => None
      end
  end.

(** One iteration of the loop of [compare] over the opcodes. *)
Definition compare_step (depth : nat) (a b : list Z)
    (acc : option (list (list Z))) (op : Difflib.Opcode)
    : option (list (list Z)) :=
  match acc with
  | None => None
  | Some out =>
    let '(tag, alo, ahi, blo, bhi) := op in
    let g :=
      match tag with
      | Difflib.op_replace => _fancy_replace depth a alo ahi b blo bhi
      | Difflib.op_delete => Some (_dump (ch "-") a alo ahi)
      | Difflib.op_insert => Some (_dump (ch "+") b blo bhi)
      | Difflib.op_equal => Some (_dump 32 a alo ahi)
      end in
    match g with
    | None => None
    | Some g => Some (out ++ g)
    end
  end.

(** [list(Differ().compare(a, b))]. *)
Definition compare (depth : nat) (a b : list Z) : option (list (list Z)) :=
  fold_left (compare_step depth a b) (Difflib.get_opcodes a b) (Some []).

End Differ.

(* ===================================================================== *)
(** * law_comparator.py: class LawComparator *)
(* ===================================================================== *)

Module LawComparator.

(** An article record as [parse_articles] builds it; [.get('content', '')]
    reads [content]. [None] in a back-reference is Python's [None]. *)
Record Article := {
  content : list Z;
  full_text : list Z;
  chapter_num : option Z;
  section_num : option Z;
  line_count : Z
}.

(** A chapter or section record; only [title] is read by the comparator. *)
Record Heading := { title : list Z; heading_text : list Z }.

(** The structure returned by [parse_file], as far as it is read here. *)
Record Law := {
  chapters : dict Z Heading;
  sections : dict Z Heading;
  articles : dict Z Article
}.

(** One element of the manual-match list, after [int(..)] of both fields. *)
Record ManualMatch := { old_number : Z; new_number : Z }.

Inductive MatchType := manual | auto | none.

(** One tuple [(article1_num, article2_num, similarity, match_type)]. *)
Record MatchEntry := {
  article1_num : Z;
  article2_num : Z;
  similarity : Q;
  match_type : MatchType
}.

(** The instance state of the comparator. *)
Record Comparator := {
  similarity_threshold : Q;
  manual_matches : list ManualMatch
}.

Definition calculate_similarity (text1 text2 : list Z) : Q :=
  match text1, text2 with
  | [], _ => 0%Q
  | _, [] => 0%Q
  | _, _ => Difflib.ratio text1 text2
  end.

(** Float comparisons [x > y] and [x >= y] on similarities. *)
Definition Qgtb (x y : Q) : bool := negb (Qle_bool x y).
Definition Qgeb (x y : Q) : bool := Qle_bool y x.

(** The loop of [find_best_match] over [candidate_articles.items()]. *)
Fixpoint best_loop (target_content : list Z) (items : dict Z Article)
    (used_articles : gset Z) (best_match_num : Z) (best_similarity : Q)
    : Z * Q :=
  match items with
  | [] => (best_match_num, best_similarity)
  | (article_num, article_info) :: items' =>
    if bool_decide (article_num ∈ used_articles) then
      best_loop target_content items' used_articles best_match_num best_similarity
    else
      let candidate_content := content article_info in
      let similarity := calculate_similarity target_content candidate_content in
      if Qgtb similarity best_similarity
      then best_loop target_content items' used_articles article_num similarity
      else best_loop target_content items' used_articles
             best_match_num best_similarity
  end.

Definition find_best_match (target_article : Article)
    (candidate_articles : dict Z Article) (used_articles : gset Z) : Z * Q :=
  let target_content := content target_article in
  best_loop target_content candidate_articles used_articles (-1) 0%Q.

(** The state threaded through the two matching loops. *)
Record MatchState := {
  matches : list MatchEntry;
  used_articles1 : gset Z;
  used_articles2 : gset Z;
  manual_matches_processed : Z
}.

(** One iteration of [for match in self.manual_matches]. *)
Definition manual_step (articles1 articles2 : dict Z Article)
    (st : MatchState) (m : ManualMatch) : MatchState :=
  let old_num := old_number m in
  let new_num := new_number m in
  match dict_get articles1 old_num, dict_get articles2 new_num with
  | Some a1, Some a2 =>
    let similarity := calculate_similarity (content a1) (content a2) in
    {| matches := matches st ++ [Build_MatchEntry old_num new_num similarity manual];
       used_articles1 := used_articles1 st ∪ {[old_num]};
       used_articles2 := used_articles2 st ∪ {[new_num]};
       manual_matches_processed := manual_matches_processed st + 1 |}
  | _, _ => st  (* only a warning is printed *)
  end.

Definition manual_phase (self : Comparator) (articles1 articles2 : dict Z Article)
    : MatchState :=
  fold_left (manual_step articles1 articles2) (manual_matches self)
    {| matches := []; used_articles1 := ∅; used_articles2 := ∅;
       manual_matches_processed := 0 |}.

(** The dict comprehension [{k: v for k, v in d.items() if k not in used}]. *)
Definition remaining (d : dict Z Article) (used : gset Z) : dict Z Article :=
  List.filter (fun kv => negb (bool_decide (fst kv ∈ used))) d.

(** [sorted(..)] of a list of ints. *)
Definition sorted (l : list Z) : list Z := Difflib.sort_by Z.leb l.

(** One iteration of [for article1_num in sorted(remaining_articles1.keys())].
    [None] is a [KeyError] of [remaining_articles1[article1_num]]. *)
Definition auto_step (self : Comparator)
    (remaining_articles1 remaining_articles2 : dict Z Article)
    (st : option MatchState) (article1_num : Z) : option MatchState :=
  match st with
  | None => None
  | Some st =>
    match dict_get remaining_articles1 article1_num with
    | None => None
    | Some article1_info =>
      let '(best_match_num, best_similarity) :=
        find_best_match article1_info remaining_articles2 (used_articles2 st) in
      if negb (best_match_num =? -1)
         && Qgeb best_similarity (similarity_threshold self)
      then
        Some {| matches := matches st ++
                  [Build_MatchEntry article1_num best_match_num best_similarity auto];
                used_articles1 := used_articles1 st;
                used_articles2 := used_articles2 st ∪ {[best_match_num]};
                manual_matches_processed := manual_matches_processed st |}
      else
        Some {| matches := matches st ++
                  [Build_MatchEntry article1_num (-1) 0%Q none];
                used_articles1 := used_articles1 st;
                used_articles2 := used_articles2 st;
                manual_matches_processed := manual_matches_processed st |}
    end
  end.

(** The dictionary returned by [intelligent_article_matching]. *)
Record MatchingResult := {
  result_matches : list MatchEntry;
  result_new : list Z;
  result_used_articles2 : gset Z;
  manual_matches_count : Z
}.

Definition intelligent_article_matching (self : Comparator)
    (articles1 articles2 : dict Z Article) : option MatchingResult :=
  let st := manual_phase self articles1 articles2 in
  let remaining_articles1 := remaining articles1 (used_articles1 st) in
  let remaining_articles2 := remaining articles2 (used_articles2 st) in
  match fold_left (auto_step self remaining_articles1 remaining_articles2)
                  (sorted (keys remaining_articles1)) (Some st) with
  | None => None
  | Some st =>
    let new_articles :=
      List.filter (fun n => negb (bool_decide (n ∈ used_articles2 st)))
                  (sorted (keys articles2)) in
    Some {| result_matches := matches st;
            result_new := new_articles;
            result_used_articles2 := used_articles2 st;
            manual_matches_count := manual_matches_processed st |}
  end.

(** ** compare_articles *)

(** [html.escape(s)] with [quote=True]: five replacements, [&] first. *)
Definition html_escape (s : list Z) : list Z :=
  let s := replace1 (ch "&") (py "&amp;") s in
  let s := replace1 (ch "<") (py "&lt;") s in
  let s := replace1 (ch ">") (py "&gt;") s in
  let s := replace1 34 (py "&quot;") s in
  replace1 39 (py "&#x27;") s.

(** The [chapter_info] dictionaries. *)
Record ChapterInfo := {
  info_chapter_num : option Z;
  chapter_title : list Z;
  info_section_num : option Z;
  section_title : list Z
}.

(** [headings.get(num, {}).get('title', '')]; the key [None] is never in
    the dictionary. *)
Definition title_of (headings : dict Z Heading) (num : option Z) : list Z :=
  match num with
  | Some n => match dict_get headings n with Some h => title h | None => [] end
  | None => []
  end.

Definition chapter_info_of (law : Law) (info : Article) : ChapterInfo :=
  {| info_chapter_num := chapter_num info;
     chapter_title := title_of (chapters law) (chapter_num info);
     info_section_num := section_num info;
     section_title := title_of (sections law) (section_num info) |}.

Record IdenticalRecord := {
  id_old_number : Z;
  id_new_number : Z;
  id_content : list Z;
  id_similarity : Q;
  id_match_type : MatchType
}.

Record ModifiedRecord := {
  md_old_number : Z;
  md_new_number : Z;
  old_content : list Z;
  new_content : list Z;
  md_similarity : Q;
  md_match_type : MatchType;
  old_chapter_info : ChapterInfo;
  new_chapter_info : ChapterInfo;
  unified_diff_html : list Z
}.

(** The records of the lists ['new'] and ['deleted']. *)
Record ArticleRecord := {
  article_number : Z;
  ar_content : list Z;
  chapter_info : ChapterInfo
}.

Record Statistics := {
  total_articles_v1 : Z;
  total_articles_v2 : Z;
  identical_count : Z;
  modified_count : Z;
  new_count : Z;
  deleted_count : Z;
  manual_count : Z;
  auto_count : Z
}.

Record ComparisonResult := {
  identical : list IdenticalRecord;
  modified : list ModifiedRecord;
  new : list ArticleRecord;
  deleted : list ArticleRecord;
  mapping : dict Z Z;
  statistics : Statistics
}.

(** [d[k] = v] on an insertion-ordered dictionary. *)
Fixpoint dict_set {V} (d : dict Z V) (k : Z) (v : V) : dict Z V :=
  match d with
  | [] => [(k, v)]
  | (k', v') :: d' => if k' =? k then (k, v) :: d' else (k', v') :: dict_set d' k v
  end.

Section Compare.

(** The room that the interpreter's recursion limit leaves to
    [difflib.Differ], see [Differ._fancy_replace]. *)
Variable recursion_depth : nat.

Definition span_open (cls : list Z) : list Z :=
  py "<span class=" ++ [34] ++ cls ++ [34] ++ py ">".

Definition diff_part (line : list Z) : list Z :=
  let content := html_escape (strip (drop 2 line)) in
  if startswith line (py "  ") then content
  else if startswith line (py "- ") then
    match content with
    | [] => []
    | _ => span_open (py "diff-deleted") ++ content ++ py "</span>"
    end
  else if startswith line (py "+ ") then
    match content with
    | [] => []
    | _ => span_open (py "diff-added") ++ content ++ py "</span>"
    end
  else [].

(** [None] is the [RecursionError] of [Differ.compare]. *)
Definition generate_unified_html_diff (old_text new_text : list Z)
    : option (list Z) :=
  match Differ.compare recursion_depth old_text new_text with
  | None => None
  | Some diff_result => Some (concat (map diff_part diff_result))
  end.

(** One iteration of [for match_data in matching_result['matches']].
    [None] is a [KeyError] of [articles1[..]] or [articles2[..]], or the
    [RecursionError] of [generate_unified_html_diff]. *)
Definition classify_step (law1 law2 : Law) (acc : option ComparisonResult)
    (match_data : MatchEntry) : option ComparisonResult :=
  let articles1 := articles law1 in
  let articles2 := articles law2 in
  match acc with
  | None => None
  | Some r =>
    let n1 := article1_num match_data in
    let n2 := article2_num match_data in
    let stats := statistics r in
    let manual_count :=
      match match_type match_data with
      | manual => manual_count stats + 1 | _ => manual_count stats end in
    let auto_count :=
      match match_type match_data with
      | auto => auto_count stats + 1 | _ => auto_count stats end in
    if n2 =? -1 then
      match dict_get articles1 n1 with
      | None => None
      | Some article1_info =>
        Some {| identical := identical r; modified := modified r; new := new r;
                deleted := deleted r ++
                  [{| article_number := n1;
                      ar_content := content article1_info;
                      chapter_info := chapter_info_of law1 article1_info |}];
                mapping := mapping r;
                statistics :=
                  {| total_articles_v1 := total_articles_v1 stats;
                     total_articles_v2 := total_articles_v2 stats;
                     identical_count := identical_count stats;
                     modified_count := modified_count stats;
                     new_count := new_count stats;
                     deleted_count := deleted_count stats + 1;
                     manual_count := manual_count;
                     auto_count := auto_count |} |}
      end
    else
      match dict_get articles1 n1, dict_get articles2 n2 with
      | Some a1, Some a2 =>
        let content1 := content a1 in
        let content2 := content a2 in
        if Qgeb (similarity match_data) (98 # 100) then
          Some {| identical := identical r ++
                    [{| id_old_number := n1; id_new_number := n2;
                        id_content := content1;
                        id_similarity := similarity match_data;
                        id_match_type := match_type match_data |}];
                  modified := modified r; new := new r; deleted := deleted r;
                  mapping := dict_set (mapping r) n1 n2;
                  statistics :=
                    {| total_articles_v1 := total_articles_v1 stats;
                       total_articles_v2 := total_articles_v2 stats;
                       identical_count := identical_count stats + 1;
                       modified_count := modified_count stats;
                       new_count := new_count stats;
                       deleted_count := deleted_count stats;
                       manual_count := manual_count;
                       auto_count := auto_count |} |}
        else
          match generate_unified_html_diff content1 content2 with
          | None => None
          | Some diff_html =>
            Some {| identical := identical r;
                    modified := modified r ++
                      [{| md_old_number := n1; md_new_number := n2;
                          old_content := content1; new_content := content2;
                          md_similarity := similarity match_data;
                          md_match_type := match_type match_data;
                          old_chapter_info := chapter_info_of law1 a1;
                          new_chapter_info := chapter_info_of law2 a2;
                          unified_diff_html := diff_html |}];
                    new := new r; deleted := deleted r;
                    mapping := dict_set (mapping r) n1 n2;
                    statistics :=
                      {| total_articles_v1 := total_articles_v1 stats;
                         total_articles_v2 := total_articles_v2 stats;
                         identical_count := identical_count stats;
                         modified_count := modified_count stats + 1;
                         new_count := new_count stats;
                         deleted_count := deleted_count stats;
                         manual_count := manual_count;
                         auto_count := auto_count |} |}
          end
      | _, _ => None
      end
  end.

(** One iteration of [for article2_num in matching_result['new']]. *)
Definition new_step (law2 : Law) (acc : option ComparisonResult)
    (article2_num : Z) : option ComparisonResult :=
  match acc with
  | None => None
  | Some r =>
    match dict_get (articles law2) article2_num with
    | None => None
    | Some article2_info =>
      let stats := statistics r in
      Some {| identical := identical r; modified := modified r;
              new := new r ++
                [{| article_number := article2_num;
                    ar_content := content article2_info;
                    chapter_info := chapter_info_of law2 article2_info |}];
              deleted := deleted r; mapping := mapping r;
              statistics :=
                {| total_articles_v1 := total_articles_v1 stats;
                   total_articles_v2 := total_articles_v2 stats;
                   identical_count := identical_count stats;
                   modified_count := modified_count stats;
                   new_count := new_count stats + 1;
                   deleted_count := deleted_count stats;
                   manual_count := manual_count stats;
                   auto_count := auto_count stats |} |}
    end
  end.

(** [l.sort(key=...)] for an integer key: stable. *)
Definition sort_key {A} (key : A -> Z) (l : list A) : list A :=
  Difflib.sort_by (fun x y => key x <=? key y) l.

Definition compare_articles (self : Comparator) (law1 law2 : Law)
    : option ComparisonResult :=
  let articles1 := articles law1 in
  let articles2 := articles law2 in
  match intelligent_article_matching self articles1 articles2 with
  | None => None
  | Some matching_result =>
    let comparison_result :=
      {| identical := []; modified := []; new := []; deleted := [];
         mapping := [];
         statistics :=
           {| total_articles_v1 := Z.of_nat (length articles1);
              total_articles_v2 := Z.of_nat (length articles2);
              identical_count := 0; modified_count := 0;
              new_count := 0; deleted_count := 0;
              manual_count := 0; auto_count := 0 |} |} in
    let acc :=
      fold_left (classify_step law1 law2) (result_matches matching_result)
                (Some comparison_result) in
    let acc := fold_left (new_step law2) (result_new matching_result) acc in
    match acc with
    | None => None
    | Some r =>
      Some {| identical := sort_key id_old_number (identical r);
              modified := sort_key md_old_number (modified r);
              new := sort_key article_number (new r);
              deleted := sort_key article_number (deleted r);
              mapping := mapping r;
              statistics := statistics r |}
    end
  end.

End Compare.

End LawComparator.

Import LawParser LawComparator.

(* ===================================================================== *)
(** * Reference definitions used to state the properties *)
(* ===================================================================== *)

(** ** Well-formed Chinese numerals for 0..9999

    [numerals n] lists the accepted spellings of [n] over the digit
    characters and the units 十, 百, 千: every non-zero digit is followed by
    its unit, a gap of zero digits inside the number is written as one 零,
    trailing zeros are not written, and the digit 一 in front of 十 may be
    left out (十五 and 一十五, 一百一十 and 一百十). *)
Module Numeral.

Definition digit (d : Z) : list Z :=
  [nth (Z.to_nat d) (py "零一二三四五六七八九") 0].

Definition ones (o : Z) : list (list Z) :=
  if o =? 0 then [[]] else [digit o].

(** Spellings of [10 * t + o] with [1 <= t]. *)
Definition tens (t o : Z) : list (list Z) :=
  let heads :=
    if t =? 1 then [py "十"; py "一十"] else [digit t ++ py "十"] in
  h ← heads; w ← ones o; [h ++ w].

(** Spellings of [r < 100] after a hundreds digit. *)
Definition after_hundreds (r : Z) : list (list Z) :=
  if r =? 0 then [[]]
  else if r <? 10 then [py "零" ++ digit r]
  else tens (r / 10) (r mod 10).

Definition hundreds (h r : Z) : list (list Z) :=
  w ← after_hundreds r; [digit h ++ py "百" ++ w].

(** Spellings of [r < 1000] after a thousands digit. *)
Definition after_thousands (r : Z) : list (list Z) :=
  if r =? 0 then [[]]
  else if r <? 10 then [py "零" ++ digit r]
  else if r <? 100 then (w ← tens (r / 10) (r mod 10); [py "零" ++ w])
  else hundreds (r / 100) (r mod 100).

Definition numerals (n : Z) : list (list Z) :=
  if n =? 0 then [py "零"]
  else if n <? 10 then [digit n]
  else if n <? 100 then tens (n / 10) (n mod 10)
  else if n <? 1000 then hundreds (n / 100) (n mod 100)
  else w ← after_thousands (n mod 1000); [digit (n / 1000) ++ py "千" ++ w].

(** A character of the numeral table. *)
Definition recognized (c : Z) : bool :=
  existsb (Z.eqb c) (py "零一二三四五六七八九十百千万").

Definition converts_to (n : Z) (s : list Z) : bool :=
  match convert_chinese_number s with
  | Some v => v =? n
  | None => false
  end.

End Numeral.

(* ===================================================================== *)
(** * law_parser.py: class LawParser, the functions that build a document *)
(* ===================================================================== *)

Module LawDocument.

(** ** Cleaning *)

Definition nonblank (line : list Z) : bool :=
  match line with [] => false | _ => true end.

(** [clean_text]: strip every line and drop the blank ones. *)
Definition clean_text (text : list Z) : list Z :=
  let lines := split 10 text in
  let cleaned_lines := List.filter nonblank (map strip lines) in
  join [10] cleaned_lines.

(** The loop of [clean_article_content] over the lines; [processed_lines]
    is the list built so far, [processed_lines[-1]] its last element. *)
Fixpoint clean_lines (lines processed_lines : list (list Z)) : list (list Z) :=
  match lines with
  | [] => processed_lines
  | l :: lines' =>
    let line := strip l in
    match line with
    | [] => clean_lines lines' processed_lines
    | _ =>
      if match_enumerator line then clean_lines lines' (processed_lines ++ [line])
      else
        match rev processed_lines with
        | last_line :: front =>
          if negb (endswith_any last_line terminal_marks) then
            if negb (match_enumerator last_line)
            then clean_lines lines' (rev front ++ [last_line ++ line])
            else clean_lines lines' (processed_lines ++ [line])
          else clean_lines lines' (processed_lines ++ [line])
        | [] => clean_lines lines' (processed_lines ++ [line])
        end
    end
  end.

Definition clean_article_content (content : list Z) : list Z :=
  match content with
  | [] => content
  | _ =>
    let content := fix_pdf_line_breaks content in
    let content := normalize_punctuation content in
    let lines := split 10 content in
    join [10] (clean_lines lines [])
  end.

(** ** Header patterns *)

(** The numerals of the chapter and section patterns, and those of the
    article patterns. *)
Definition heading_numerals : list Z := py "一二三四五六七八九十".
Definition article_numerals : list Z := py "一二三四五六七八九十百零".

Definition in_chars (chars : list Z) (c : Z) : bool := existsb (Z.eqb c) chars.

(** The class [[　\s]]. *)
Definition heading_space (c : Z) : bool := (c =? ch "　") || is_space c.

(** [第[numerals]+marker] at the start of [s]: the run of numerals and the
    text after the marker. The run is greedy; the marker is no numeral, so
    no shorter run can be followed by it. *)
Definition match_token (numerals : list Z) (marker : Z) (s : list Z)
    : option (list Z * list Z) :=
  match s with
  | c :: r =>
    if c =? ch "第" then
      let after_run := skip_class (in_chars numerals) r in
      let run := take (length r - length after_run)%nat r in
      match run, after_run with
      | _ :: _, m :: rest => if m =? marker then Some (run, rest) else None
      | _, _ => None
      end
    else None
  | [] => None
  end.

(** The characters up to the next newline, which [.+] takes. *)
Fixpoint take_line (s : list Z) : list Z :=
  match s with
  | c :: s' => if c =? 10 then [] else c :: take_line s'
  | [] => []
  end.

Fixpoint drop_line (s : list Z) : list Z :=
  match s with
  | c :: s' => if c =? 10 then s else drop_line s'
  | [] => []
  end.

(** [[　\s]*(.+)] at the start of [rest]: the white space consumed, the
    group [(.+)] and the text after the match. The white space is taken
    greedily; when nothing but white space is left, it is given back up to
    its last character that is no newline, which [.+] then takes. *)
Definition match_title (rest : list Z) : option (list Z * list Z * list Z) :=
  let after := skip_class heading_space rest in
  let spaces := take (length rest - length after)%nat rest in
  match after with
  | _ :: _ => Some (spaces, take_line after, drop_line after)
  | [] =>
    match skip_class (Z.eqb 10) (rev spaces) with
    | c :: front =>
      Some (rev front, [c],
            drop (length front + 1)%nat spaces)
    | [] => None
    end
  end.

(** [re.match] of [^第[numerals]+marker[　\s]*(.+)] on [s]: group 0, the
    run of numerals, the group [(.+)], and the text after the match. *)
Definition match_header (numerals : list Z) (marker : Z) (s : list Z)
    : option (list Z * list Z * list Z * list Z) :=
  match match_token numerals marker s with
  | Some (run, rest) =>
    match match_title rest with
    | Some (spaces, title, after) =>
      Some (py "第" ++ run ++ [marker] ++ spaces ++ title, run, title, after)
    | None => None
    end
  | None => None
  end.

(** [re.search(r'第([numerals]+)marker', s)]: group 1 of the leftmost
    match. *)
Fixpoint search_token (numerals : list Z) (marker : Z) (s : list Z)
    : option (list Z) :=
  match s with
  | [] => None
  | _ :: s' =>
    match match_token numerals marker s with
    | Some (run, _) => Some run
    | None => search_token numerals marker s'
    end
  end.

(** [extract_pure_article_content]: the pattern is anchored at the start
    of the text, so at most one occurrence is removed. *)
Definition extract_pure_article_content (article_text : list Z) : list Z :=
  let pure_content :=
    match match_token article_numerals (ch "条") article_text with
    | Some (_, rest) => skip_class heading_space rest
    | None => article_text
    end in
  strip pure_content.

Definition _is_section_or_chapter_title (line : list Z) : bool :=
  match match_token heading_numerals (ch "章") line with
  | Some _ => true
  | None =>
    match match_token heading_numerals (ch "节") line with
    | Some _ => true
    | None => false
    end
  end.

(** ** parse_chapters and parse_sections *)

(** [pattern.finditer(content)] for a header pattern compiled with
    [re.MULTILINE]: [^] matches at the start of the text and after every
    newline. [at_start] tells whether the scan stands at such a place.
    The result lists group 0 and group 1 of the matches. A match ends
    before a newline or at the end of the text. *)
Fixpoint finditer_loop (fuel : nat) (numerals : list Z) (marker : Z)
    (at_start : bool) (s : list Z) : list (list Z * list Z) :=
  match fuel, s with
  | S fuel', c :: s' =>
    match (if at_start then match_header numerals marker s else None) with
    | Some (group0, _, title, after) =>
      (group0, title) :: finditer_loop fuel' numerals marker false after
    | None => finditer_loop fuel' numerals marker (c =? 10) s'
    end
  | _, _ => []
  end.

Definition finditer (numerals : list Z) (marker : Z) (content : list Z)
    : list (list Z * list Z) :=
  finditer_loop (length content) numerals marker true content.

(** The loop of [parse_chapters]; [None] is a [KeyError] inside
    [convert_chinese_number]. *)
Definition chapter_step (acc : option (dict Z Heading))
    (m : list Z * list Z) : option (dict Z Heading) :=
  match acc with
  | None => None
  | Some chapters =>
    let chapter_text := strip (fst m) in
    let chapter_title := _clean_spaces (strip (snd m)) in
    match search_token heading_numerals (ch "章") chapter_text with
    | Some run =>
      match convert_chinese_number run with
      | Some chapter_num =>
        Some (dict_set chapters chapter_num
                {| title := chapter_title; heading_text := chapter_text |})
      | None => None
      end
    | None => Some chapters
    end
  end.

Definition parse_chapters (content : list Z) : option (dict Z Heading) :=
  fold_left chapter_step (finditer heading_numerals (ch "章") content) (Some []).

Definition section_step (acc : option (dict Z Heading))
    (m : list Z * list Z) : option (dict Z Heading) :=
  match acc with
  | None => None
  | Some sections =>
    let section_text := strip (fst m) in
    let section_title := strip (snd m) in
    match search_token heading_numerals (ch "节") section_text with
    | Some run =>
      match convert_chinese_number run with
      | Some section_num =>
        Some (dict_set sections section_num
                {| title := section_title; heading_text := section_text |})
      | None => None
      end
    | None => Some sections
    end
  end.

Definition parse_sections (content : list Z) : option (dict Z Heading) :=
  fold_left section_step (finditer heading_numerals (ch "节") content) (Some []).

(** ** parse_articles *)

(** An article dictionary as [parse_articles] stores it. Only the last
    article of a text carries the keys ['chapter_title'] and
    ['section_title'] ([titles] is [None] when the keys are absent). *)
Record ParsedArticle := {
  info : Article;
  titles : option (option (list Z) * option (list Z))
}.

Record ParseState := {
  articles_so_far : dict Z ParsedArticle;
  current_article_num : option Z;
  current_article_content : list (list Z);
  current_chapter_num : option Z;
  current_chapter_title : option (list Z);
  current_section_num : option Z;
  current_section_title : option (list Z)
}.

(** The article dictionary built when an article is saved. *)
Definition article_record (st : ParseState) : Article :=
  let full_content := strip (join [10] (current_article_content st)) in
  let pure_content := extract_pure_article_content full_content in
  let pure_content := clean_article_content pure_content in
  {| content := pure_content;
     full_text := full_content;
     chapter_num := current_chapter_num st;
     section_num := current_section_num st;
     line_count := Z.of_nat (length (current_article_content st)) |}.

(** [articles[current_article_num] = {...}]; [final] is the save after
    the loop. *)
Definition save_article (st : ParseState) (final : bool)
    : dict Z ParsedArticle :=
  match current_article_num st with
  | Some n =>
    dict_set (articles_so_far st) n
      {| info := article_record st;
         titles := if final
                   then Some (current_chapter_title st, current_section_title st)
                   else None |}
  | None => articles_so_far st
  end.

(** One iteration of [for line in content_lines]. *)
Definition line_step (acc : option ParseState) (line : list Z)
    : option ParseState :=
  match acc with
  | None => None
  | Some st =>
    let line_stripped := strip line in
    match match_header heading_numerals (ch "章") line with
    | Some (_, _, title_group, _) =>
      let chapter_title := strip title_group in
      match search_token heading_numerals (ch "章") line with
      | Some run =>
        match convert_chinese_number run with
        | Some n =>
          Some {| articles_so_far := articles_so_far st;
                  current_article_num := current_article_num st;
                  current_article_content := current_article_content st;
                  current_chapter_num := Some n;
                  current_chapter_title := Some chapter_title;
                  current_section_num := None;
                  current_section_title := None |}
        | None => None
        end
      | None => Some st
      end
    | None =>
      match match_header heading_numerals (ch "节") line with
      | Some (_, _, title_group, _) =>
        let section_title := strip title_group in
        match search_token heading_numerals (ch "节") line with
        | Some run =>
          match convert_chinese_number run with
          | Some n =>
            Some {| articles_so_far := articles_so_far st;
                    current_article_num := current_article_num st;
                    current_article_content := current_article_content st;
                    current_chapter_num := current_chapter_num st;
                    current_chapter_title := current_chapter_title st;
                    current_section_num := Some n;
                    current_section_title := Some section_title |}
          | None => None
          end
        | None => Some st
        end
      | None =>
        match match_header article_numerals (ch "条") line with
        | Some (_, run, _, _) =>
          match convert_chinese_number run with
          | Some n =>
            Some {| articles_so_far := save_article st false;
                    current_article_num := Some n;
                    current_article_content := [line_stripped];
                    current_chapter_num := current_chapter_num st;
                    current_chapter_title := current_chapter_title st;
                    current_section_num := current_section_num st;
                    current_section_title := current_section_title st |}
          | None => None
          end
        | None =>
          match current_article_num st, line_stripped with
          | Some _, _ :: _ =>
            if _is_section_or_chapter_title line_stripped then Some st
            else
              Some {| articles_so_far := articles_so_far st;
                      current_article_num := current_article_num st;
                      current_article_content :=
                        current_article_content st ++ [line_stripped];
                      current_chapter_num := current_chapter_num st;
                      current_chapter_title := current_chapter_title st;
                      current_section_num := current_section_num st;
                      current_section_title := current_section_title st |}
          | _, _ => Some st
          end
        end
      end
    end
  end.

Definition initial_state : ParseState :=
  {| articles_so_far := []; current_article_num := None;
     current_article_content := [];
     current_chapter_num := None; current_chapter_title := None;
     current_section_num := None; current_section_title := None |}.

Definition parse_articles (content : list Z) : option (dict Z ParsedArticle) :=
  let content_lines := split 10 content in
  match fold_left line_step content_lines (Some initial_state) with
  | Some st => Some (save_article st true)
  | None => None
  end.

(** ** parse_file, after the file has been read *)

Record Metadata := {
  total_chapters : Z;
  total_sections : Z;
  total_articles : Z;
  total_content_length : Z
}.

Record LawStructure := {
  law_chapters : dict Z Heading;
  law_sections : dict Z Heading;
  law_articles : dict Z ParsedArticle;
  metadata : Metadata
}.

(** [parse_file] from [content = f.read()] on. *)
Definition parse_file_content (content : list Z) : option LawStructure :=
  let content := clean_text content in
  match parse_chapters content, parse_sections content, parse_articles content with
  | Some chapters, Some sections, Some articles =>
    Some {| law_chapters := chapters;
            law_sections := sections;
            law_articles := articles;
            metadata :=
              {| total_chapters := Z.of_nat (length chapters);
                 total_sections := Z.of_nat (length sections);
                 total_articles := Z.of_nat (length articles);
                 total_content_length := Z.of_nat (length content) |} |}
  | _, _, _ => None
  end.

(** What [compare_articles] reads of a parsed law: [law.get('chapters')],
    [law.get('sections')], [law.get('articles')]. *)
Definition law_read (law : LawStructure) : Law :=
  {| chapters := law_chapters law;
     sections := law_sections law;
     articles := map (fun kv => (fst kv, info (snd kv))) (law_articles law) |}.

(** ** is_manually_matched *)

(** [is_manually_matched(old_number, new_number)]; [None] is Python's
    [None]. The numbers are compared through [str(..)], which is injective
    on integers. *)
Fixpoint is_manually_matched (manual_matches : list ManualMatch)
    (old new : option Z) : bool :=
  match manual_matches with
  | [] => false
  | m :: rest =>
    if match old with Some o => old_number m =? o | None => false end then true
    else if match new with Some n => new_number m =? n | None => false end
    then true
    else is_manually_matched rest old new
  end.

End LawDocument.

Import LawDocument.


(** ** Punctuation normalization, character by character *)
Module Punct.

(** The replacement loop, character by character: a key of the table goes
    to its value, any other character stays. *)
Definition replacements : dict Z (list Z) := punctuation_map ++ [(34, [34])].

Definition punct_char (c : Z) : Z :=
  match dict_get replacements c with
  | Some v => hd c v
  | None => c
  end.

(** What a second normalization does to a character of a normalized
    text. *)
Definition widen_period (c : Z) : Z := if c =? ch "." then ch "。" else c.

(** A period, ASCII or full-width, that directly follows a decimal digit
    and directly precedes a white-space character. *)
Fixpoint numbered_marker (s : list Z) : bool :=
  match s with
  | [] => false
  | d :: s' =>
    match s' with
    | p :: w :: _ =>
      is_digit d && ((p =? ch ".") || (p =? ch "。")) && is_space w
    | _ => false
    end || numbered_marker s'
  end.

Fixpoint wide_marker (s : list Z) : bool :=
  match s with
  | [] => false
  | d :: s' =>
    match s' with
    | p :: w :: _ => is_digit d && (p =? ch "。") && is_space w
    | _ => false
    end || wide_marker s'
  end.

(** The values of the table are one character long and are not changed
    by any entry: the chain of replacements is a single lookup. *)
Definition stable_table (tbl : dict Z (list Z)) : Prop :=
  Forall (fun kv => length (snd kv) = 1%nat /\
            Forall (fun kv' => fst kv' = hd 0 (snd kv) ->
                               hd 0 (snd kv') = hd 0 (snd kv)) tbl) tbl.

End Punct.

Import Punct.

(** ** Windows and sizes of matching blocks *)
Module Blocks.

(** The block [(i, j, k)] lies inside the window [a[alo:ahi]], [b[blo:bhi]]. *)
Definition in_window (win : Z * Z * Z * Z) (blk : Z * Z * Z) : Prop :=
  let '(alo, ahi, blo, bhi) := win in
  let '(i, j, k) := blk in
  alo <= i /\ i + k <= ahi /\ blo <= j /\ j + k <= bhi /\ 0 <= k.

Definition window_ok (win : Z * Z * Z * Z) : Prop :=
  let '(alo, ahi, blo, bhi) := win in alo <= ahi /\ blo <= bhi.

Definition width_a (win : Z * Z * Z * Z) : Z :=
  let '(alo, ahi, _, _) := win in ahi - alo.

Definition width_b (win : Z * Z * Z * Z) : Z :=
  let '(_, _, blo, bhi) := win in bhi - blo.

(** [sum(triple[-1] for triple in blocks)]. *)
Definition total_size (blocks : list (Z * Z * Z)) : Z :=
  foldr Z.add 0 (map snd blocks).

(** The lengths stored in one row of [j2len] while row [i] is scanned. *)
Definition row_ok (alo blo bhi i : Z) (m : gmap Z Z) : Prop :=
  forall j v, m !! j = Some v ->
    blo <= j < bhi /\ 1 <= v /\ v <= j - blo + 1 /\ v <= i - alo + 1.

(** The measure that decreases in the queue loop of
    [get_matching_blocks]. *)
Definition queue_measure (queue : list (Z * Z * Z * Z)) : Z :=
  foldr Z.add 0 (map (fun win => 2 * width_a win + 1) queue).

End Blocks.

Import Blocks.

(** ** The alignment, as the specification words it *)
Module Align.

(** Article numbers of a parsed document: [convert_chinese_number] never
    returns a negative number, so [-1] is free to mean "no article". *)
Definition parsed_numbers (d : dict Z Article) : Prop :=
  Forall (fun k => 0 <= k) (keys d).

(** [d[k].get('content', '')] for a key that may be absent. *)
Definition content_of (d : dict Z Article) (k : Z) : list Z :=
  match dict_get d k with Some art => content art | None => [] end.

(** Both articles of a manual pair exist. *)
Definition applicable (articles1 articles2 : dict Z Article) (m : ManualMatch)
    : bool :=
  dict_mem articles1 (old_number m) && dict_mem articles2 (new_number m).

(** The entry recorded for an applicable manual pair. *)
Definition manual_entry (articles1 articles2 : dict Z Article) (m : ManualMatch)
    : MatchEntry :=
  {| article1_num := old_number m;
     article2_num := new_number m;
     similarity := calculate_similarity (content_of articles1 (old_number m))
                                        (content_of articles2 (new_number m));
     match_type := manual |}.

(** A matched entry: manual or auto. *)
Definition matched (e : MatchEntry) : bool :=
  match match_type e with none => false | _ => true end.

Definition matched_entries (l : list MatchEntry) : list MatchEntry :=
  List.filter matched l.

(** The new articles that are not consumed yet, in the order of the new
    document's mapping. *)
Definition candidates (articles2 : dict Z Article) (used : gset Z)
    : dict Z Article :=
  List.filter (fun kv => negb (bool_decide (fst kv ∈ used))) articles2.

(** [m] is the candidate of maximal similarity [s] to [target]; among
    several candidates of maximal similarity it is the first one in the
    order of the mapping. *)
Definition best_of (target : list Z) (cands : dict Z Article) (m : Z) (s : Q)
    : Prop :=
  exists pre a2 post,
    cands = pre ++ (m, a2) :: post /\
    s = calculate_similarity target (content a2) /\
    Forall (fun kv => (calculate_similarity target (content (snd kv)) < s)%Q) pre /\
    Forall (fun kv => (calculate_similarity target (content (snd kv)) <= s)%Q) post.

(** The automatic phase over the old numbers [order], from the consumed
    set [used] to the consumed set [used']: each old article is matched
    with its best candidate when that maximum is positive and at least the
    threshold, and is recorded as unmatched otherwise. *)
Inductive auto_spec (threshold : Q) (articles1 articles2 : dict Z Article)
    : list Z -> gset Z -> list MatchEntry -> gset Z -> Prop :=
| auto_done used : auto_spec threshold articles1 articles2 [] used [] used
| auto_match n order used a1 m s entries used' :
    dict_get articles1 n = Some a1 ->
    best_of (content a1) (candidates articles2 used) m s ->
    (0 < s)%Q -> (threshold <= s)%Q ->
    auto_spec threshold articles1 articles2 order (used ∪ {[m]}) entries used' ->
    auto_spec threshold articles1 articles2 (n :: order) used
      ({| article1_num := n; article2_num := m; similarity := s;
          match_type := auto |} :: entries) used'
| auto_unmatched n order used a1 entries used' :
    dict_get articles1 n = Some a1 ->
    Forall (fun kv =>
              let s := calculate_similarity (content a1) (content (snd kv)) in
              ~ ((0 < s)%Q /\ (threshold <= s)%Q))
           (candidates articles2 used) ->
    auto_spec threshold articles1 articles2 order used entries used' ->
    auto_spec threshold articles1 articles2 (n :: order) used
      ({| article1_num := n; article2_num := -1; similarity := 0%Q;
          match_type := none |} :: entries) used'.

End Align.

Import Align.

(** ** Example documents *)
Module Examples.

Definition art (s : string) : Article :=
  {| content := py s; full_text := py s; chapter_num := None;
     section_num := None; line_count := 1 |}.

Definition art_of (s : list Z) : Article :=
  {| content := s; full_text := s; chapter_num := None;
     section_num := None; line_count := 1 |}.

Definition old_doc : dict Z Article :=
  [(1, art "禁止吸烟。"); (2, art "罚款一百元。")].

Definition new_doc : dict Z Article :=
  [(1, art "禁止吸烟和饮酒。"); (3, art "罚款二百元。")].

(** Two versions of a statute: an article dropped, one amended, one
    renumbered, one added. *)
Definition old_statute : dict Z Article :=
  [(1, art "禁止吸烟。"); (2, art "罚款一百元。");
   (3, art "本法自公布之日起施行。")].

Definition new_statute : dict Z Article :=
  [(1, art "禁止吸烟和饮酒。"); (3, art "罚款二百元。");
   (4, art "本法自公布之日起施行。")].

Definition no_state : MatchState :=
  {| matches := []; used_articles1 := ∅; used_articles2 := ∅;
     manual_matches_processed := 0 |}.

(** Three texts of 100 characters: [text_c] shares 79 characters with
    [text_a] and 80 with [text_b]. *)
Definition text_a : list Z := repeat (ch "a") 79 ++ repeat (ch "b") 21.
Definition text_b : list Z :=
  repeat (ch "a") 79 ++ [ch "c"] ++ repeat (ch "d") 20.
Definition text_c : list Z := repeat (ch "a") 79 ++ repeat (ch "c") 21.

(** Two texts of 200 characters in which every character is too
    frequent for the index of the matcher. *)
Definition text_ab : list Z := concat (repeat (py "ab") 100).
Definition text_ba : list Z := concat (repeat (py "ba") 100).

Definition law_of (d : dict Z Article) : Law :=
  {| chapters := []; sections := []; articles := d |}.

End Examples.

Import Examples.

(** ** The classification of the entries, entry by entry *)
Module Classify.

(** The articles an entry refers to exist. *)
Definition entry_resolved (law1 law2 : Law) (e : MatchEntry) : Prop :=
  In (article1_num e) (keys (articles law1)) /\
  (article2_num e = -1 \/ In (article2_num e) (keys (articles law2))).

Section Records.

Variable depth : nat.
Variables law1 law2 : Law.

(** The two contents whose diff an entry asks for, if any. *)
Definition diff_call (e : MatchEntry) : option (list Z * list Z) :=
  if article2_num e =? -1 then None
  else
    match dict_get (articles law1) (article1_num e),
          dict_get (articles law2) (article2_num e) with
    | Some a1, Some a2 =>
      if Qgeb (similarity e) (98 # 100) then None
      else Some (content a1, content a2)
    | _, _ => None
    end.

(** The diff that an entry asks for, if any, is within the depth. *)
Definition diff_returns (e : MatchEntry) : bool :=
  match diff_call e with
  | Some (content1, content2) =>
    match Differ.compare depth content1 content2 with
    | Some _ => true
    | None => false
    end
  | None => true
  end.

(** The record that an entry adds to the list ['identical'], if any. *)
Definition identical_records (e : MatchEntry) : list IdenticalRecord :=
  if article2_num e =? -1 then []
  else
    match dict_get (articles law1) (article1_num e),
          dict_get (articles law2) (article2_num e) with
    | Some a1, Some a2 =>
      if Qgeb (similarity e) (98 # 100) then
        [{| id_old_number := article1_num e;
            id_new_number := article2_num e;
            id_content := content a1;
            id_similarity := similarity e;
            id_match_type := match_type e |}]
      else []
    | _, _ => []
    end.

(** The record that an entry adds to the list ['modified'], if any. *)
Definition modified_records (e : MatchEntry) : list ModifiedRecord :=
  if article2_num e =? -1 then []
  else
    match dict_get (articles law1) (article1_num e),
          dict_get (articles law2) (article2_num e) with
    | Some a1, Some a2 =>
      if Qgeb (similarity e) (98 # 100) then []
      else
        match generate_unified_html_diff depth (content a1) (content a2) with
        | Some diff_html =>
          [{| md_old_number := article1_num e;
              md_new_number := article2_num e;
              old_content := content a1;
              new_content := content a2;
              md_similarity := similarity e;
              md_match_type := match_type e;
              old_chapter_info := chapter_info_of law1 a1;
              new_chapter_info := chapter_info_of law2 a2;
              unified_diff_html := diff_html |}]
        | None => []
        end
    | _, _ => []
    end.

(** The record that an entry adds to the list ['deleted'], if any. *)
Definition deleted_records (e : MatchEntry) : list ArticleRecord :=
  if article2_num e =? -1 then
    match dict_get (articles law1) (article1_num e) with
    | Some a1 =>
      [{| article_number := article1_num e;
          ar_content := content a1;
          chapter_info := chapter_info_of law1 a1 |}]
    | None => []
    end
  else [].

(** The record of an added article. *)
Definition new_records (n : Z) : list ArticleRecord :=
  match dict_get (articles law2) n with
  | Some a2 =>
    [{| article_number := n;
        ar_content := content a2;
        chapter_info := chapter_info_of law2 a2 |}]
  | None => []
  end.

End Records.

(** The shorter of any two contents, one of each document, is at most
    [depth] characters long. *)
Definition within_depth (depth : nat) (law1 law2 : Law) : bool :=
  forallb (fun kv1 : Z * Article =>
    forallb (fun kv2 : Z * Article =>
      Nat.leb (Nat.min (length (content (snd kv1)))
                       (length (content (snd kv2)))) depth)
      (articles law2))
    (articles law1).

End Classify.

Import Classify.

(** ** Half-width periods *)
Module Marks.

(** A half-width period that does not directly follow a decimal digit;
    [after_digit] tells whether the character before [s] is a digit. *)
Fixpoint stray_period (after_digit : bool) (s : list Z) : bool :=
  match s with
  | [] => false
  | c :: s' =>
    ((c =? ch ".") && negb after_digit) || stray_period (is_digit c) s'
  end.

End Marks.

Import Marks.

(** ** Counting the entries of an alignment *)
Module Counts.

Definition is_manual (e : MatchEntry) : bool :=
  match match_type e with manual => true | _ => false end.

Definition is_auto (e : MatchEntry) : bool :=
  match match_type e with auto => true | _ => false end.

(** The entry has a new article: its new number is not the mark [-1]. *)
Definition has_new (e : MatchEntry) : bool := negb (article2_num e =? -1).

Definition count {A} (p : A -> bool) (l : list A) : Z :=
  Z.of_nat (length (List.filter p l)).

(** The assignments [mapping[article1_num] = article2_num] of the
    classification loop, in the order of the entries. *)
Definition mapping_of (entries : list MatchEntry) : dict Z Z :=
  fold_left (fun m e =>
               if has_new e then dict_set m (article1_num e) (article2_num e)
               else m) entries [].

End Counts.

Import Counts.

(** ** Common substrings *)
Module Common.

(** The block [(i, j, k)] is a common substring of [a] and [b]:
    [a[i:i+k] == b[j:j+k]], inside both sequences. *)
Definition common_block (a b : list Z) (blk : Z * Z * Z) : Prop :=
  let '(i, j, k) := blk in
  0 <= i /\ 0 <= j /\ 0 <= k /\
  i + k <= Difflib.len a /\ j + k <= Difflib.len b /\
  forall t, 0 <= t < k -> Difflib.item a (i + t) = Difflib.item b (j + t).

(** The elements of the block are equal, whatever its position. *)
Definition equal_block (a b : list Z) (blk : Z * Z * Z) : Prop :=
  let '(i, j, k) := blk in
  forall t, 0 <= t < k -> Difflib.item a (i + t) = Difflib.item b (j + t).

(** Row [i] of [j2len]: an entry [j -> v] stands for [v] equal elements
    that end at [a[i]] and [b[j]]. *)
Definition row_equal (a b : list Z) (i : Z) (m : gmap Z Z) : Prop :=
  forall j v, m !! j = Some v ->
    forall t, 0 <= t < v -> Difflib.item a (i - t) = Difflib.item b (j - t).

(** The element is left out of the index [b2j] of [a] as too popular. *)
Definition popular (a : list Z) (c : Z) : bool :=
  let n := Difflib.len a in
  Difflib.autojunk && (200 <=? n) &&
  (n / 100 + 1 <? Difflib.len (Difflib.indices_from 0 c a)).

(** The number of indexed elements that end at position [m] of [a],
    without a gap. *)
Fixpoint diagonal_run (a : list Z) (m : nat) : Z :=
  if popular a (Difflib.item a (Z.of_nat m)) then 0
  else 1 + match m with O => 0 | S m' => diagonal_run a m' end.

Definition diag (a : list Z) (m : Z) : Z :=
  if m <? 0 then 0 else diagonal_run a (Z.to_nat m).

(** The rectangle of positions that a block covers, as a window. *)
Definition rect_of (blk : Z * Z * Z) : Z * Z * Z * Z :=
  let '(i, j, k) := blk in (i, i + k, j, j + k).

(** The window [r1] lies before the window [r2], in [a] and in [b]. *)
Definition beforeb (r1 r2 : Z * Z * Z * Z) : bool :=
  let '(_, ahi1, _, bhi1) := r1 in
  let '(alo2, _, blo2, _) := r2 in
  (ahi1 <=? alo2) && (bhi1 <=? blo2).

Definition comparable (r1 r2 : Z * Z * Z * Z) : Prop :=
  beforeb r1 r2 = true \/ beforeb r2 r1 = true.

(** The window [r] lies inside the window [w]. *)
Definition inside (w r : Z * Z * Z * Z) : Prop :=
  let '(alo, ahi, blo, bhi) := w in
  let '(alo', ahi', blo', bhi') := r in
  alo <= alo' /\ alo' <= ahi' /\ ahi' <= ahi /\
  blo <= blo' /\ blo' <= bhi' /\ bhi' <= bhi.

End Common.

Import Common.

(** ** Deltas as edit scripts *)
Module Delta.

(** One step of an edit script on characters: the character is kept,
    removed from the old text, or added to the new text. *)
Inductive Edit := Same (c : Z) | Removed (c : Z) | Added (c : Z).

Definition edited (e : Edit) : Z :=
  match e with Same c | Removed c | Added c => c end.

(** The text that the script starts from, and the text it arrives at. *)
Definition old_side (script : list Edit) : list Z :=
  flat_map (fun e => match e with
                     | Same c | Removed c => [c]
                     | Added _ => []
                     end) script.

Definition new_side (script : list Edit) : list Z :=
  flat_map (fun e => match e with
                     | Same c | Added c => [c]
                     | Removed _ => []
                     end) script.

(** How a step shows in the HTML: a kept character bare, a removed or
    added one inside its [span]; always escaped. *)
Definition render (e : Edit) : list Z :=
  match e with
  | Same c => html_escape [c]
  | Removed c =>
    span_open (py "diff-deleted") ++ html_escape [c] ++ py "</span>"
  | Added c =>
    span_open (py "diff-added") ++ html_escape [c] ++ py "</span>"
  end.

Definition visible (e : Edit) : bool := negb (is_space (edited e)).

(** The HTML of a script: its steps on other than white-space characters,
    in order. *)
Definition annotation (script : list Edit) : list Z :=
  concat (map render (List.filter visible script)).

(** The step that a line of a delta stands for: [tag + ' ' + c] with the
    tag [' '], ['-'] or ['+']. Other lines (the hints [? ...]) stand for
    nothing. *)
Definition edit_of_line (line : list Z) : list Edit :=
  match line with
  | [tag; sp; c] =>
    if negb (sp =? 32) then []
    else if tag =? ch " " then [Same c]
    else if tag =? ch "-" then [Removed c]
    else if tag =? ch "+" then [Added c]
    else []
  | _ => []
  end.

Definition script_of (lines : list (list Z)) : list Edit :=
  flat_map edit_of_line lines.

(** [x[lo:hi]], for [0 <= lo] and [hi <= len(x)]. *)
Definition slice (x : list Z) (lo hi : Z) : list Z :=
  map (Difflib.item x) (seqZ lo (hi - lo)).

(** The lines are a delta from [olds] to [news], and
    [generate_unified_html_diff] turns them into the HTML of their
    script. *)
Definition delta (lines : list (list Z)) (olds news : list Z) : Prop :=
  old_side (script_of lines) = olds /\
  new_side (script_of lines) = news /\
  concat (map diff_part lines) = annotation (script_of lines).

(** The block [x] ends, in both sequences, where [y] starts or before. *)
Definition before (x y : Z * Z * Z) : Prop :=
  let '(i1, j1, k1) := x in
  let '(i2, j2, k2) := y in
  i1 + k1 <= i2 /\ j1 + k1 <= j2.

(** The ranges of the opcodes follow each other without a gap, from
    [(i, j)] to [(i', j')]. *)
Fixpoint tiles (i j : Z) (ops : list Difflib.Opcode) (i' j' : Z) : Prop :=
  match ops with
  | [] => i = i' /\ j = j'
  | (_, alo, ahi, blo, bhi) :: ops' =>
    alo = i /\ blo = j /\ alo <= ahi /\ blo <= bhi /\ tiles ahi bhi ops' i' j'
  end.

(** What the tag of an opcode says about its ranges. *)
Definition op_ok (a b : list Z) (op : Difflib.Opcode) : Prop :=
  let '(tag, alo, ahi, blo, bhi) := op in
  match tag with
  | Difflib.op_replace => alo < ahi /\ blo < bhi
  | Difflib.op_delete => blo = bhi
  | Difflib.op_insert => alo = ahi
  | Difflib.op_equal => slice a alo ahi = slice b blo bhi
  end.

(** What the search of [_fancy_replace] keeps: its pairs lie in the two
    ranges, the lines of the pair [eqi, eqj] are equal, and [best_ratio]
    has its first value as long as [best_i] is not bound. *)
Definition search_ok (a b : list Z) (alo ahi blo bhi : Z)
    (st : Differ.Search) : Prop :=
  (forall i j, Differ.eq_pair st = Some (i, j) ->
     alo <= i < ahi /\ blo <= j < bhi /\ Difflib.item a i = Difflib.item b j) /\
  (forall i j, Differ.best_pair st = Some (i, j) ->
     alo <= i < ahi /\ blo <= j < bhi) /\
  (Differ.best_pair st = None -> Differ.best_ratio st = 74 # 100).

End Delta.

Import Delta.

(* ===================================================================== *)
(** * Proofs *)
(* ===================================================================== *)

(** Literals [py "..."] and [ch "..."] are closed terms: evaluate them. *)
Ltac py_eval :=
  repeat match goal with
  | |- context [py ?s] =>
    let v := eval vm_compute in (py s) in change (py s) with v
  | |- context [ch ?s] =>
    let v := eval vm_compute in (ch s) in change (ch s) with v
  end.

Ltac py_eval_in H :=
  repeat match type of H with
  | context [py ?s] =>
    let v := eval vm_compute in (py s) in change (py s) with v in H
  | context [ch ?s] =>
    let v := eval vm_compute in (ch s) in change (ch s) with v in H
  end.

(** ** NumeralConverter *)

Section NumeralConverter.

Lemma numerals_check :
  forallb (fun n => forallb (Numeral.converts_to n) (Numeral.numerals n))
          (seqZ 0 10000) = true.
Proof. vm_compute. reflexivity. Qed.

Lemma numerals_convert n s :
  0 <= n <= 9999 -> s ∈ Numeral.numerals n ->
  convert_chinese_number s = Some n.
Proof.
  intros Hn Hs.
  pose proof numerals_check as Hall.
  rewrite forallb_forall in Hall.
  assert (Hin : In n (seqZ 0 10000)).
  { apply list_elem_of_In, elem_of_seqZ. lia. }
  specialize (Hall n Hin). rewrite forallb_forall in Hall.
  apply list_elem_of_In in Hs. specialize (Hall s Hs).
  unfold Numeral.converts_to in Hall.
  destruct (convert_chinese_number s) as [v|]; [|discriminate].
  apply Z.eqb_eq in Hall. by subst.
Qed.

(** Every number of the range has a spelling. *)
Lemma numerals_nonempty n : 0 <= n <= 9999 -> Numeral.numerals n <> [].
Proof.
  intros Hn.
  assert (Hall : forallb (fun n => negb (bool_decide (Numeral.numerals n = [])))
                 (seqZ 0 10000) = true) by (vm_compute; reflexivity).
  rewrite forallb_forall in Hall.
  assert (Hin : In n (seqZ 0 10000)).
  { apply list_elem_of_In, elem_of_seqZ. lia. }
  specialize (Hall n Hin). apply negb_true_iff, bool_decide_eq_false in Hall.
  exact Hall.
Qed.

Lemma unrecognized_char c :
  Numeral.recognized c = false ->
  sdict_get chinese_to_num [c] = None /\
  existsb (str_eqb [c]) [py "十"; py "百"; py "千"; py "万"] = false /\
  str_eqb [c] (py "零") = false.
Proof.
  unfold Numeral.recognized. py_eval. unfold chinese_to_num.
  cbn [existsb sdict_get str_eqb].
  intros H. rewrite !orb_false_iff in H.
  repeat match type of H with _ /\ _ => destruct H as [? H] end.
  repeat match goal with E : (c =? _) = false |- _ => apply Z.eqb_neq in E end.
  repeat match goal with
  | |- context [?k =? c] => destruct (Z.eqb_spec k c); [exfalso; lia|]
  | |- context [c =? ?k] => destruct (Z.eqb_spec c k); [exfalso; lia|]
  end.
  cbn [andb orb]. auto.
Qed.

Lemma parse_loop_unrecognized s : forall i result temp_num,
  Forall (fun c => Numeral.recognized c = false) s ->
  parse_loop chinese_to_num i s result temp_num = Some (result, temp_num).
Proof.
  induction s as [|c s IH]; intros i result temp_num Hs; [reflexivity|].
  inversion Hs as [|? ? Hc Hs']; subst.
  destruct (unrecognized_char c Hc) as (Hget & Hunit & Hzero).
  cbn [parse_loop]. rewrite Hget, Hunit, Hzero. by apply IH.
Qed.

Lemma sdict_get_unrecognized c s :
  Numeral.recognized c = false -> sdict_get chinese_to_num (c :: s) = None.
Proof.
  intros Hc. destruct (unrecognized_char c Hc) as (Hget & _ & _).
  revert Hget. unfold chinese_to_num. cbn [sdict_get str_eqb].
  repeat match goal with
  | |- context [?k =? c] => destruct (k =? c); cbn [andb]; [discriminate|]
  end.
  intros _. destruct s; reflexivity.
Qed.

Lemma convert_unrecognized s :
  Forall (fun c => Numeral.recognized c = false) s ->
  convert_chinese_number s = Some 0.
Proof.
  intros Hs. destruct s as [|c s]; [reflexivity|].
  unfold convert_chinese_number.
  rewrite sdict_get_unrecognized by (by inversion Hs).
  unfold _parse_complex_chinese_number.
  by rewrite parse_loop_unrecognized.
Qed.

(** The converter never returns a negative number: article numbers of a
    parsed document are non-negative. *)
Lemma parse_complex_nonneg s n :
  _parse_complex_chinese_number s chinese_to_num = Some n -> 0 <= n.
Proof.
  unfold _parse_complex_chinese_number.
  destruct (parse_loop _ _ _ _ _) as [[r t]|]; [|discriminate].
  intros [= <-]. destruct (0 <? r + t) eqn:E; [apply Z.ltb_lt in E|]; lia.
Qed.

Lemma convert_nonneg s n : convert_chinese_number s = Some n -> 0 <= n.
Proof.
  destruct s as [|c s]; [intros [= <-]; lia|].
  unfold convert_chinese_number.
  destruct (sdict_get chinese_to_num (c :: s)) as [v|] eqn:E.
  - intros [= <-]. revert E. unfold chinese_to_num. cbn [sdict_get].
    repeat match goal with
    | |- context [if ?b then _ else _] => destruct b; [intros [= <-]; lia|]
    end.
    discriminate.
  - apply parse_complex_nonneg.
Qed.

(** C5. [convert_chinese_number] returns the value of every well-formed
    numeral for 0..9999 written with the supported digits and units; it
    returns 10, 11, 20 and 105 on 十, 十一, 二十 and 一百零五; and on the empty
    string and on a string without any character of the numeral table it
    returns 0 instead of raising. *)
Theorem C5_convert_chinese_number_correct :
  (forall n s, 0 <= n <= 9999 -> s ∈ Numeral.numerals n ->
               convert_chinese_number s = Some n) /\
  convert_chinese_number (py "十") = Some 10 /\
  convert_chinese_number (py "十一") = Some 11 /\
  convert_chinese_number (py "二十") = Some 20 /\
  convert_chinese_number (py "一百零五") = Some 105 /\
  convert_chinese_number [] = Some 0 /\
  (forall s, Forall (fun c => Numeral.recognized c = false) s ->
             convert_chinese_number s = Some 0).
Proof.
  split; [exact numerals_convert|].
  repeat split; try (vm_compute; reflexivity).
  exact convert_unrecognized.
Qed.

Lemma C5_witness :
  py "三千零四十" ∈ Numeral.numerals 3040 /\
  convert_chinese_number (py "三千零四十") = Some 3040 /\
  convert_chinese_number (py "abc") = Some 0.
Proof.
  assert (H : py "三千零四十" ∈ Numeral.numerals 3040).
  { vm_compute. apply list_elem_of_here. }
  split; [exact H|]. split.
  - apply (proj1 C5_convert_chinese_number_correct 3040); [lia|exact H].
  - apply C5_convert_chinese_number_correct.
    vm_compute. repeat constructor.
Defined.

End NumeralConverter.
(** ** TextNormalizer: line-break repair *)

Section LineBreaks.

Lemma split_no_sep sep l : sep ∉ l -> split sep l = [l].
Proof.
  induction l as [|c l IH]; intros Hl; [reflexivity|].
  apply not_elem_of_cons in Hl as [Hc Hl]. cbn [split].
  destruct (Z.eqb_spec c sep); [congruence|]. by rewrite IH.
Qed.

Lemma split_app_sep sep l r :
  sep ∉ l -> split sep (l ++ sep :: r) = l :: split sep r.
Proof.
  induction l as [|c l IH]; intros Hl; cbn [split app].
  - by rewrite Z.eqb_refl.
  - apply not_elem_of_cons in Hl as [Hc Hl].
    destruct (Z.eqb_spec c sep); [congruence|]. by rewrite IH.
Qed.

Lemma lstrip_head s c r : lstrip s = c :: r -> is_space c = false.
Proof.
  induction s as [|d s IH]; cbn [lstrip]; [discriminate|].
  destruct (is_space d) eqn:E; [exact IH|]. by intros [= <- _].
Qed.

Lemma rev_strip s : rev (strip s) = lstrip (rev (lstrip s)).
Proof. unfold strip, rstrip. apply rev_involutive. Qed.

(** A stripped line that is not empty ends with a character that is not
    white space. *)
Lemma strip_last s c r : rev (strip s) = c :: r -> is_space c = false.
Proof. rewrite rev_strip. apply lstrip_head. Qed.

Lemma match_enumerator_blocked line :
  match_enumerator line = true ->
  startswith_any line blocking_prefixes = true.
Proof.
  destruct line as [|c r]; [discriminate|].
  unfold match_enumerator, startswith_any, blocking_prefixes, in_class.
  py_eval. cbn [existsb startswith andb orb].
  intros H. apply andb_prop in H as [H _].
  destruct (c =? 40); [reflexivity|].
  destruct (c =? 65288); [reflexivity|discriminate].
Qed.

(** With a current line that ends in a character other than a newline,
    [_should_merge_lines] is decided by the two guards alone. *)
Lemma should_merge_guards current_line next_line c r :
  rev current_line = c :: r -> c <> 10 ->
  endswith_any current_line terminal_marks = false ->
  startswith_any next_line blocking_prefixes = false ->
  _should_merge_lines current_line next_line = true.
Proof.
  intros Hrev Hc Hterm Hblock. unfold _should_merge_lines.
  rewrite Hterm, Hblock.
  destruct (match_enumerator next_line) eqn:Henum.
  { apply match_enumerator_blocked in Henum. congruence. }
  destruct (endswith_any current_line comma_marks) eqn:Hcomma; [reflexivity|].
  replace (search_final_punctuation current_line) with false; [reflexivity|].
  revert Hterm Hcomma.
  unfold search_final_punctuation, endswith_any, endswith, terminal_marks,
    comma_marks, in_class.
  rewrite Hrev. py_eval. cbn [existsb startswith rev app andb orb].
  rewrite !orb_false_r, !andb_true_r.
  intros Hterm Hcomma.
  repeat match goal with
  | H : _ || _ = false |- _ => apply orb_false_elim in H; destruct H
  end.
  repeat match goal with E : (c =? _) = false |- _ => rewrite E end.
  destruct (Z.eqb_spec c 10); [congruence|]. reflexivity.
Qed.

Lemma fix_two_lines l1 l2 :
  10 ∉ l1 -> 10 ∉ l2 -> strip l1 <> [] -> strip l2 <> [] ->
  endswith_any (strip l1) terminal_marks = false ->
  startswith_any (strip l2) blocking_prefixes = false ->
  fix_pdf_line_breaks (l1 ++ [10] ++ l2) = strip l1 ++ strip l2.
Proof.
  intros H1 H2 Hs1 Hs2 Hterm Hblock.
  unfold fix_pdf_line_breaks.
  destruct (l1 ++ [10] ++ l2) as [|z t] eqn:Etext.
  { by destruct l1. }
  rewrite <- Etext. cbn [app].
  rewrite split_app_sep, split_no_sep by assumption.
  cbn [length fix_loop].
  destruct (strip l1) as [|c1 s1] eqn:E1; [done|].
  cbn [merge_loop].
  destruct (strip l2) as [|c2 s2] eqn:E2; [done|].
  destruct (rev (c1 :: s1)) as [|c r] eqn:Erev.
  { apply (f_equal (@length Z)) in Erev. rewrite length_rev in Erev. done. }
  assert (Hsp : is_space c = false).
  { apply (strip_last l1 c r). by rewrite E1. }
  assert (Hc : c <> 10) by (intros ->; discriminate Hsp).
  rewrite (should_merge_guards _ _ c r Erev Hc Hterm Hblock).
  reflexivity.
Qed.

(** C9 (as the code has it). Line-break repair merges a non-blank line
    into the following non-blank line when the stripped line does not end
    with one of the terminal marks . 。 ; ； : ： ! ！ ? ？ and the stripped
    next line does not begin with one of ( （ 第 条 章 节; in particular the
    two lines 机动车驾驶人应当 / 遵守交通信号。 become the single line
    机动车驾驶人应当遵守交通信号。 *)
Theorem C9_line_break_repair :
  (forall l1 l2,
     10 ∉ l1 -> 10 ∉ l2 -> strip l1 <> [] -> strip l2 <> [] ->
     endswith_any (strip l1) terminal_marks = false ->
     startswith_any (strip l2) blocking_prefixes = false ->
     fix_pdf_line_breaks (l1 ++ [10] ++ l2) = strip l1 ++ strip l2) /\
  fix_pdf_line_breaks (py "机动车驾驶人应当" ++ [10] ++ py "遵守交通信号。")
    = py "机动车驾驶人应当遵守交通信号。".
Proof.
  split; [exact fix_two_lines|]. vm_compute. reflexivity.
Qed.

Lemma C9_witness :
  fix_pdf_line_breaks (py "  驾驶人应当，" ++ [10] ++ py "遵守交通信号 ")
    = py "驾驶人应当，遵守交通信号".
Proof.
  refine (eq_trans
    (proj1 C9_line_break_repair (py "  驾驶人应当，") (py "遵守交通信号 ")
       _ _ _ _ _ _) _).
  - apply (bool_decide_eq_false_1 (10 ∈ py "  驾驶人应当，")).
    vm_compute. reflexivity.
  - apply (bool_decide_eq_false_1 (10 ∈ py "遵守交通信号 ")).
    vm_compute. reflexivity.
  - vm_compute. discriminate.
  - vm_compute. discriminate.
  - vm_compute. reflexivity.
  - vm_compute. reflexivity.
  - vm_compute. reflexivity.
Defined.

(** The specification, as worded, does not hold here:
    a line without terminal punctuation is not
    merged into a next line that starts with 第. *)
Lemma C9_counterexample :
  endswith_any (py "机动车驾驶人应当") terminal_marks = false /\
  search_final_punctuation (py "机动车驾驶人应当") = false /\
  _should_merge_lines (py "机动车驾驶人应当") (py "第二条遵守交通信号。") = false /\
  fix_pdf_line_breaks (py "机动车驾驶人应当" ++ [10] ++ py "第二条遵守交通信号。")
    = py "机动车驾驶人应当" ++ [10] ++ py "第二条遵守交通信号。".
Proof. repeat split; vm_compute; reflexivity. Qed.

End LineBreaks.
(** ** TextNormalizer: punctuation normalization *)

Section Punctuation.

Lemma replace1_single old n s :
  replace1 old [n] s = map (fun c => if c =? old then n else c) s.
Proof.
  unfold replace1. induction s as [|c s IH]; [reflexivity|].
  cbn [flat_map map]. rewrite IH. by destruct (c =? old).
Qed.

Lemma replace_table tbl : forall s,
  Forall (fun kv => length (snd kv) = 1%nat) tbl ->
  fold_left (fun acc kv => replace1 (fst kv) (snd kv) acc) tbl s
  = map (fun c => fold_left
                    (fun c kv => if c =? fst kv then hd 0 (snd kv) else c) tbl c) s.
Proof.
  induction tbl as [|[k v] tbl IH]; intros s Htbl; cbn [fold_left].
  - by rewrite map_id.
  - inversion Htbl as [|? ? Hv Htbl']; subst. cbn [fst snd] in *.
    destruct v as [|n [|? ?]]; try discriminate.
    rewrite IH, replace1_single, map_map by assumption. reflexivity.
Qed.

(** A character that no entry of the table changes goes through the
    chain of replacements unchanged. *)
Lemma replace_chain_fixed tbl v :
  Forall (fun kv => fst kv = v -> hd 0 (snd kv) = v) tbl ->
  fold_left (fun c kv => if c =? fst kv then hd 0 (snd kv) else c) tbl v = v.
Proof.
  induction tbl as [|[k w] tbl IH]; intros Htbl; [reflexivity|].
  inversion Htbl as [|? ? Hk Htbl']; subst. cbn [fold_left fst snd] in *.
  destruct (Z.eqb_spec v k) as [->|_]; [rewrite Hk by reflexivity|]; by apply IH.
Qed.

Lemma replace_chain_lookup tbl : forall c,
  stable_table tbl ->
  fold_left (fun c kv => if c =? fst kv then hd 0 (snd kv) else c) tbl c
  = match dict_get tbl c with Some v => hd c v | None => c end.
Proof.
  unfold stable_table.
  induction tbl as [|[k w] tbl IH]; intros c Htbl; [reflexivity|].
  inversion Htbl as [|? ? [Hlen Hfix] Htbl']; subst.
  cbn [fold_left dict_get fst snd] in *.
  assert (Htl : Forall (fun kv => length (snd kv) = 1%nat /\
            Forall (fun kv' => fst kv' = hd 0 (snd kv) ->
                               hd 0 (snd kv') = hd 0 (snd kv)) tbl) tbl).
  { eapply Forall_impl; [exact Htbl'|]. intros kv [? Hf]. split; [done|].
    by inversion Hf. }
  rewrite (Z.eqb_sym k c). destruct (Z.eqb_spec c k) as [->|_].
  - inversion Hfix; subst. rewrite replace_chain_fixed by assumption.
    destruct w as [|? [|? ?]]; try discriminate. reflexivity.
  - by apply IH.
Qed.

Lemma replacements_stable : stable_table replacements.
Proof.
  unfold stable_table, replacements, punctuation_map. py_eval. cbn [app].
  repeat (apply Forall_cons; split;
          [split; [reflexivity|];
           repeat (apply Forall_cons; split;
                   [cbn [fst snd hd]; intros E; first [discriminate E|reflexivity]|]);
           constructor|]).
  constructor.
Qed.

Lemma replace_pass s :
  replace1 34 [34]
    (fold_left (fun acc kv => replace1 (fst kv) (snd kv) acc) punctuation_map s)
  = map punct_char s.
Proof.
  transitivity
    (fold_left (fun acc kv => replace1 (fst kv) (snd kv) acc) replacements s).
  { unfold replacements. by rewrite fold_left_app. }
  rewrite replace_table.
  - apply map_ext. intros c. unfold punct_char.
    apply replace_chain_lookup, replacements_stable.
  - eapply Forall_impl; [exact replacements_stable|]. by intros kv [? _].
Qed.

Lemma normalize_unfold s :
  s <> [] ->
  normalize_punctuation s = _clean_spaces (sub_numbering (map punct_char s)).
Proof.
  intros Hs. destruct s as [|c s]; [done|].
  unfold normalize_punctuation. by rewrite replace_pass.
Qed.

(** Case analysis on the table entry that applies to [c]. *)
Lemma punct_char_cases c :
  (exists n, In (c, [n]) replacements /\ punct_char c = n) \/
  (punct_char c = c /\ ~ In c (keys replacements)).
Proof.
  unfold punct_char, replacements, punctuation_map, keys. py_eval.
  cbn [app dict_get map fst In].
  repeat match goal with
  | |- context [?k =? c] =>
    destruct (Z.eqb_spec k c) as [<-|?];
    [left; eexists; split; [|reflexivity]; cbn [hd]; tauto|]
  end.
  right. split; [reflexivity|]. intuition congruence.
Qed.

Ltac punct_cases c :=
  let n := fresh "n" in
  let Hin := fresh "Hin" in
  let Heq := fresh "Heq" in
  let Hnot := fresh "Hnot" in
  destruct (punct_char_cases c) as [(n & Hin & Heq)|[Heq Hnot]];
  [ rewrite Heq; clear Heq; revert Hin;
    unfold replacements, punctuation_map; py_eval; cbn [app In];
    intros Hin;
    repeat match type of Hin with
    | _ \/ _ => destruct Hin as [Hin|Hin]
    end;
    try (exfalso; exact Hin);
    injection Hin as <- <-
  | rewrite ?Heq ].

Lemma punct_char_space c : is_space (punct_char c) = is_space c.
Proof. punct_cases c; reflexivity. Qed.

Lemma punct_char_digit c : is_digit (punct_char c) = is_digit c.
Proof. punct_cases c; reflexivity. Qed.

Lemma punct_char_period c :
  (punct_char c =? ch "。") = ((c =? ch ".") || (c =? ch "。")).
Proof.
  punct_cases c; try reflexivity.
  py_eval. destruct (Z.eqb_spec c 46) as [->|]; [|reflexivity].
  exfalso. apply Hnot. vm_compute. tauto.
Qed.

Lemma punct_char_not_period c : punct_char c <> ch ".".
Proof.
  punct_cases c; try (vm_compute; discriminate).
  intros ->. apply Hnot. vm_compute. tauto.
Qed.

Lemma punct_char_idem c : punct_char (punct_char c) = punct_char c.
Proof.
  punct_cases c; reflexivity.
Qed.

Lemma punct_char_widen c :
  c = ch "." \/ (exists c0, c = punct_char c0) ->
  punct_char c = widen_period c.
Proof.
  intros [->|[c0 ->]]; [reflexivity|].
  rewrite punct_char_idem. unfold widen_period.
  destruct (Z.eqb_spec (punct_char c0) (ch ".")) as [E|_]; [|reflexivity].
  by apply punct_char_not_period in E.
Qed.

(** *** The numbering substitution *)

Lemma skip_class_suffix cls s :
  s = take (length s - length (skip_class cls s)) s ++ skip_class cls s.
Proof.
  induction s as [|c s IH]; [reflexivity|]. cbn [skip_class].
  destruct (cls c).
  - assert (Hle : (length (skip_class cls s) <= length s)%nat).
    { apply (f_equal (@length Z)) in IH. rewrite length_app in IH. lia. }
    cbn [length].
    replace (S (length s) - length (skip_class cls s))%nat
      with (S (length s - length (skip_class cls s))) by lia.
    cbn [take app]. by rewrite <- IH.
  - by rewrite Nat.sub_diag.
Qed.

Lemma skip_class_elem cls s x : x ∈ skip_class cls s -> x ∈ s.
Proof.
  intros Hx. rewrite (skip_class_suffix cls s). apply elem_of_app. by right.
Qed.

Lemma skip_class_length cls s : (length (skip_class cls s) <= length s)%nat.
Proof.
  pose proof (f_equal (@length Z) (skip_class_suffix cls s)) as H.
  rewrite length_app in H. lia.
Qed.

Lemma skip_class_prefix cls s :
  Forall (fun d => cls d = true)
         (take (length s - length (skip_class cls s)) s).
Proof.
  induction s as [|c s IH]; [constructor|]. cbn [skip_class].
  destruct (cls c) eqn:Hc.
  - pose proof (skip_class_length cls s) as Hle. cbn [length].
    replace (S (length s) - length (skip_class cls s))%nat
      with (S (length s - length (skip_class cls s))) by lia.
    cbn [take]. by constructor.
  - rewrite Nat.sub_diag. constructor.
Qed.

(** A match consumes at least three characters and its replacement is made
    of characters of the text, a period and a blank. *)
Lemma match_numbering_Some s replacement rest :
  match_numbering s = Some (replacement, rest) ->
  exists digits w,
    s = digits ++ ch "。" :: w :: rest /\ digits <> [] /\
    Forall (fun d => is_digit d = true) digits /\ is_space w = true /\
    replacement = digits ++ py ". " ++ [w].
Proof.
  unfold match_numbering. destruct s as [|d s']; [discriminate|].
  destruct (is_digit d) eqn:Hd; [|discriminate]. cbv zeta.
  pose proof (skip_class_suffix is_digit (d :: s')) as Hsuf.
  pose proof (skip_class_prefix is_digit (d :: s')) as Hpre.
  remember (take (length (d :: s') - length (skip_class is_digit (d :: s')))
                 (d :: s')) as digits eqn:Hdig.
  clear Hdig.
  destruct (skip_class is_digit (d :: s')) as [|p [|w rest']] eqn:Hskip;
    try discriminate.
  destruct (Z.eqb_spec p (ch "。")) as [->|]; [|discriminate].
  destruct (is_space w) eqn:Hw; [|discriminate].
  cbn [andb]. intros [= <- <-].
  exists digits, w. split; [exact Hsuf|]. split.
  - intros Hnil. rewrite Hnil in Hsuf. cbn [app] in Hsuf.
    injection Hsuf as ->. discriminate Hd.
  - auto.
Qed.

Lemma match_numbering_no_space s :
  Forall (fun c => is_space c = false) s -> match_numbering s = None.
Proof.
  intros Hs. destruct (match_numbering s) as [[replacement rest]|] eqn:E; [|done].
  apply match_numbering_Some in E as (digits & w & -> & _ & _ & Hw & _).
  rewrite Forall_app, !Forall_cons in Hs. destruct Hs as (_ & _ & Hw' & _).
  congruence.
Qed.

Lemma sub_numbering_loop_no_space fuel : forall s,
  (length s <= fuel)%nat ->
  Forall (fun c => is_space c = false) s ->
  sub_numbering_loop fuel s = s.
Proof.
  induction fuel as [|fuel IH]; intros [|c s] Hlen Hs; try reflexivity.
  { cbn [length] in Hlen. lia. }
  cbn [sub_numbering_loop]. rewrite match_numbering_no_space by assumption.
  rewrite IH; [done|cbn [length] in Hlen; lia|by inversion Hs].
Qed.

Lemma sub_numbering_chars fuel : forall s,
  Forall (fun c => c ∈ s \/ c = ch "." \/ c = 32) (sub_numbering_loop fuel s).
Proof.
  induction fuel as [|fuel IH]; intros [|c s]; try constructor.
  cbn [sub_numbering_loop].
  destruct (match_numbering (c :: s)) as [[replacement rest]|] eqn:E.
  - apply match_numbering_Some in E as (digits & w & Hs & _ & _ & _ & ->).
    rewrite Hs. apply Forall_forall. intros x Hx.
    change (py ". ") with [46; 32] in Hx.
    rewrite !elem_of_app in Hx. destruct Hx as [[Hx|[Hx|Hx]]|Hx].
    + left. set_solver.
    + right. apply elem_of_cons in Hx. destruct Hx as [E|Hx]; [by left|].
      apply list_elem_of_singleton in Hx. by right.
    + left. apply list_elem_of_singleton in Hx. subst x.
      apply elem_of_app. right. apply elem_of_cons. right.
      apply list_elem_of_here.
    + specialize (IH rest). rewrite Forall_forall in IH.
      destruct (IH x Hx) as [Hin|Hin]; [left; set_solver|by right].
  - constructor; [left; apply list_elem_of_here|].
    eapply Forall_impl; [apply IH|]. intros x [Hx|Hx]; [left|by right].
    apply elem_of_cons. by right.
Qed.

(** *** Removal of white space *)

Lemma lstrip_no_space s :
  Forall (fun c => is_space c = false) s -> lstrip s = s.
Proof. intros [|c s' Hc _]; [reflexivity|]. cbn [lstrip]. by rewrite Hc. Qed.

Lemma strip_no_space s :
  Forall (fun c => is_space c = false) s -> strip s = s.
Proof.
  intros Hs. unfold strip, rstrip. rewrite (lstrip_no_space s) by assumption.
  rewrite lstrip_no_space; [apply rev_involutive|].
  by apply List.Forall_rev.
Qed.

Lemma filter_no_space s :
  Forall (fun c => is_space c = false) (List.filter (fun c => negb (is_space c)) s).
Proof.
  apply Forall_forall. intros x Hx. apply list_elem_of_In, filter_In in Hx.
  destruct Hx as [_ Hx]. by apply negb_true_iff in Hx.
Qed.

Lemma filter_id_no_space s :
  Forall (fun c => is_space c = false) s ->
  List.filter (fun c => negb (is_space c)) s = s.
Proof.
  intros Hs. induction Hs as [|c s Hc Hs IH]; [reflexivity|].
  cbn [List.filter]. rewrite Hc. cbn [negb]. by rewrite IH.
Qed.

Lemma clean_spaces_filter s :
  _clean_spaces s = List.filter (fun c => negb (is_space c)) s.
Proof.
  destruct s as [|c s]; [reflexivity|].
  unfold _clean_spaces. apply strip_no_space, filter_no_space.
Qed.

Lemma clean_spaces_no_space s :
  Forall (fun c => is_space c = false) s -> _clean_spaces s = s.
Proof. intros Hs. rewrite clean_spaces_filter. by apply filter_id_no_space. Qed.

(** *** Two normalizations *)

(** The characters of a normalized text: no white space, and each one is
    a preserved period or a character that came out of the replacements. *)
Lemma normalize_chars s :
  Forall (fun c => is_space c = false /\
                   (c = ch "." \/ exists c0, c = punct_char c0))
         (normalize_punctuation s).
Proof.
  destruct s as [|c0 s0]; [constructor|].
  rewrite normalize_unfold by done. rewrite clean_spaces_filter.
  apply Forall_forall. intros x Hx.
  apply list_elem_of_In, filter_In in Hx. destruct Hx as [Hx Hsp].
  apply negb_true_iff in Hsp. split; [exact Hsp|].
  apply list_elem_of_In in Hx.
  pose proof (sub_numbering_chars (length (map punct_char (c0 :: s0)))
                (map punct_char (c0 :: s0))) as Hall.
  rewrite Forall_forall in Hall. destruct (Hall x Hx) as [Hin|[-> | ->]].
  - right. apply list_elem_of_In, in_map_iff in Hin.
    destruct Hin as (c & <- & _). by exists c.
  - by left.
  - discriminate Hsp.
Qed.

(** A second normalization only turns the preserved ASCII periods into
    full-width ones. *)
Lemma normalize_twice s :
  normalize_punctuation (normalize_punctuation s)
  = map widen_period (normalize_punctuation s).
Proof.
  pose proof (normalize_chars s) as Hchars.
  set (t := normalize_punctuation s) in *.
  destruct t as [|c t'] eqn:Et; [reflexivity|]. rewrite <- Et in *.
  assert (Hne : t <> []) by (rewrite Et; discriminate).
  rewrite normalize_unfold by exact Hne. clear Et Hne.
  assert (Hmap : map punct_char t = map widen_period t).
  { apply Forall_fmap_ext_1. eapply Forall_impl; [exact Hchars|].
    intros x [_ Hx]. by apply punct_char_widen. }
  rewrite Hmap.
  assert (Hns : Forall (fun c => is_space c = false) (map widen_period t)).
  { apply Forall_forall. intros x Hx. apply list_elem_of_In, in_map_iff in Hx.
    destruct Hx as (y & <- & Hy). apply list_elem_of_In in Hy.
    rewrite Forall_forall in Hchars. destruct (Hchars y Hy) as [Hsp _].
    unfold widen_period. destruct (y =? ch "."); [reflexivity|exact Hsp]. }
  unfold sub_numbering.
  rewrite sub_numbering_loop_no_space by (done || lia).
  by apply clean_spaces_no_space.
Qed.

(** *** Texts without a numbered-list marker *)

Lemma wide_marker_map s : wide_marker (map punct_char s) = numbered_marker s.
Proof.
  induction s as [|d s IH]; [reflexivity|].
  cbn [map wide_marker numbered_marker]. rewrite IH.
  destruct s as [|p [|w s']]; try reflexivity.
  cbn [map]. by rewrite punct_char_digit, punct_char_period, punct_char_space.
Qed.

Lemma wide_marker_tail c s : wide_marker (c :: s) = false -> wide_marker s = false.
Proof.
  cbn [wide_marker]. intros H. by apply orb_false_elim in H as [_ H].
Qed.

Lemma wide_marker_app_false digits w rest :
  digits <> [] -> Forall (fun d => is_digit d = true) digits ->
  is_space w = true ->
  wide_marker (digits ++ ch "。" :: w :: rest) = true.
Proof.
  induction digits as [|d digits IH]; intros Hne Hd Hw; [done|].
  inversion Hd as [|? ? Hd1 Hd2]; subst.
  destruct digits as [|d' digits'].
  - cbn [app wide_marker]. rewrite Hd1, Z.eqb_refl, Hw. reflexivity.
  - change (wide_marker ((d :: d' :: digits') ++ ch "。" :: w :: rest))
      with (match (d' :: digits') ++ ch "。" :: w :: rest with
            | p :: w0 :: _ => is_digit d && (p =? ch "。") && is_space w0
            | _ => false
            end || wide_marker ((d' :: digits') ++ ch "。" :: w :: rest)).
    rewrite IH by done. apply orb_true_r.
Qed.

Lemma sub_numbering_loop_no_marker fuel : forall s,
  (length s <= fuel)%nat -> wide_marker s = false ->
  sub_numbering_loop fuel s = s.
Proof.
  induction fuel as [|fuel IH]; intros [|c s] Hlen Hs; try reflexivity.
  { cbn [length] in Hlen. lia. }
  cbn [sub_numbering_loop].
  destruct (match_numbering (c :: s)) as [[replacement rest]|] eqn:E.
  - apply match_numbering_Some in E as (digits & w & Heq & Hne & Hd & Hw & _).
    rewrite Heq, wide_marker_app_false in Hs by assumption. discriminate.
  - rewrite IH; [done|cbn [length] in Hlen; lia|by apply wide_marker_tail in Hs].
Qed.

Lemma normalize_no_marker s :
  numbered_marker s = false ->
  normalize_punctuation s = _clean_spaces (map punct_char s).
Proof.
  intros Hs. destruct s as [|c s]; [reflexivity|].
  rewrite normalize_unfold by done. unfold sub_numbering.
  rewrite sub_numbering_loop_no_marker; [done|lia|by rewrite wide_marker_map].
Qed.

Lemma normalize_idempotent_no_marker s :
  numbered_marker s = false ->
  normalize_punctuation (normalize_punctuation s) = normalize_punctuation s.
Proof.
  intros Hs. rewrite normalize_twice, normalize_no_marker by assumption.
  rewrite clean_spaces_filter.
  rewrite <- (map_id (List.filter _ _)) at 2.
  apply map_ext_in. intros x Hx. apply filter_In in Hx as [Hx _].
  apply in_map_iff in Hx as (c & <- & _). unfold widen_period.
  destruct (Z.eqb_spec (punct_char c) (ch ".")) as [E|_]; [|reflexivity].
  by apply punct_char_not_period in E.
Qed.

(** The loop bound of [sub_numbering] is not reached: more iterations
    give the same text. *)
Lemma sub_numbering_fuel fuel : forall s,
  (length s <= fuel)%nat ->
  sub_numbering_loop fuel s = sub_numbering_loop (length s) s.
Proof.
  induction fuel as [fuel IH] using lt_wf_ind. intros s Hlen.
  destruct s as [|c s]; [by destruct fuel|].
  destruct fuel as [|fuel']; [cbn [length] in Hlen; lia|].
  cbn [length sub_numbering_loop].
  destruct (match_numbering (c :: s)) as [[replacement rest]|] eqn:E.
  - apply match_numbering_Some in E as (digits & w & Heq & Hne & _).
    assert (Hr : (length rest < length s)%nat).
    { apply (f_equal (@length Z)) in Heq. rewrite length_app in Heq.
      cbn [length] in Heq. lia. }
    cbn [length] in Hlen.
    rewrite (IH fuel') by lia. rewrite (IH (length s)) by lia. reflexivity.
  - cbn [length] in Hlen. rewrite (IH fuel') by lia. reflexivity.
Qed.

(** C3 (as the code has it). Punctuation normalization is idempotent on
    every text in which no period, ASCII or full-width, stands directly
    after a decimal digit and directly before a white-space character. *)
Theorem C3_normalize_idempotent_without_marker :
  forall s, numbered_marker s = false ->
    normalize_punctuation (normalize_punctuation s) = normalize_punctuation s.
Proof. exact normalize_idempotent_no_marker. Qed.

Lemma C3_witness :
  normalize_punctuation (normalize_punctuation (py "a, b. (c) 3.5 x"))
  = normalize_punctuation (py "a, b. (c) 3.5 x").
Proof.
  apply C3_normalize_idempotent_without_marker. vm_compute. reflexivity.
Defined.

(** The specification, as worded, does not hold here:
    the first pass keeps the period of the
    list marker "1. " and removes the blank after it, the second pass
    widens that period. *)
Lemma C3_counterexample :
  normalize_punctuation (py "1. a") = py "1.a" /\
  normalize_punctuation (normalize_punctuation (py "1. a")) = py "1。a" /\
  normalize_punctuation (normalize_punctuation (py "1. a"))
    <> normalize_punctuation (py "1. a").
Proof. repeat split; vm_compute; try reflexivity. discriminate. Qed.

End Punctuation.
(** ** The similarity metric *)

Section Similarity.

Variables a b : list Z.

Lemma scan_row_ok alo ahi blo bhi i j2len js : forall newj2len best,
  alo <= i < ahi ->
  row_ok alo blo bhi (i - 1) j2len ->
  row_ok alo blo bhi i newj2len ->
  in_window (alo, ahi, blo, bhi) best ->
  row_ok alo blo bhi i (fst (Difflib.scan_row blo bhi i j2len js newj2len best)) /\
  in_window (alo, ahi, blo, bhi)
            (snd (Difflib.scan_row blo bhi i j2len js newj2len best)).
Proof.
  induction js as [|j js IH]; intros newj2len best Hi Hprev Hnew Hbest;
    cbn [Difflib.scan_row]; [by split|].
  destruct (Z.ltb_spec j blo); [by apply IH|].
  destruct (Z.leb_spec bhi j); [by split|].
  destruct best as [[besti bestj] bestsize].
  set (k := default 0 (j2len !! (j - 1)) + 1).
  assert (Hk : 1 <= k /\ k <= j - blo + 1 /\ k <= i - alo + 1).
  { unfold k. destruct (j2len !! (j - 1)) as [v|] eqn:E; simpl.
    - destruct (Hprev _ _ E) as (? & ? & ? & ?). lia.
    - lia. }
  apply IH; try done.
  - intros j' v. rewrite lookup_insert. case_decide as Hj.
    + subst j'. intros [= <-]. lia.
    + apply Hnew.
  - destruct (Z.ltb_spec bestsize k); [|exact Hbest].
    unfold in_window. lia.
Qed.

Lemma row_ok_empty alo blo bhi i : row_ok alo blo bhi i ∅.
Proof. intros j v. by rewrite lookup_empty. Qed.

Lemma scan_rows_ok alo ahi blo bhi (n : nat) : forall i j2len best,
  alo <= i -> i + Z.of_nat n <= ahi ->
  row_ok alo blo bhi (i - 1) j2len ->
  in_window (alo, ahi, blo, bhi) best ->
  in_window (alo, ahi, blo, bhi)
    (Difflib.scan_rows a b blo bhi (seqZ i (Z.of_nat n)) j2len best).
Proof.
  induction n as [|n IH]; intros i j2len best Hlo Hhi Hrow Hbest.
  { exact Hbest. }
  rewrite seqZ_cons by lia. cbn [Difflib.scan_rows].
  destruct (Difflib.scan_row blo bhi i j2len
              (Difflib.b2j_get b (Difflib.item a i)) ∅ best)
    as [newj2len best'] eqn:E.
  pose proof (scan_row_ok alo ahi blo bhi i j2len
                (Difflib.b2j_get b (Difflib.item a i)) ∅ best
                ltac:(lia) Hrow (row_ok_empty _ _ _ _) Hbest) as Hok.
  rewrite E in Hok. cbn [fst snd] in Hok. destruct Hok as [Hrow' Hbest'].
  replace (Z.pred (Z.of_nat (S n))) with (Z.of_nat n) by lia.
  apply IH; try done; try lia.
  by replace (Z.succ i - 1) with i by lia.
Qed.

Lemma extend_left_ok fuel junk alo ahi blo bhi : forall best,
  in_window (alo, ahi, blo, bhi) best ->
  in_window (alo, ahi, blo, bhi) (Difflib.extend_left a b fuel junk alo blo best).
Proof.
  induction fuel as [|fuel IH]; intros [[besti bestj] bestsize] Hbest;
    cbn [Difflib.extend_left]; [done|].
  destruct (Z.ltb_spec alo besti); cbn [andb]; [|done].
  destruct (Z.ltb_spec blo bestj); cbn [andb]; [|done].
  destruct (_ && _); [|done].
  apply IH. unfold in_window in *. lia.
Qed.

Lemma extend_right_ok fuel junk alo ahi blo bhi : forall best,
  in_window (alo, ahi, blo, bhi) best ->
  in_window (alo, ahi, blo, bhi) (Difflib.extend_right a b fuel junk ahi bhi best).
Proof.
  induction fuel as [|fuel IH]; intros [[besti bestj] bestsize] Hbest;
    cbn [Difflib.extend_right]; [done|].
  destruct (Z.ltb_spec (besti + bestsize) ahi); cbn [andb]; [|done].
  destruct (Z.ltb_spec (bestj + bestsize) bhi); cbn [andb]; [|done].
  destruct (_ && _); [|done].
  apply IH. unfold in_window in *. lia.
Qed.

(** The block returned by [find_longest_match] lies in its window. *)
Lemma find_longest_match_window alo ahi blo bhi :
  window_ok (alo, ahi, blo, bhi) ->
  in_window (alo, ahi, blo, bhi) (Difflib.find_longest_match a b alo ahi blo bhi).
Proof.
  intros [Ha Hb]. unfold Difflib.find_longest_match.
  apply extend_right_ok, extend_left_ok, extend_right_ok, extend_left_ok.
  replace (ahi - alo) with (Z.of_nat (Z.to_nat (ahi - alo))) by lia.
  apply scan_rows_ok; try lia.
  - apply row_ok_empty.
  - unfold in_window. lia.
Qed.

Lemma total_size_app l1 l2 : total_size (l1 ++ l2) = total_size l1 + total_size l2.
Proof.
  unfold total_size. induction l1 as [|x l1 IH]; cbn [app map foldr]; lia.
Qed.

Lemma total_size_perm l1 l2 : l1 ≡ₚ l2 -> total_size l1 = total_size l2.
Proof.
  unfold total_size. induction 1; cbn [map foldr]; lia.
Qed.

(** The queue loop: the sizes of the blocks found so far and the widths
    of the windows still queued never exceed the width of the first
    window, in [a] and in [b]. *)
Lemma blocks_loop_bound fuel : forall queue blocks A B,
  Forall window_ok queue ->
  Forall (fun blk => 0 <= snd blk) blocks ->
  total_size blocks + foldr Z.add 0 (map width_a queue) <= A ->
  total_size blocks + foldr Z.add 0 (map width_b queue) <= B ->
  let result := Difflib.blocks_loop a b fuel queue blocks in
  Forall (fun blk => 0 <= snd blk) result /\
  total_size result <= A /\ total_size result <= B.
Proof.
  induction fuel as [|fuel IH]; intros queue blocks A B Hq Hpos HA HB.
  { cbn [Difflib.blocks_loop]. assert (Hwa : 0 <= foldr Z.add 0 (map width_a queue)).
    { clear -Hq. induction Hq as [|[[[alo ahi] blo] bhi] q [? ?] _ IH];
        cbn [map foldr width_a]; lia. }
    assert (Hwb : 0 <= foldr Z.add 0 (map width_b queue)).
    { clear -Hq. induction Hq as [|[[[alo ahi] blo] bhi] q [? ?] _ IH];
        cbn [map foldr width_b]; lia. }
    split; [done|lia]. }
  destruct queue as [|[[[alo ahi] blo] bhi] queue].
  { cbn [Difflib.blocks_loop]. cbn [map foldr] in HA, HB. split; [done|lia]. }
  cbn [Difflib.blocks_loop].
  inversion Hq as [|? ? Hwin Hq']; subst.
  pose proof (find_longest_match_window alo ahi blo bhi Hwin) as Hblk.
  destruct (Difflib.find_longest_match a b alo ahi blo bhi) as [[i j] k].
  cbn [map foldr width_a width_b] in HA, HB.
  destruct Hwin as [Hwa Hwb]. destruct Hblk as (Hi & Hik & Hj & Hjk & Hk).
  destruct (Z.eqb_spec k 0) as [->|Hk0].
  { apply IH; try done; lia. }
  apply IH.
  - repeat case_match; repeat constructor; try done; cbn; lia.
  - apply Forall_app. split; [done|]. repeat constructor. exact Hk.
  - rewrite total_size_app. unfold total_size at 2. cbn [map foldr snd].
    repeat case_match; cbn [map foldr width_a]; lia.
  - rewrite total_size_app. unfold total_size at 2. cbn [map foldr snd].
    repeat case_match; cbn [map foldr width_b]; lia.
Qed.

Lemma insert_sorted_perm {A} (leb : A -> A -> bool) x l :
  Difflib.insert_sorted leb x l ≡ₚ x :: l.
Proof.
  induction l as [|y l IH]; cbn [Difflib.insert_sorted]; [done|].
  destruct (leb x y); [done|]. rewrite IH. apply Permutation_swap.
Qed.

Lemma sort_by_perm {A} (leb : A -> A -> bool) l : Difflib.sort_by leb l ≡ₚ l.
Proof.
  unfold Difflib.sort_by. induction l as [|x l IH]; cbn [foldr]; [done|].
  by rewrite insert_sorted_perm, IH.
Qed.

Lemma collapse_size blocks : forall cur non_adjacent,
  total_size (Difflib.collapse blocks cur non_adjacent)
  = total_size non_adjacent + snd cur + total_size blocks.
Proof.
  induction blocks as [|[[i2 j2] k2] blocks IH];
    intros [[i1 j1] k1] non_adjacent; cbn [Difflib.collapse snd].
  - destruct (Z.eqb_spec k1 0) as [->|_]; rewrite ?total_size_app;
      unfold total_size; cbn [map foldr snd]; lia.
  - destruct (_ && _); rewrite IH; cbn [snd].
    + unfold total_size. cbn [map foldr snd]. lia.
    + destruct (Z.eqb_spec k1 0) as [->|_]; rewrite ?total_size_app;
        unfold total_size; cbn [map foldr snd]; lia.
Qed.

(** The number of matches is non-negative and at most the length of each
    sequence. *)
Lemma matches_bound :
  let matches := total_size (Difflib.get_matching_blocks a b) in
  0 <= matches /\ matches <= Difflib.len a /\ matches <= Difflib.len b.
Proof.
  unfold Difflib.get_matching_blocks. cbv zeta.
  rewrite total_size_app, collapse_size.
  rewrite (total_size_perm _ _ (sort_by_perm _ _)).
  pose proof (blocks_loop_bound (S (2 * length a))
                [(0, Difflib.len a, 0, Difflib.len b)] []
                (Difflib.len a) (Difflib.len b)) as H.
  destruct H as (Hpos & HA & HB).
  - repeat constructor; unfold Difflib.len; lia.
  - constructor.
  - cbn. lia.
  - cbn. lia.
  - assert (Hnn : 0 <= total_size
        (Difflib.blocks_loop a b (S (2 * length a))
           [(0, Difflib.len a, 0, Difflib.len b)] [])).
    { revert Hpos. generalize (Difflib.blocks_loop a b (S (2 * length a))
           [(0, Difflib.len a, 0, Difflib.len b)] []).
      intros l Hl. unfold total_size.
      induction Hl; cbn [map foldr]; lia. }
    unfold total_size at 1 3 4 6 7 9. cbn [map foldr snd]. lia.
Qed.

Lemma ratio_range : (0 <= Difflib.ratio a b <= 1)%Q.
Proof.
  unfold Difflib.ratio, Difflib._calculate_ratio. cbv zeta.
  fold (total_size (Difflib.get_matching_blocks a b)).
  destruct matches_bound as (H0 & Ha & Hb).
  destruct (Z.eqb_spec (Difflib.len a + Difflib.len b) 0) as [_|Hne].
  { split; unfold Qle; cbn; lia. }
  assert (Hpos : 0 < Difflib.len a + Difflib.len b)
    by (unfold Difflib.len in *; lia).
  split; unfold Qle; cbn [Qnum Qden]; rewrite ?Z2Pos.id by lia; lia.
Qed.

End Similarity.

Lemma calculate_similarity_range text1 text2 :
  (0 <= calculate_similarity text1 text2 <= 1)%Q.
Proof.
  unfold calculate_similarity.
  destruct text1; [split; discriminate|].
  destruct text2; [split; discriminate|].
  apply ratio_range.
Qed.

Lemma calculate_similarity_empty_l text2 : calculate_similarity [] text2 = 0%Q.
Proof. reflexivity. Qed.

Lemma calculate_similarity_empty_r text1 : calculate_similarity text1 [] = 0%Q.
Proof. by destruct text1. Qed.

(** C7 (as the code has it). [calculate_similarity] lies in [0,1] and is
    0 when either text is empty, so it is symmetric as soon as one of the
    two texts is empty. *)
Theorem C7_similarity_range_and_empty :
  forall text1 text2,
    (0 <= calculate_similarity text1 text2 <= 1)%Q /\
    calculate_similarity [] text2 = 0%Q /\
    calculate_similarity text1 [] = 0%Q /\
    calculate_similarity [] text2 = calculate_similarity text2 [].
Proof.
  intros text1 text2. split; [apply calculate_similarity_range|].
  split; [reflexivity|]. split; [apply calculate_similarity_empty_r|].
  by rewrite calculate_similarity_empty_r.
Qed.

(** The specification, as worded, does not hold here:
    the ratio depends on the order of the two
    texts. *)
Lemma C7_counterexample :
  (calculate_similarity (py "tide") (py "diet") == 1 # 4)%Q /\
  (calculate_similarity (py "diet") (py "tide") == 1 # 2)%Q /\
  ~ (calculate_similarity (py "tide") (py "diet")
     == calculate_similarity (py "diet") (py "tide"))%Q.
Proof.
  assert (H1 : calculate_similarity (py "tide") (py "diet") = (2 # 8)%Q)
    by (vm_compute; reflexivity).
  assert (H2 : calculate_similarity (py "diet") (py "tide") = (4 # 8)%Q)
    by (vm_compute; reflexivity).
  rewrite H1, H2. repeat split; try reflexivity. intros H. discriminate H.
Qed.
(** ** ArticleAligner: the manual phase *)

Section ManualPhase.

Lemma dict_mem_get {V} (d : dict Z V) k :
  dict_mem d k = true <-> exists v, dict_get d k = Some v.
Proof.
  unfold dict_mem. destruct (dict_get d k); split; eauto; try done.
  by intros [? ?].
Qed.

Lemma dict_get_In {V} (d : dict Z V) k v : dict_get d k = Some v -> In (k, v) d.
Proof.
  induction d as [|[k' v'] d IH]; cbn [dict_get]; [done|].
  destruct (Z.eqb_spec k' k) as [->|_].
  - intros [= ->]. by left.
  - intros H. right. by apply IH.
Qed.

Lemma dict_get_keys {V} (d : dict Z V) k :
  In k (keys d) <-> exists v, dict_get d k = Some v.
Proof.
  unfold keys. induction d as [|[k' v'] d IH]; cbn [dict_get map In fst].
  - split; [done|]. by intros [? ?].
  - destruct (Z.eqb_spec k' k) as [->|Hne].
    + split; eauto.
    + rewrite <- IH. tauto.
Qed.

(** One manual pair: it is recorded, and both numbers are consumed,
    exactly when both articles exist. *)
Lemma manual_step_spec (articles1 articles2 : dict Z Article) st m :
  (applicable articles1 articles2 m = true ->
     manual_step articles1 articles2 st m =
       {| matches := matches st ++ [manual_entry articles1 articles2 m];
          used_articles1 := used_articles1 st ∪ {[old_number m]};
          used_articles2 := used_articles2 st ∪ {[new_number m]};
          manual_matches_processed := manual_matches_processed st + 1 |}) /\
  (applicable articles1 articles2 m = false ->
     manual_step articles1 articles2 st m = st).
Proof.
  unfold applicable, manual_step, manual_entry, content_of, dict_mem.
  destruct (dict_get articles1 (old_number m)) as [a1|];
    destruct (dict_get articles2 (new_number m)) as [a2|]; cbn [andb];
    split; intros H; try discriminate H; reflexivity.
Qed.

(** The state after the manual phase, in terms of the applicable pairs. *)
Lemma manual_fold (articles1 articles2 : dict Z Article) ms : forall st,
  let st' := fold_left (manual_step articles1 articles2) ms st in
  let app := List.filter (applicable articles1 articles2) ms in
  matches st' = matches st ++ map (manual_entry articles1 articles2) app /\
  used_articles1 st' = used_articles1 st ∪ list_to_set (map old_number app) /\
  used_articles2 st' = used_articles2 st ∪ list_to_set (map new_number app).
Proof.
  induction ms as [|m ms IH]; intros st; cbn [fold_left List.filter].
  { cbn. rewrite app_nil_r, !union_empty_r_L. done. }
  destruct (manual_step_spec articles1 articles2 st m) as [Hyes Hno].
  destruct (applicable articles1 articles2 m) eqn:E.
  - specialize (IH (manual_step articles1 articles2 st m)).
    cbv zeta in IH. destruct IH as (IHm & IH1 & IH2).
    rewrite Hyes in IHm, IH1, IH2 by done. rewrite Hyes by done.
    cbn [matches used_articles1 used_articles2] in IHm, IH1, IH2.
    cbn [map list_to_set]. rewrite IHm, IH1, IH2. rewrite <- app_assoc.
    by rewrite !(assoc_L (∪)).
  - rewrite Hno by done. apply IH.
Qed.

Lemma manual_phase_spec (articles1 articles2 : dict Z Article) self :
  let st := manual_phase self articles1 articles2 in
  let app := List.filter (applicable articles1 articles2) (manual_matches self) in
  matches st = map (manual_entry articles1 articles2) app /\
  used_articles1 st = list_to_set (map old_number app) /\
  used_articles2 st = list_to_set (map new_number app).
Proof.
  unfold manual_phase. cbv zeta.
  destruct (manual_fold articles1 articles2 (manual_matches self)
    {| matches := []; used_articles1 := ∅; used_articles2 := ∅;
       manual_matches_processed := 0 |}) as (Hm & H1 & H2).
  cbn [matches used_articles1 used_articles2] in Hm, H1, H2.
  rewrite Hm, H1, H2, !union_empty_l_L. done.
Qed.

End ManualPhase.

(** C2 (as the code has it). In the manual phase a manual entry with the
    pair's content similarity is recorded, and both numbers are consumed,
    exactly when both referenced article numbers exist in their documents,
    whether or not an earlier pair consumed them; a pair that references a
    missing article leaves the entries and the consumed sets unchanged. *)
Theorem C2_manual_pair_recorded_iff_both_exist :
  forall articles1 articles2 st m,
    (applicable articles1 articles2 m = true ->
       manual_step articles1 articles2 st m =
         {| matches := matches st ++ [manual_entry articles1 articles2 m];
            used_articles1 := used_articles1 st ∪ {[old_number m]};
            used_articles2 := used_articles2 st ∪ {[new_number m]};
            manual_matches_processed := manual_matches_processed st + 1 |}) /\
    (applicable articles1 articles2 m = false ->
       manual_step articles1 articles2 st m = st).
Proof. intros. apply manual_step_spec. Qed.

Lemma C2_witness :
  manual_step old_doc new_doc no_state {| old_number := 2; new_number := 3 |}
  = {| matches := [manual_entry old_doc new_doc
                     {| old_number := 2; new_number := 3 |}];
       used_articles1 := ∅ ∪ {[2]}; used_articles2 := ∅ ∪ {[3]};
       manual_matches_processed := 1 |} /\
  manual_step old_doc new_doc no_state {| old_number := 2; new_number := 7 |}
  = no_state.
Proof.
  split.
  - apply (proj1 (C2_manual_pair_recorded_iff_both_exist old_doc new_doc
             no_state {| old_number := 2; new_number := 3 |})).
    vm_compute. reflexivity.
  - apply (proj2 (C2_manual_pair_recorded_iff_both_exist old_doc new_doc
             no_state {| old_number := 2; new_number := 7 |})).
    vm_compute. reflexivity.
Defined.

(** The specification, as worded, does not hold here:
    after the pair (1, 1) the old number 1 is
    consumed, and the later pair (1, 3) is recorded all the same. *)
Lemma C2_counterexample :
  let st1 := manual_step old_doc new_doc no_state
               {| old_number := 1; new_number := 1 |} in
  let st2 := manual_step old_doc new_doc st1
               {| old_number := 1; new_number := 3 |} in
  1 ∈ used_articles1 st1 /\
  map (fun e => (article1_num e, article2_num e, match_type e)) (matches st2)
  = [(1, 1, manual); (1, 3, manual)].
Proof.
  cbv zeta. split; [|vm_compute; reflexivity].
  apply (bool_decide_eq_true_1 _). vm_compute. reflexivity.
Qed.
(** ** Sorting *)

Section Sorting.

Context {A : Type} (key : A -> Z).

Lemma insert_sorted_elem (leb : A -> A -> bool) x y l :
  In y (Difflib.insert_sorted leb x l) <-> y = x \/ In y l.
Proof.
  induction l as [|z l IH]; cbn [Difflib.insert_sorted In]; [intuition congruence|].
  destruct (leb x z); cbn [In]; [intuition congruence|]. rewrite IH. tauto.
Qed.

Lemma insert_sorted_sorted x l :
  StronglySorted (fun x y => key x <= key y) l ->
  StronglySorted (fun x y => key x <= key y)
                 (Difflib.insert_sorted (fun x y => key x <=? key y) x l).
Proof.
  induction 1 as [|z l Hl IH Hz]; cbn [Difflib.insert_sorted].
  { repeat constructor. }
  destruct (Z.leb_spec (key x) (key z)) as [Hxz|Hxz].
  - constructor; [by constructor|]. constructor; [exact Hxz|].
    eapply Forall_impl; [exact Hz|]. cbn beta. intros; lia.
  - constructor; [exact IH|]. apply Forall_forall. intros y Hy.
    apply list_elem_of_In, insert_sorted_elem in Hy as [->|Hy].
    + lia.
    + rewrite Forall_forall in Hz. by apply Hz, list_elem_of_In.
Qed.

Lemma sort_by_sorted l :
  StronglySorted (fun x y => key x <= key y)
                 (Difflib.sort_by (fun x y => key x <=? key y) l).
Proof.
  unfold Difflib.sort_by. induction l as [|x l IH]; cbn [foldr].
  - constructor.
  - by apply insert_sorted_sorted.
Qed.

End Sorting.

Lemma sort_key_sorted {A} (key : A -> Z) l :
  StronglySorted (fun x y => key x <= key y) (sort_key key l).
Proof. apply (sort_by_sorted key). Qed.

Lemma sort_key_perm {A} (key : A -> Z) l : sort_key key l ≡ₚ l.
Proof. apply sort_by_perm. Qed.

Lemma sorted_perm l : sorted l ≡ₚ l.
Proof. apply sort_by_perm. Qed.

Lemma sorted_le l : StronglySorted Z.le (sorted l).
Proof. apply (sort_by_sorted (fun x : Z => x)). Qed.

(** Sorting pairwise distinct numbers gives a strictly ascending list. *)
Lemma sorted_lt l : NoDup l -> StronglySorted Z.lt (sorted l).
Proof.
  intros Hl. assert (Hnd : NoDup (sorted l)) by (by rewrite sorted_perm).
  pose proof (sorted_le l) as Hs. revert Hnd Hs. generalize (sorted l).
  induction 2 as [|x l' Hl' IH Hx]; constructor.
  - apply IH. by inversion Hnd.
  - apply NoDup_cons in Hnd as [Hnx _]. apply Forall_forall. intros y Hy.
    rewrite Forall_forall in Hx. specialize (Hx y Hy).
    assert (x <> y) by (intros ->; done). lia.
Qed.

(** ** ArticleAligner: the automatic phase *)

Section AutoPhase.

Lemma Qgtb_true x y : Qgtb x y = true <-> (y < x)%Q.
Proof.
  unfold Qgtb. rewrite negb_true_iff. split.
  - intros H. apply Qnot_le_lt. intros Hle. apply Qle_bool_iff in Hle. congruence.
  - intros H. destruct (Qle_bool x y) eqn:E; [|done].
    apply Qle_bool_iff in E. exfalso. by apply (Qlt_not_le _ _ H).
Qed.

Lemma Qgtb_false x y : Qgtb x y = false <-> (x <= y)%Q.
Proof.
  unfold Qgtb. rewrite negb_false_iff. apply Qle_bool_iff.
Qed.

Lemma Qgeb_true x y : Qgeb x y = true <-> (y <= x)%Q.
Proof. apply Qle_bool_iff. Qed.

Lemma Qgeb_false x y : Qgeb x y = false <-> (x < y)%Q.
Proof.
  unfold Qgeb. split.
  - intros H. apply Qnot_le_lt. intros Hle. apply Qle_bool_iff in Hle. congruence.
  - intros H. destruct (Qle_bool y x) eqn:E; [|done].
    apply Qle_bool_iff in E. exfalso. by apply (Qlt_not_le _ _ H).
Qed.

(** The loop of [find_best_match] from the running best [(bm, bs)]: either
    no remaining candidate beats [bs], or the result is the first
    candidate of maximal similarity, and that similarity is above [bs]. *)
Lemma best_loop_spec target used items : forall bm bs,
  let '(m, s) := best_loop target items used bm bs in
  (Forall (fun kv => (calculate_similarity target (content (snd kv)) <= bs)%Q)
          (candidates items used) /\ m = bm /\ s = bs) \/
  ((bs < s)%Q /\ best_of target (candidates items used) m s).
Proof.
  induction items as [|[num info] items IH]; intros bm bs;
    cbn [best_loop candidates List.filter fst].
  { left. by repeat split. }
  fold (candidates items used).
  destruct (bool_decide (num ∈ used)); cbn [negb]; [apply IH|].
  set (sim := calculate_similarity target (content info)).
  destruct (Qgtb sim bs) eqn:E.
  - apply Qgtb_true in E. specialize (IH num sim).
    destruct (best_loop target items used num sim) as [m s].
    right. destruct IH as [(Hall & -> & ->)|(Hlt & pre & a2 & post & Hc & Hs & Hpre & Hpost)].
    + split; [exact E|]. exists [], info, (candidates items used).
      split; [reflexivity|]. split; [reflexivity|].
      split; [constructor|exact Hall].
    + split; [by eapply Qlt_trans|].
      exists ((num, info) :: pre), a2, post. rewrite Hc.
      repeat split; try done. constructor; [exact Hlt|exact Hpre].
  - apply Qgtb_false in E. specialize (IH bm bs).
    destruct (best_loop target items used bm bs) as [m s].
    destruct IH as [(Hall & -> & ->)|(Hlt & pre & a2 & post & Hc & Hs & Hpre & Hpost)].
    + left. repeat split; try done. by constructor.
    + right. split; [exact Hlt|].
      exists ((num, info) :: pre), a2, post. rewrite Hc.
      repeat split; try done. constructor; [|exact Hpre].
      cbn [snd]. by eapply Qle_lt_trans.
Qed.

Lemma find_best_match_spec target_article candidate_articles used :
  let '(m, s) := find_best_match target_article candidate_articles used in
  (Forall (fun kv => (calculate_similarity (content target_article)
                        (content (snd kv)) <= 0)%Q)
          (candidates candidate_articles used) /\ m = -1 /\ s = 0%Q) \/
  ((0 < s)%Q /\
   best_of (content target_article) (candidates candidate_articles used) m s).
Proof. apply best_loop_spec. Qed.

Lemma candidates_In articles2 used m a2 :
  In (m, a2) (candidates articles2 used) <-> In (m, a2) articles2 /\ m ∉ used.
Proof.
  unfold candidates. rewrite filter_In. cbn [fst].
  rewrite negb_true_iff, bool_decide_eq_false. tauto.
Qed.

Lemma best_of_In target cands m s :
  best_of target cands m s ->
  exists a2, In (m, a2) cands /\ s = calculate_similarity target (content a2) /\
    Forall (fun kv => (calculate_similarity target (content (snd kv)) <= s)%Q) cands.
Proof.
  intros (pre & a2 & post & -> & -> & Hpre & Hpost). exists a2.
  split; [apply in_elt|]. split; [done|].
  apply Forall_app. split.
  - eapply Forall_impl; [exact Hpre|]. intros; by apply Qlt_le_weak.
  - constructor; [apply Qle_refl|exact Hpost].
Qed.

(** Candidates of a parsed document are never numbered [-1]. *)
Lemma best_of_number articles2 used target m s :
  parsed_numbers articles2 ->
  best_of target (candidates articles2 used) m s -> m <> -1.
Proof.
  intros Hp Hb. apply best_of_In in Hb as (a2 & Hin & _).
  apply candidates_In in Hin as [Hin _].
  unfold parsed_numbers in Hp. rewrite Forall_forall in Hp.
  assert (0 <= m); [|lia]. apply Hp, list_elem_of_In.
  unfold keys. apply in_map_iff. by exists (m, a2).
Qed.

(** One iteration of the automatic loop. *)
Lemma auto_step_spec self articles1 articles2 st n a1 :
  parsed_numbers articles2 ->
  dict_get articles1 n = Some a1 ->
  (exists m s,
     best_of (content a1) (candidates articles2 (used_articles2 st)) m s /\
     (0 < s)%Q /\ (similarity_threshold self <= s)%Q /\
     auto_step self articles1 articles2 (Some st) n =
       Some {| matches := matches st ++
                 [{| article1_num := n; article2_num := m; similarity := s;
                     match_type := auto |}];
               used_articles1 := used_articles1 st;
               used_articles2 := used_articles2 st ∪ {[m]};
               manual_matches_processed := manual_matches_processed st |}) \/
  (Forall (fun kv =>
             let s := calculate_similarity (content a1) (content (snd kv)) in
             ~ ((0 < s)%Q /\ (similarity_threshold self <= s)%Q))
          (candidates articles2 (used_articles2 st)) /\
   auto_step self articles1 articles2 (Some st) n =
     Some {| matches := matches st ++
               [{| article1_num := n; article2_num := -1; similarity := 0%Q;
                   match_type := none |}];
             used_articles1 := used_articles1 st;
             used_articles2 := used_articles2 st;
             manual_matches_processed := manual_matches_processed st |}).
Proof.
  intros Hp Hget. unfold auto_step. rewrite Hget.
  pose proof (find_best_match_spec a1 articles2 (used_articles2 st)) as Hbest.
  destruct (find_best_match a1 articles2 (used_articles2 st)) as [m s].
  destruct Hbest as [(Hall & -> & ->)|(Hpos & Hbest)].
  - right. cbn [Z.eqb negb andb]. split; [|reflexivity].
    eapply Forall_impl; [exact Hall|]. intros kv Hle [Hlt _].
    by apply (Qlt_not_le _ _ Hlt).
  - pose proof (best_of_number _ _ _ _ _ Hp Hbest) as Hm.
    destruct (Z.eqb_spec m (-1)) as [?|_]; [done|]. cbn [negb andb].
    destruct (Qgeb s (similarity_threshold self)) eqn:E.
    + left. apply Qgeb_true in E. exists m, s. by repeat split.
    + right. apply Qgeb_false in E. split; [|reflexivity].
      apply best_of_In in Hbest as (_ & _ & _ & Hall).
      eapply Forall_impl; [exact Hall|]. intros kv Hle [_ Hthr].
      apply (Qlt_not_le _ _ E). by eapply Qle_trans.
Qed.

(** The automatic loop over a list of old numbers that all exist. *)
Lemma auto_fold_spec self articles1 articles2 order : forall st,
  parsed_numbers articles2 ->
  Forall (fun n => In n (keys articles1)) order ->
  exists st' entries,
    fold_left (auto_step self articles1 articles2) order (Some st) = Some st' /\
    matches st' = matches st ++ entries /\
    used_articles1 st' = used_articles1 st /\
    auto_spec (similarity_threshold self) articles1 articles2 order
              (used_articles2 st) entries (used_articles2 st').
Proof.
  induction order as [|n order IH]; intros st Hp Hin; cbn [fold_left].
  { exists st, []. rewrite app_nil_r. repeat split. constructor. }
  inversion Hin as [|? ? Hn Hin']; subst.
  apply dict_get_keys in Hn as [a1 Hget].
  destruct (auto_step_spec self articles1 articles2 st n a1 Hp Hget)
    as [(m & s & Hbest & Hpos & Hthr & Hstep)|(Hall & Hstep)];
    rewrite Hstep;
    match goal with |- context [fold_left _ _ (Some ?st1)] =>
      destruct (IH st1 Hp Hin') as (st' & entries & Hfold & Hm & H1 & Hspec)
    end;
    cbn [matches used_articles1 used_articles2] in Hm, H1, Hspec.
  - exists st', ({| article1_num := n; article2_num := m; similarity := s;
                    match_type := auto |} :: entries).
    rewrite Hm, <- app_assoc. repeat split; try done.
    by eapply auto_match.
  - exists st', ({| article1_num := n; article2_num := -1; similarity := 0%Q;
                    match_type := none |} :: entries).
    rewrite Hm, <- app_assoc. repeat split; try done.
    by eapply auto_unmatched.
Qed.

End AutoPhase.

(** ** ArticleAligner: the whole matching *)

Section Matching.

Lemma remaining_candidates d used : remaining d used = candidates d used.
Proof. reflexivity. Qed.

Lemma remaining_In d used n a :
  In (n, a) (remaining d used) <-> In (n, a) d /\ n ∉ used.
Proof. apply candidates_In. Qed.

Lemma remaining_keys d used n :
  In n (keys (remaining d used)) -> In n (keys d) /\ n ∉ used.
Proof.
  unfold keys. intros Hn. apply in_map_iff in Hn as ([k a] & <- & Hin).
  apply remaining_In in Hin as [Hin Hu]. split; [|exact Hu].
  apply in_map_iff. by exists (k, a).
Qed.

Lemma remaining_wf d used : dict_wf d -> dict_wf (remaining d used).
Proof.
  unfold dict_wf, keys, remaining. induction d as [|[k a] d IH]; cbn [map List.filter fst].
  { done. }
  intros Hnd. apply NoDup_cons in Hnd as [Hk Hnd].
  destruct (bool_decide (k ∈ used)); cbn [negb map fst]; [by apply IH|].
  apply NoDup_cons. split; [|by apply IH].
  intros Hin. apply Hk. apply list_elem_of_In. apply list_elem_of_In in Hin.
  apply in_map_iff in Hin as ([k' a'] & Hk' & Hin). cbn [fst] in Hk'. subst k'.
  apply filter_In in Hin as [Hin _]. apply in_map_iff. by exists (k, a').
Qed.

Lemma remaining_parsed d used : parsed_numbers d -> parsed_numbers (remaining d used).
Proof.
  unfold parsed_numbers. rewrite !Forall_forall. intros Hd k Hk.
  apply list_elem_of_In, remaining_keys in Hk as [Hk _].
  by apply Hd, list_elem_of_In.
Qed.

(** The matching never fails, and its entries are the manual entries
    followed by the entries of the automatic phase. *)
Lemma matching_spec self articles1 articles2 :
  parsed_numbers articles2 ->
  let st0 := manual_phase self articles1 articles2 in
  let remaining_articles1 := remaining articles1 (used_articles1 st0) in
  let remaining_articles2 := remaining articles2 (used_articles2 st0) in
  let order := sorted (keys remaining_articles1) in
  exists r entries,
    intelligent_article_matching self articles1 articles2 = Some r /\
    result_matches r = matches st0 ++ entries /\
    auto_spec (similarity_threshold self) remaining_articles1 remaining_articles2
              order (used_articles2 st0) entries (result_used_articles2 r) /\
    result_new r =
      List.filter (fun n => negb (bool_decide (n ∈ result_used_articles2 r)))
                  (sorted (keys articles2)).
Proof.
  intros Hp st0 rem1 rem2 order.
  destruct (auto_fold_spec self rem1 rem2 order st0) as
    (st' & entries & Hfold & Hm & H1 & Hspec).
  { by apply remaining_parsed. }
  { apply Forall_forall. intros n Hn. apply list_elem_of_In in Hn.
    eapply Permutation_in; [apply sorted_perm|exact Hn]. }
  unfold intelligent_article_matching.
  fold st0. fold rem1. fold rem2. fold order. rewrite Hfold.
  eexists _, entries. split; [reflexivity|].
  cbn [result_matches result_used_articles2 result_new]. by repeat split.
Qed.

Lemma auto_spec_olds threshold articles1 articles2 order used entries used' :
  auto_spec threshold articles1 articles2 order used entries used' ->
  map article1_num entries = order.
Proof. induction 1; cbn [map article1_num]; congruence. Qed.

(** The new numbers matched by the automatic phase are pairwise distinct
    and were not consumed before it. *)
Lemma auto_spec_news threshold articles1 articles2 order used entries used' :
  auto_spec threshold articles1 articles2 order used entries used' ->
  NoDup (map article2_num (matched_entries entries)) /\
  Forall (fun x => x ∉ used) (map article2_num (matched_entries entries)).
Proof.
  induction 1 as [used|n order used a1 m s entries used' Hget Hbest Hpos Hthr _ IH
                 |n order used a1 entries used' Hget Hall _ IH];
    cbn [matched_entries List.filter matched match_type map article2_num].
  - split; constructor.
  - fold (matched_entries entries). destruct IH as [IHnd IHused].
    apply best_of_In in Hbest as (a2 & Hin & _).
    apply candidates_In in Hin as [_ Hm].
    split.
    + apply NoDup_cons. split; [|exact IHnd]. intros Hin.
      rewrite Forall_forall in IHused. apply (IHused m Hin).
      apply elem_of_union. right. by apply elem_of_singleton.
    + constructor; [exact Hm|]. eapply Forall_impl; [exact IHused|].
      intros x Hx Hu. apply Hx, elem_of_union. by left.
  - fold (matched_entries entries). exact IH.
Qed.

Lemma matched_manual_entries articles1 articles2 l :
  matched_entries (map (manual_entry articles1 articles2) l)
  = map (manual_entry articles1 articles2) l.
Proof.
  unfold matched_entries. induction l as [|m l IH]; cbn; [done|]. by rewrite IH.
Qed.

Lemma matched_entries_app l1 l2 :
  matched_entries (l1 ++ l2) = matched_entries l1 ++ matched_entries l2.
Proof. apply List.filter_app. Qed.

Lemma matched_entries_olds l x :
  In x (map article1_num (matched_entries l)) -> In x (map article1_num l).
Proof.
  rewrite !in_map_iff. intros (e & <- & He). exists e. split; [done|].
  by apply filter_In in He as [He _].
Qed.

Lemma NoDup_map_filter {A B} (f : A -> B) (p : A -> bool) l :
  NoDup (map f l) -> NoDup (map f (List.filter p l)).
Proof.
  induction l as [|x l IH]; cbn [map List.filter]; [done|].
  intros Hnd. apply NoDup_cons in Hnd as [Hx Hnd].
  destruct (p x); cbn [map]; [|by apply IH].
  apply NoDup_cons. split; [|by apply IH]. intros Hin. apply Hx.
  apply list_elem_of_In. apply list_elem_of_In, in_map_iff in Hin as (y & Hy & Hin).
  apply filter_In in Hin as [Hin _]. apply in_map_iff. by exists y.
Qed.

(** The alignment is a partial bijection exactly when the applicable
    manual pairs repeat no old number and no new number. *)
Lemma partial_bijection_iff self articles1 articles2 :
  dict_wf articles1 -> parsed_numbers articles2 ->
  exists r,
    intelligent_article_matching self articles1 articles2 = Some r /\
    let app := List.filter (applicable articles1 articles2) (manual_matches self) in
    let matched_list := matched_entries (result_matches r) in
    (NoDup (map article1_num matched_list) /\ NoDup (map article2_num matched_list))
    <-> (NoDup (map old_number app) /\ NoDup (map new_number app)).
Proof.
  intros Hwf Hp.
  destruct (matching_spec self articles1 articles2 Hp) as (r & entries & Hr & Hm & Hspec & _).
  exists r. split; [exact Hr|]. cbv zeta.
  destruct (manual_phase_spec articles1 articles2 self) as (Hm0 & H1 & H2).
  rewrite Hm, Hm0, matched_entries_app, matched_manual_entries, !map_app, !map_map.
  cbn [manual_entry article1_num article2_num].
  change (map (fun x => old_number x)) with (map old_number).
  change (map (fun x => new_number x)) with (map new_number).
  set (app := List.filter (applicable articles1 articles2) (manual_matches self)) in *.
  split.
  { intros [Ho Hn]. apply NoDup_app in Ho as (Ho & _ & _).
    apply NoDup_app in Hn as (Hn & _ & _). done. }
  intros [Ho Hn].
  pose proof (auto_spec_olds _ _ _ _ _ _ _ Hspec) as Holds.
  destruct (auto_spec_news _ _ _ _ _ _ _ Hspec) as [Hnd Hused].
  split; apply NoDup_app.
  - split; [exact Ho|]. split.
    + intros x Hx Hx'. apply list_elem_of_In, matched_entries_olds in Hx'.
      rewrite Holds in Hx'.
      apply (Permutation_in _ (sorted_perm _)) in Hx'.
      apply remaining_keys in Hx' as [_ Hx']. apply Hx'.
      rewrite H1. by apply elem_of_list_to_set.
    + apply NoDup_map_filter. rewrite Holds, sorted_perm.
      by apply remaining_wf.
  - split; [exact Hn|]. split; [|exact Hnd].
    intros x Hx Hx'. rewrite Forall_forall in Hused. apply (Hused x Hx').
    rewrite H2. by apply elem_of_list_to_set.
Qed.

End Matching.

(** C1 (as the code has it). For every pair of parsed documents and every
    manual-match list whose applicable pairs (both articles exist) repeat
    no old number and no new number, no old article number and no new
    article number appears in more than one matched entry (manual and auto
    combined) of the result of [intelligent_article_matching]. *)
Theorem C1_partial_bijection :
  forall self articles1 articles2,
    dict_wf articles1 -> parsed_numbers articles2 ->
    let app := List.filter (applicable articles1 articles2) (manual_matches self) in
    NoDup (map old_number app) -> NoDup (map new_number app) ->
    exists r,
      intelligent_article_matching self articles1 articles2 = Some r /\
      NoDup (map article1_num (matched_entries (result_matches r))) /\
      NoDup (map article2_num (matched_entries (result_matches r))).
Proof.
  intros self articles1 articles2 Hwf Hp app Ho Hn.
  destruct (partial_bijection_iff self articles1 articles2 Hwf Hp) as (r & Hr & Hiff).
  exists r. split; [exact Hr|]. by apply Hiff.
Qed.

Lemma C1_witness :
  exists r,
    intelligent_article_matching
      {| similarity_threshold := 8 # 10;
         manual_matches := [{| old_number := 1; new_number := 1 |};
                            {| old_number := 9; new_number := 3 |}] |}
      old_doc new_doc = Some r /\
    NoDup (map article1_num (matched_entries (result_matches r))) /\
    NoDup (map article2_num (matched_entries (result_matches r))).
Proof.
  apply C1_partial_bijection.
  - apply (bool_decide_eq_true_1 (NoDup [1; 2])). vm_compute. reflexivity.
  - unfold parsed_numbers. cbn. repeat (apply Forall_cons_2; [lia|]).
    apply Forall_nil_2.
  - apply (bool_decide_eq_true_1 (NoDup [1])). vm_compute. reflexivity.
  - apply (bool_decide_eq_true_1 (NoDup [1])). vm_compute. reflexivity.
Defined.

(** The specification, as worded, does not hold here:
    with the manual pairs (1, 1) and (1, 3) the
    old number 1 is in two matched entries. *)
Lemma C1_counterexample :
  exists r,
    intelligent_article_matching
      {| similarity_threshold := 8 # 10;
         manual_matches := [{| old_number := 1; new_number := 1 |};
                            {| old_number := 1; new_number := 3 |}] |}
      old_doc new_doc = Some r /\
    map (fun e => (article1_num e, article2_num e, match_type e))
        (matched_entries (result_matches r))
    = [(1, 1, manual); (1, 3, manual)] /\
    ~ NoDup (map article1_num (matched_entries (result_matches r))).
Proof.
  eexists. split; [vm_compute; reflexivity|]. split; [vm_compute; reflexivity|].
  apply (bool_decide_eq_false_1 (NoDup [1; 1])). vm_compute. reflexivity.
Qed.

(** C4 (as the code has it). The automatic phase goes through the
    remaining old articles in ascending numeric order; for each one it
    takes, among the remaining new articles that are not consumed yet, the
    one of maximal content similarity, the first such one in the order of
    the new document's mapping; when that maximum is positive and at least
    the threshold an auto entry is recorded and the selected new article
    is consumed, otherwise the old article is recorded as unmatched with
    new number -1. *)
Theorem C4_automatic_phase :
  forall self articles1 articles2,
    dict_wf articles1 -> parsed_numbers articles2 ->
    let st0 := manual_phase self articles1 articles2 in
    let remaining_articles1 := remaining articles1 (used_articles1 st0) in
    let remaining_articles2 := remaining articles2 (used_articles2 st0) in
    let order := sorted (keys remaining_articles1) in
    StronglySorted Z.lt order /\ order ≡ₚ keys remaining_articles1 /\
    exists r entries,
      intelligent_article_matching self articles1 articles2 = Some r /\
      result_matches r = matches st0 ++ entries /\
      auto_spec (similarity_threshold self) remaining_articles1
                remaining_articles2 order (used_articles2 st0) entries
                (result_used_articles2 r).
Proof.
  intros self articles1 articles2 Hwf Hp st0 rem1 rem2 order.
  split; [apply sorted_lt; by apply remaining_wf|].
  split; [apply sorted_perm|].
  destruct (matching_spec self articles1 articles2 Hp)
    as (r & entries & Hr & Hm & Hspec & _).
  by exists r, entries.
Qed.

Lemma C4_witness :
  exists r entries,
    intelligent_article_matching
      {| similarity_threshold := 8 # 10; manual_matches := [] |}
      old_doc new_doc = Some r /\
    result_matches r = [] ++ entries /\
    map (fun e => (article1_num e, article2_num e, match_type e)) entries
    = [(1, -1, none); (2, 3, auto)].
Proof.
  destruct (C4_automatic_phase
              {| similarity_threshold := 8 # 10; manual_matches := [] |}
              old_doc new_doc) as (_ & _ & r & entries & Hr & Hm & _).
  - apply (bool_decide_eq_true_1 (NoDup [1; 2])). vm_compute. reflexivity.
  - unfold parsed_numbers. cbn. repeat (apply Forall_cons_2; [lia|]).
    apply Forall_nil_2.
  - exists r, entries. split; [exact Hr|]. split; [exact Hm|].
    cbn [manual_phase manual_matches fold_left matches app] in Hm.
    rewrite <- Hm. vm_compute in Hr. injection Hr as <-. reflexivity.
Defined.

(** The specification, as worded, does not hold here:
    with threshold 0, the only candidate has
    similarity 0, which is at least the threshold, and the old article is
    recorded as unmatched. *)
Lemma C4_counterexample :
  (0 <= calculate_similarity (py "甲") (py "乙"))%Q /\
  (calculate_similarity (py "甲") (py "乙") == 0)%Q /\
  intelligent_article_matching
    {| similarity_threshold := 0; manual_matches := [] |}
    [(1, art "甲")] [(1, art "乙")]
  = Some {| result_matches :=
              [{| article1_num := 1; article2_num := -1; similarity := 0;
                  match_type := none |}];
            result_new := [1];
            result_used_articles2 := ∅;
            manual_matches_count := 0 |}.
Proof.
  split; [apply calculate_similarity_range|].
  split; vm_compute; reflexivity.
Qed.

(** A candidate that is not consumed stays eligible: whatever the target,
    the best similarity found is at least its similarity. *)
Lemma find_best_match_eligible target_article articles2 used m a2 :
  In (m, a2) (candidates articles2 used) ->
  (calculate_similarity (content target_article) (content a2)
   <= snd (find_best_match target_article articles2 used))%Q.
Proof.
  intros Hin.
  pose proof (find_best_match_spec target_article articles2 used) as Hbest.
  destruct (find_best_match target_article articles2 used) as [m' s'].
  cbn [snd]. destruct Hbest as [(Hall & _ & ->)|(_ & Hbest)].
  - rewrite Forall_forall in Hall. by apply (Hall (m, a2)), list_elem_of_In.
  - apply best_of_In in Hbest as (_ & _ & _ & Hall).
    rewrite Forall_forall in Hall. by apply (Hall (m, a2)), list_elem_of_In.
Qed.

(** C6. With threshold 0.8, an old article whose best candidate has
    similarity exactly 0.80 is matched to that candidate; one whose best
    candidate has similarity 0.79 is recorded as deleted (new number -1,
    type none), the candidate is not consumed and stays eligible for every
    later old article. *)
Theorem C6_threshold_boundary :
  forall self remaining_articles1 remaining_articles2 st n a1 m s,
    (similarity_threshold self == (8 # 10))%Q ->
    parsed_numbers remaining_articles2 ->
    dict_get remaining_articles1 n = Some a1 ->
    find_best_match a1 remaining_articles2 (used_articles2 st) = (m, s) ->
    ((s == (80 # 100))%Q ->
       auto_step self remaining_articles1 remaining_articles2 (Some st) n =
         Some {| matches := matches st ++
                   [{| article1_num := n; article2_num := m; similarity := s;
                       match_type := auto |}];
                 used_articles1 := used_articles1 st;
                 used_articles2 := used_articles2 st ∪ {[m]};
                 manual_matches_processed := manual_matches_processed st |}) /\
    ((s == (79 # 100))%Q ->
       auto_step self remaining_articles1 remaining_articles2 (Some st) n =
         Some {| matches := matches st ++
                   [{| article1_num := n; article2_num := -1; similarity := 0;
                       match_type := none |}];
                 used_articles1 := used_articles1 st;
                 used_articles2 := used_articles2 st;
                 manual_matches_processed := manual_matches_processed st |} /\
       (m ∉ used_articles2 st) /\
       exists a2,
         In (m, a2) remaining_articles2 /\
         s = calculate_similarity (content a1) (content a2) /\
         forall later_article,
           (calculate_similarity (content later_article) (content a2)
            <= snd (find_best_match later_article remaining_articles2
                      (used_articles2 st)))%Q).
Proof.
  intros self rem1 rem2 st n a1 m s Hthr Hp Hget Hfind.
  pose proof (find_best_match_spec a1 rem2 (used_articles2 st)) as Hbest.
  rewrite Hfind in Hbest. unfold auto_step. rewrite Hget, Hfind.
  split; intros Hs.
  - destruct Hbest as [(_ & _ & ->)|(_ & Hbest)]; [discriminate Hs|].
    pose proof (best_of_number _ _ _ _ _ Hp Hbest) as Hm.
    destruct (Z.eqb_spec m (-1)) as [?|_]; [done|]. cbn [negb andb].
    assert (E : Qgeb s (similarity_threshold self) = true).
    { apply Qgeb_true. rewrite Hthr, Hs. discriminate. }
    by rewrite E.
  - destruct Hbest as [(_ & _ & ->)|(_ & Hbest)]; [discriminate Hs|].
    assert (E : Qgeb s (similarity_threshold self) = false).
    { apply Qgeb_false. rewrite Hthr, Hs. reflexivity. }
    rewrite E, andb_false_r. split; [reflexivity|].
    apply best_of_In in Hbest as (a2 & Hin & Hsim & _).
    pose proof Hin as Hcand. apply candidates_In in Hin as [Hin Hm].
    split; [exact Hm|]. exists a2. split; [exact Hin|]. split; [exact Hsim|].
    intros later_article. by eapply find_best_match_eligible.
Qed.

Lemma C6_witness :
  let self := {| similarity_threshold := 8 # 10; manual_matches := [] |} in
  let olds := [(1, art_of text_a); (2, art_of text_b)] in
  let news := [(1, art_of text_c)] in
  auto_step self olds news (Some no_state) 2 =
    Some {| matches := [{| article1_num := 2; article2_num := 1;
                           similarity := 160 # 200; match_type := auto |}];
            used_articles1 := ∅; used_articles2 := ∅ ∪ {[1]};
            manual_matches_processed := 0 |} /\
  auto_step self olds news (Some no_state) 1 =
    Some {| matches := [{| article1_num := 1; article2_num := -1;
                           similarity := 0; match_type := none |}];
            used_articles1 := ∅; used_articles2 := ∅;
            manual_matches_processed := 0 |}.
Proof.
  cbv zeta. split.
  - apply (proj1 (C6_threshold_boundary
             {| similarity_threshold := 8 # 10; manual_matches := [] |}
             [(1, art_of text_a); (2, art_of text_b)] [(1, art_of text_c)]
             no_state 2 (art_of text_b) 1 (160 # 200)
             ltac:(reflexivity)
             ltac:(unfold parsed_numbers; cbn; apply Forall_cons_2;
                   [lia|apply Forall_nil_2])
             ltac:(reflexivity)
             ltac:(vm_compute; reflexivity))).
    vm_compute. reflexivity.
  - apply (proj2 (C6_threshold_boundary
             {| similarity_threshold := 8 # 10; manual_matches := [] |}
             [(1, art_of text_a); (2, art_of text_b)] [(1, art_of text_c)]
             no_state 1 (art_of text_a) 1 (158 # 200)
             ltac:(reflexivity)
             ltac:(unfold parsed_numbers; cbn; apply Forall_cons_2;
                   [lia|apply Forall_nil_2])
             ltac:(reflexivity)
             ltac:(vm_compute; reflexivity))).
    vm_compute. reflexivity.
Defined.

(** The boundary on whole documents: article 1 (similarity 0.79 with the
    only new article) is deleted, and article 2 (similarity 0.80) is then
    matched with that same new article. *)
Example threshold_boundary_documents :
  option_map
    (fun r => map (fun e => (article1_num e, article2_num e, match_type e))
                  (result_matches r))
    (intelligent_article_matching
       {| similarity_threshold := 8 # 10; manual_matches := [] |}
       [(1, art_of text_a); (2, art_of text_b)] [(1, art_of text_c)])
  = Some [(1, -1, none); (2, 1, auto)].
Proof. vm_compute. reflexivity. Qed.
(** ** ArticleAligner: the classification *)

Section Classification.

Variable depth : nat.
Variables law1 law2 : Law.

Lemma classify_fold_None ms :
  fold_left (classify_step depth law1 law2) ms None = None.
Proof. induction ms; [done|]. exact IHms. Qed.

(** The loop over the entries appends, entry by entry, at most one record
    to one of the three lists; on resolved entries it fails only with the
    diff of an entry. *)
Lemma classify_fold ms : forall r0,
  Forall (entry_resolved law1 law2) ms ->
  forallb (diff_returns depth law1 law2) ms = true ->
  exists r,
    fold_left (classify_step depth law1 law2) ms (Some r0) = Some r /\
    identical r = identical r0 ++ flat_map (identical_records law1 law2) ms /\
    modified r =
      modified r0 ++ flat_map (modified_records depth law1 law2) ms /\
    deleted r = deleted r0 ++ flat_map (deleted_records law1) ms /\
    new r = new r0.
Proof.
  induction ms as [|e ms IH]; intros r0 Hres Hret; cbn [fold_left flat_map].
  { exists r0. by rewrite !app_nil_r. }
  inversion Hres as [|? ? [H1 H2] Hres']; subst.
  cbn [forallb] in Hret. apply andb_prop in Hret as [Hret1 Hret'].
  apply dict_get_keys in H1 as [a1 Hget1].
  unfold diff_returns, diff_call in Hret1. revert Hret1.
  unfold classify_step at 2.
  unfold identical_records at 1, modified_records at 1, deleted_records at 1.
  rewrite Hget1.
  destruct (Z.eqb_spec (article2_num e) (-1)) as [Hdel|Hne].
  - intros _.
    match goal with |- context [fold_left _ _ (Some ?r1)] =>
      destruct (IH r1 Hres' Hret') as (r & Hfold & Hi & Hm & Hd & Hn) end.
    exists r. split; [exact Hfold|].
    cbn [identical modified deleted new] in Hi, Hm, Hd, Hn.
    rewrite Hi, Hm, Hd, Hn, <- !app_assoc. by cbn [app].
  - destruct H2 as [?|H2]; [done|].
    apply dict_get_keys in H2 as [a2 Hget2]. rewrite Hget2.
    unfold generate_unified_html_diff.
    destruct (Qgeb (similarity e) (98 # 100)).
    + intros _.
      match goal with |- context [fold_left _ _ (Some ?r1)] =>
        destruct (IH r1 Hres' Hret') as (r & Hfold & Hi & Hm & Hd & Hn) end.
      exists r. split; [exact Hfold|].
      cbn [identical modified deleted new] in Hi, Hm, Hd, Hn.
      rewrite Hi, Hm, Hd, Hn, <- ?app_assoc. by cbn [app].
    + destruct (Differ.compare depth (content a1) (content a2)) as [lines|];
        [intros _|discriminate].
      match goal with |- context [fold_left _ _ (Some ?r1)] =>
        destruct (IH r1 Hres' Hret') as (r & Hfold & Hi & Hm & Hd & Hn) end.
      exists r. split; [exact Hfold|].
      cbn [identical modified deleted new] in Hi, Hm, Hd, Hn.
      rewrite Hi, Hm, Hd, Hn, <- ?app_assoc. by cbn [app].
Qed.

Lemma classify_fold_fails ms : forall r0,
  forallb (diff_returns depth law1 law2) ms = false ->
  fold_left (classify_step depth law1 law2) ms (Some r0) = None.
Proof.
  induction ms as [|e ms IH]; intros r0 Hret; [discriminate|].
  cbn [forallb] in Hret. cbn [fold_left].
  destruct (diff_returns depth law1 law2 e) eqn:He.
  - cbn [andb] in Hret.
    destruct (classify_step depth law1 law2 (Some r0) e) as [r1|];
      [by apply IH|apply classify_fold_None].
  - clear Hret IH. unfold diff_returns, diff_call in He.
    unfold classify_step, generate_unified_html_diff.
    destruct (article2_num e =? -1); [discriminate|].
    destruct (dict_get (articles law1) (article1_num e)) as [a1|];
      [|discriminate].
    destruct (dict_get (articles law2) (article2_num e)) as [a2|];
      [|discriminate].
    destruct (Qgeb (similarity e) (98 # 100)); [discriminate|].
    destruct (Differ.compare depth (content a1) (content a2));
      [discriminate|apply classify_fold_None].
Qed.

Lemma new_fold ns : forall r0,
  Forall (fun n => In n (keys (articles law2))) ns ->
  exists r,
    fold_left (new_step law2) ns (Some r0) = Some r /\
    identical r = identical r0 /\ modified r = modified r0 /\
    deleted r = deleted r0 /\
    new r = new r0 ++ flat_map (new_records law2) ns.
Proof.
  induction ns as [|n ns IH]; intros r0 Hres; cbn [fold_left flat_map].
  { exists r0. by rewrite !app_nil_r. }
  inversion Hres as [|? ? H2 Hres']; subst.
  apply dict_get_keys in H2 as [a2 Hget2].
  unfold new_step at 2. unfold new_records at 1. rewrite Hget2.
  match goal with |- context [fold_left _ _ (Some ?r1)] =>
    destruct (IH r1 Hres') as (r & Hfold & Hi & Hm & Hd & Hn) end.
  exists r. split; [exact Hfold|].
  cbn [identical modified deleted new] in Hi, Hm, Hd, Hn.
  rewrite Hi, Hm, Hd, Hn, <- ?app_assoc. by cbn [app].
Qed.

Lemma new_fold_None ns : fold_left (new_step law2) ns None = None.
Proof. induction ns; [done|]. exact IHns. Qed.

End Classification.

(** The entries of a matching refer to existing articles; a matched entry
    has a new number other than [-1]. *)
Lemma auto_spec_resolved threshold articles1 articles2 a1 a2 order used entries used' :
  (forall n, In n (keys articles1) -> In n (keys a1)) ->
  (forall n, In n (keys articles2) -> In n (keys a2)) ->
  parsed_numbers articles2 ->
  auto_spec threshold articles1 articles2 order used entries used' ->
  Forall (fun e =>
            entry_resolved {| chapters := []; sections := []; articles := a1 |}
                           {| chapters := []; sections := []; articles := a2 |} e /\
            (matched e = true -> article2_num e <> -1)) entries.
Proof.
  intros Hk1 Hk2 Hp.
  induction 1 as [used|n order used art1 m s entries used' Hget Hbest Hpos Hthr _ IH
                 |n order used art1 entries used' Hget Hall _ IH].
  - constructor.
  - constructor; [|exact IH].
    pose proof (best_of_number _ _ _ _ _ Hp Hbest) as Hm.
    apply best_of_In in Hbest as (art2 & Hin & _).
    apply candidates_In in Hin as [Hin _].
    unfold entry_resolved. cbn [article1_num article2_num articles].
    split; [|done]. split.
    + apply Hk1, dict_get_keys. eauto.
    + right. apply Hk2. unfold keys. apply in_map_iff. by exists (m, art2).
  - constructor; [|exact IH]. unfold entry_resolved.
    cbn [article1_num article2_num articles matched match_type].
    split; [|done]. split; [|by left]. apply Hk1, dict_get_keys. eauto.
Qed.

Lemma entry_resolved_articles law1 law2 l1 l2 e :
  entry_resolved {| chapters := l1; sections := l2; articles := articles law1 |}
                 {| chapters := l1; sections := l2; articles := articles law2 |} e ->
  entry_resolved law1 law2 e.
Proof. done. Qed.

Lemma matching_resolved self law1 law2 mr :
  parsed_numbers (articles law2) ->
  intelligent_article_matching self (articles law1) (articles law2) = Some mr ->
  Forall (fun e => entry_resolved law1 law2 e /\
                   (matched e = true -> article2_num e <> -1))
         (result_matches mr) /\
  Forall (fun n => In n (keys (articles law2))) (result_new mr).
Proof.
  intros Hp Hmr.
  destruct (matching_spec self (articles law1) (articles law2) Hp)
    as (r & entries & Hr & Hm & Hspec & Hnew).
  rewrite Hmr in Hr. injection Hr as <-.
  destruct (manual_phase_spec (articles law1) (articles law2) self) as (Hm0 & _ & _).
  split.
  - rewrite Hm, Hm0. apply Forall_app. split.
    + apply Forall_forall. intros e He.
      apply list_elem_of_In, in_map_iff in He as (m & <- & Hin).
      apply filter_In in Hin as [_ Happ]. unfold applicable in Happ.
      apply andb_prop in Happ as [Ha1 Ha2].
      apply dict_mem_get, dict_get_keys in Ha1.
      apply dict_mem_get, dict_get_keys in Ha2.
      unfold entry_resolved. cbn [manual_entry article1_num article2_num].
      split; [by split; [|right]|]. intros _.
      unfold parsed_numbers in Hp. rewrite Forall_forall in Hp.
      assert (0 <= new_number m); [|lia]. by apply Hp, list_elem_of_In.
    + eapply Forall_impl.
      * eapply (auto_spec_resolved _ _ _ (articles law1) (articles law2));
          [| |by apply remaining_parsed|exact Hspec].
        -- intros n Hn. by apply remaining_keys in Hn as [Hn _].
        -- intros n Hn. by apply remaining_keys in Hn as [Hn _].
      * intros e [He Hne]. split; [exact He|exact Hne].
  - rewrite Hnew. apply Forall_forall. intros n Hn.
    apply list_elem_of_In, filter_In in Hn as [Hn _].
    eapply Permutation_in; [apply sorted_perm|exact Hn].
Qed.

(** On parsed documents [compare_articles] fails only with the diff of an
    entry, and the lists of a result are the sorted lists of the records
    of the entries. *)
Lemma compare_articles_spec depth self law1 law2 :
  parsed_numbers (articles law2) ->
  exists mr,
    intelligent_article_matching self (articles law1) (articles law2) = Some mr /\
    (forallb (diff_returns depth law1 law2) (result_matches mr) = false ->
       compare_articles depth self law1 law2 = None) /\
    (forallb (diff_returns depth law1 law2) (result_matches mr) = true ->
       exists r,
         compare_articles depth self law1 law2 = Some r /\
         identical r = sort_key id_old_number
           (flat_map (identical_records law1 law2) (result_matches mr)) /\
         modified r = sort_key md_old_number
           (flat_map (modified_records depth law1 law2) (result_matches mr)) /\
         deleted r = sort_key article_number
           (flat_map (deleted_records law1) (result_matches mr)) /\
         new r = sort_key article_number
           (flat_map (new_records law2) (result_new mr))).
Proof.
  intros Hp.
  destruct (matching_spec self (articles law1) (articles law2) Hp)
    as (mr & entries & Hmr & _).
  destruct (matching_resolved self law1 law2 mr Hp Hmr) as [Hres Hnew].
  exists mr. split; [exact Hmr|]. unfold compare_articles. rewrite Hmr. split.
  - intros Hret. rewrite (classify_fold_fails _ _ _ _ _ Hret).
    by rewrite new_fold_None.
  - intros Hret.
    match goal with |- context [fold_left (classify_step _ _ _) _ (Some ?r0)] =>
      destruct (classify_fold depth law1 law2 (result_matches mr) r0)
        as (r1 & Hfold1 & Hi1 & Hm1 & Hd1 & Hn1)
    end.
    { eapply Forall_impl; [exact Hres|]. by intros e [He _]. }
    { exact Hret. }
    rewrite Hfold1.
    destruct (new_fold law2 (result_new mr) r1 Hnew)
      as (r2 & Hfold2 & Hi2 & Hm2 & Hd2 & Hn2).
    rewrite Hfold2. eexists. split; [reflexivity|].
    cbn [identical modified deleted new] in *.
    rewrite Hi2, Hm2, Hd2, Hn2, Hi1, Hm1, Hd1, Hn1. by cbn [app].
Qed.

(** The same, read from a result. *)
Lemma compare_articles_inv depth self law1 law2 r :
  parsed_numbers (articles law2) ->
  compare_articles depth self law1 law2 = Some r ->
  exists mr,
    intelligent_article_matching self (articles law1) (articles law2) = Some mr /\
    forallb (diff_returns depth law1 law2) (result_matches mr) = true /\
    identical r = sort_key id_old_number
      (flat_map (identical_records law1 law2) (result_matches mr)) /\
    modified r = sort_key md_old_number
      (flat_map (modified_records depth law1 law2) (result_matches mr)) /\
    deleted r = sort_key article_number
      (flat_map (deleted_records law1) (result_matches mr)) /\
    new r = sort_key article_number
      (flat_map (new_records law2) (result_new mr)).
Proof.
  intros Hp Hr.
  destruct (compare_articles_spec depth self law1 law2 Hp)
    as (mr & Hmr & Hfail & Hok).
  exists mr. split; [exact Hmr|].
  destruct (forallb (diff_returns depth law1 law2) (result_matches mr)) eqn:E.
  - split; [reflexivity|].
    destruct (Hok eq_refl) as (r' & Hr' & H). rewrite Hr in Hr'.
    injection Hr' as <-. exact H.
  - rewrite (Hfail eq_refl) in Hr. discriminate Hr.
Qed.

(** C10. In every comparison result the lists "identical" and "modified"
    are in ascending order of old article number, and the lists "new" and
    "deleted" in ascending order of article number. *)
Theorem C10_result_lists_sorted :
  forall depth self law1 law2 r,
    compare_articles depth self law1 law2 = Some r ->
    StronglySorted (fun x y => id_old_number x <= id_old_number y) (identical r) /\
    StronglySorted (fun x y => md_old_number x <= md_old_number y) (modified r) /\
    StronglySorted (fun x y => article_number x <= article_number y) (new r) /\
    StronglySorted (fun x y => article_number x <= article_number y) (deleted r).
Proof.
  intros depth self law1 law2 r. unfold compare_articles.
  destruct (intelligent_article_matching _ _ _) as [mr|]; [|discriminate].
  destruct (fold_left (new_step law2) _ _) as [r'|]; [|discriminate].
  intros [= <-]. cbn [identical modified new deleted].
  repeat split; apply sort_key_sorted.
Qed.

Lemma C10_witness :
  exists r,
    compare_articles 5%nat
      {| similarity_threshold := 5 # 10; manual_matches := [] |}
      (law_of old_doc) (law_of new_doc) = Some r /\
    StronglySorted (fun x y => id_old_number x <= id_old_number y) (identical r) /\
    StronglySorted (fun x y => md_old_number x <= md_old_number y) (modified r) /\
    StronglySorted (fun x y => article_number x <= article_number y) (new r) /\
    StronglySorted (fun x y => article_number x <= article_number y) (deleted r).
Proof.
  destruct (compare_articles 5%nat
              {| similarity_threshold := 5 # 10; manual_matches := [] |}
              (law_of old_doc) (law_of new_doc)) as [r|] eqn:E.
  - exists r. split; [reflexivity|].
    exact (C10_result_lists_sorted _ _ _ _ r E).
  - vm_compute in E. discriminate E.
Defined.
(** ** The loop bounds are never reached *)

Section LoopBounds.

(** [merge_loop] only moves forward in the list of lines. *)
Lemma merge_loop_length rest : forall current_line,
  (length (snd (merge_loop current_line rest)) <= length rest)%nat.
Proof.
  induction rest as [|l rest IH]; intros current_line; cbn [merge_loop]; [done|].
  destruct (strip l) as [|c s]; [done|].
  destruct (_should_merge_lines current_line (c :: s)); [|done].
  specialize (IH (current_line ++ c :: s)). cbn [length]. lia.
Qed.

(** [length lines] iterations of the outer loop of [fix_pdf_line_breaks]
    consume every line: more iterations give the same lines. *)
Lemma fix_loop_fuel fuel : forall lines,
  (length lines <= fuel)%nat ->
  fix_loop fuel lines = fix_loop (length lines) lines.
Proof.
  induction fuel as [fuel IH] using lt_wf_ind. intros lines Hlen.
  destruct lines as [|l rest]; [by destruct fuel|].
  destruct fuel as [|fuel']; [cbn [length] in Hlen; lia|].
  cbn [length fix_loop]. cbn [length] in Hlen.
  destruct (strip l) as [|c s].
  - by rewrite (IH fuel') by lia.
  - pose proof (merge_loop_length rest (c :: s)) as Hrest.
    destruct (merge_loop (c :: s) rest) as [current_line rest'].
    cbn [snd] in Hrest.
    rewrite (IH fuel') by lia. rewrite (IH (length rest)) by lia. reflexivity.
Qed.

Variables a b : list Z.

(** The loops that extend a block over junk never run: the junk set is
    empty. *)
Lemma extend_left_junk fuel alo blo best :
  Difflib.extend_left a b fuel true alo blo best = best.
Proof.
  destruct fuel, best as [[besti bestj] bestsize]; cbn; [done|].
  by rewrite !andb_false_r.
Qed.

Lemma extend_right_junk fuel ahi bhi best :
  Difflib.extend_right a b fuel true ahi bhi best = best.
Proof.
  destruct fuel, best as [[besti bestj] bestsize]; cbn; [done|].
  by rewrite !andb_false_r.
Qed.

(** [besti - alo] iterations end the loop that extends a block to the
    left, [ahi - (besti + bestsize)] iterations the one to the right. *)
Lemma extend_left_fuel fuel : forall extra alo blo besti bestj bestsize,
  besti - alo <= Z.of_nat fuel ->
  Difflib.extend_left a b (fuel + extra) false alo blo (besti, bestj, bestsize)
  = Difflib.extend_left a b fuel false alo blo (besti, bestj, bestsize).
Proof.
  induction fuel as [|fuel IH]; intros extra alo blo besti bestj bestsize Hm.
  - cbn [Nat.add Difflib.extend_left]. destruct extra; [done|].
    cbn [Difflib.extend_left]. destruct (Z.ltb_spec alo besti); [lia|done].
  - cbn [Nat.add Difflib.extend_left].
    destruct (_ && _); [|done]. apply IH. lia.
Qed.

Lemma extend_right_fuel fuel : forall extra ahi bhi besti bestj bestsize,
  ahi - (besti + bestsize) <= Z.of_nat fuel ->
  Difflib.extend_right a b (fuel + extra) false ahi bhi (besti, bestj, bestsize)
  = Difflib.extend_right a b fuel false ahi bhi (besti, bestj, bestsize).
Proof.
  induction fuel as [|fuel IH]; intros extra ahi bhi besti bestj bestsize Hm.
  - cbn [Nat.add Difflib.extend_right]. destruct extra; [done|].
    cbn [Difflib.extend_right].
    destruct (Z.ltb_spec (besti + bestsize) ahi); [lia|done].
  - cbn [Nat.add Difflib.extend_right].
    destruct (_ && _); [|done]. apply IH. lia.
Qed.

(** In [find_longest_match] the bound [ahi - alo] is enough for both. *)
Lemma find_longest_match_fuel alo ahi blo bhi extra :
  window_ok (alo, ahi, blo, bhi) ->
  let fuel := Z.to_nat (ahi - alo) in
  let best0 :=
    Difflib.scan_rows a b blo bhi (seqZ alo (ahi - alo)) ∅ (alo, blo, 0) in
  let best1 := Difflib.extend_left a b fuel false alo blo best0 in
  Difflib.extend_left a b (fuel + extra) false alo blo best0 = best1 /\
  Difflib.extend_right a b (fuel + extra) false ahi bhi best1
  = Difflib.extend_right a b fuel false ahi bhi best1.
Proof.
  intros [Ha Hb]. cbv zeta.
  remember (Difflib.scan_rows a b blo bhi (seqZ alo (ahi - alo)) ∅ (alo, blo, 0))
    as best0 eqn:E0.
  assert (H0 : in_window (alo, ahi, blo, bhi) best0).
  { rewrite E0.
    replace (ahi - alo) with (Z.of_nat (Z.to_nat (ahi - alo))) by lia.
    apply scan_rows_ok; try lia; [apply row_ok_empty|unfold in_window; lia]. }
  clear E0.
  remember (Difflib.extend_left a b (Z.to_nat (ahi - alo)) false alo blo best0)
    as best1 eqn:E1.
  assert (H1 : in_window (alo, ahi, blo, bhi) best1)
    by (rewrite E1; by apply extend_left_ok).
  destruct best0 as [[i0 j0] k0], best1 as [[i1 j1] k1].
  unfold in_window in H0, H1. split.
  - rewrite E1. apply extend_left_fuel. lia.
  - apply extend_right_fuel. lia.
Qed.

(** The queue loop of [get_matching_blocks]: each iteration removes a
    window and adds windows whose widths in [a], plus the size of the
    block found, give the width removed. *)
Lemma blocks_loop_fuel fuel : forall extra queue blocks,
  Forall window_ok queue ->
  queue_measure queue <= Z.of_nat fuel ->
  Difflib.blocks_loop a b (fuel + extra) queue blocks
  = Difflib.blocks_loop a b fuel queue blocks.
Proof.
  unfold queue_measure.
  induction fuel as [|fuel IH]; intros extra queue blocks Hq Hm.
  - destruct queue as [|[[[alo ahi] blo] bhi] queue].
    + by destruct extra.
    + exfalso. inversion Hq as [|? ? Hwin Hq']; subst.
      destruct Hwin as [Hwa _].
      cbn [map foldr width_a] in Hm.
      assert (0 <= foldr Z.add 0 (map (fun win => 2 * width_a win + 1) queue)).
      { clear -Hq'. induction Hq' as [|[[[alo' ahi'] blo'] bhi'] q [? ?] _ IH];
          cbn [map foldr width_a]; lia. }
      lia.
  - destruct queue as [|[[[alo ahi] blo] bhi] queue]; [done|].
    cbn [Nat.add Difflib.blocks_loop].
    inversion Hq as [|? ? Hwin Hq']; subst.
    pose proof (find_longest_match_window a b alo ahi blo bhi Hwin) as Hblk.
    destruct (Difflib.find_longest_match a b alo ahi blo bhi) as [[i j] k].
    cbn [map foldr width_a] in Hm.
    destruct Hwin as [Hwa Hwb]. destruct Hblk as (Hi & Hik & Hj & Hjk & Hk).
    destruct (Z.eqb_spec k 0) as [->|Hk0].
    { apply IH; [done|lia]. }
    apply IH.
    + repeat case_match; repeat constructor; try done; cbn; lia.
    + repeat case_match; cbn [map foldr width_a]; lia.
Qed.

(** The bound [2 * len(a) + 1] of [get_matching_blocks] empties the
    queue. *)
Lemma get_matching_blocks_fuel extra :
  Difflib.blocks_loop a b (S (2 * length a) + extra)
    [(0, Difflib.len a, 0, Difflib.len b)] []
  = Difflib.blocks_loop a b (S (2 * length a))
      [(0, Difflib.len a, 0, Difflib.len b)] [].
Proof.
  apply blocks_loop_fuel.
  - repeat constructor; unfold Difflib.len; lia.
  - unfold queue_measure, Difflib.len. cbn [map foldr width_a]. lia.
Qed.

End LoopBounds.
(* ===================================================================== *)
(** * Further properties of the similarity metric *)
(* ===================================================================== *)

Section CommonBlocks.

Variables a b : list Z.

Lemma indices_from_spec elt s : forall j0 j,
  In j (Difflib.indices_from j0 elt s) ->
  j0 <= j < j0 + Z.of_nat (length s) /\ nth (Z.to_nat (j - j0)) s 0 = elt.
Proof.
  induction s as [|c s IH]; intros j0 j Hj; [done|].
  cbn [Difflib.indices_from] in Hj. cbn [length].
  assert (Hrec : In j (Difflib.indices_from (j0 + 1) elt s) ->
                 j0 <= j < j0 + Z.of_nat (S (length s)) /\
                 nth (Z.to_nat (j - j0)) (c :: s) 0 = elt).
  { intros H. apply IH in H as [Hb Hn]. split; [lia|].
    replace (Z.to_nat (j - j0)) with (S (Z.to_nat (j - (j0 + 1)))) by lia.
    exact Hn. }
  destruct (Z.eqb_spec c elt) as [->|Hne]; [|by apply Hrec].
  destruct Hj as [<-|Hj]; [|by apply Hrec].
  split; [lia|]. by rewrite Z.sub_diag.
Qed.

Lemma b2j_get_spec elt j :
  In j (Difflib.b2j_get b elt) ->
  0 <= j < Difflib.len b /\ Difflib.item b j = elt.
Proof.
  unfold Difflib.b2j_get. cbv zeta. destruct (_ && _); [done|].
  intros H. apply indices_from_spec in H as [Hb Hn].
  unfold Difflib.len, Difflib.item. split; [lia|].
  by rewrite Z.sub_0_r in Hn.
Qed.

Lemma scan_row_equal blo bhi i j2len js : forall newj2len best,
  Forall (fun j => Difflib.item b j = Difflib.item a i) js ->
  row_equal a b (i - 1) j2len ->
  row_equal a b i newj2len ->
  equal_block a b best ->
  row_equal a b i (fst (Difflib.scan_row blo bhi i j2len js newj2len best)) /\
  equal_block a b (snd (Difflib.scan_row blo bhi i j2len js newj2len best)).
Proof.
  induction js as [|j js IH]; intros newj2len best Hjs Hprev Hnew Hbest;
    cbn [Difflib.scan_row]; [by split|].
  inversion Hjs as [|? ? Hj Hjs']; subst.
  destruct (Z.ltb_spec j blo); [by apply IH|].
  destruct (Z.leb_spec bhi j); [by split|].
  destruct best as [[besti bestj] bestsize].
  set (k := default 0 (j2len !! (j - 1)) + 1).
  assert (Hk : forall t, 0 <= t < k ->
                 Difflib.item a (i - t) = Difflib.item b (j - t)).
  { intros t Ht. destruct (Z.eq_dec t 0) as [->|Hne].
    { by rewrite !Z.sub_0_r. }
    unfold k in Ht. destruct (j2len !! (j - 1)) as [v|] eqn:E; simpl in Ht;
      [|lia].
    specialize (Hprev _ _ E (t - 1) ltac:(lia)).
    replace (i - 1 - (t - 1)) with (i - t) in Hprev by lia.
    by replace (j - 1 - (t - 1)) with (j - t) in Hprev by lia. }
  apply IH; try done.
  - intros j' v. rewrite lookup_insert. case_decide as Hjj.
    + subst j'. intros [= <-]. exact Hk.
    + apply Hnew.
  - destruct (Z.ltb_spec bestsize k); [|exact Hbest].
    intros t Ht. specialize (Hk (k - 1 - t) ltac:(lia)).
    replace (i - (k - 1 - t)) with (i - k + 1 + t) in Hk by lia.
    by replace (j - (k - 1 - t)) with (j - k + 1 + t) in Hk by lia.
Qed.

Lemma row_equal_empty i : row_equal a b i ∅.
Proof. intros j v. by rewrite lookup_empty. Qed.

Lemma scan_rows_equal blo bhi (n : nat) : forall i j2len best,
  row_equal a b (i - 1) j2len ->
  equal_block a b best ->
  equal_block a b
    (Difflib.scan_rows a b blo bhi (seqZ i (Z.of_nat n)) j2len best).
Proof.
  induction n as [|n IH]; intros i j2len best Hrow Hbest; [exact Hbest|].
  rewrite seqZ_cons by lia. cbn [Difflib.scan_rows].
  destruct (Difflib.scan_row blo bhi i j2len
              (Difflib.b2j_get b (Difflib.item a i)) ∅ best)
    as [newj2len best'] eqn:E.
  assert (Hjs : Forall (fun j => Difflib.item b j = Difflib.item a i)
                       (Difflib.b2j_get b (Difflib.item a i))).
  { apply Forall_forall. intros j Hj. apply list_elem_of_In in Hj.
    by apply b2j_get_spec in Hj as [_ ?]. }
  pose proof (scan_row_equal blo bhi i j2len
                (Difflib.b2j_get b (Difflib.item a i)) ∅ best
                Hjs Hrow (row_equal_empty i) Hbest) as Hok.
  rewrite E in Hok. cbn [fst snd] in Hok. destruct Hok as [Hrow' Hbest'].
  replace (Z.pred (Z.of_nat (S n))) with (Z.of_nat n) by lia.
  apply IH; [|exact Hbest'].
  by replace (Z.succ i - 1) with i by lia.
Qed.

Lemma extend_left_equal fuel junk alo blo : forall best,
  equal_block a b best ->
  equal_block a b (Difflib.extend_left a b fuel junk alo blo best).
Proof.
  induction fuel as [|fuel IH]; intros [[besti bestj] bestsize] Hbest;
    cbn [Difflib.extend_left]; [done|].
  destruct (_ && _ && _) eqn:E1; cbn [andb]; [|exact Hbest].
  apply andb_true_iff in E1 as [_ Heq]. apply Z.eqb_eq in Heq.
  apply IH. intros t Ht. destruct (Z.eq_dec t 0) as [->|Hne].
  - by rewrite !Z.add_0_r.
  - specialize (Hbest (t - 1) ltac:(lia)).
    replace (besti - 1 + t) with (besti + (t - 1)) by lia.
    by replace (bestj - 1 + t) with (bestj + (t - 1)) by lia.
Qed.

Lemma extend_right_equal fuel junk ahi bhi : forall best,
  equal_block a b best ->
  equal_block a b (Difflib.extend_right a b fuel junk ahi bhi best).
Proof.
  induction fuel as [|fuel IH]; intros [[besti bestj] bestsize] Hbest;
    cbn [Difflib.extend_right]; [done|].
  destruct (_ && _ && _) eqn:E1; cbn [andb]; [|exact Hbest].
  apply andb_true_iff in E1 as [_ Heq]. apply Z.eqb_eq in Heq.
  apply IH. intros t Ht. destruct (Z.eq_dec t bestsize) as [->|Hne].
  - exact Heq.
  - apply Hbest. lia.
Qed.

Lemma find_longest_match_equal alo ahi blo bhi :
  equal_block a b (Difflib.find_longest_match a b alo ahi blo bhi).
Proof.
  unfold Difflib.find_longest_match.
  apply extend_right_equal, extend_left_equal, extend_right_equal,
    extend_left_equal.
  destruct (Z.le_gt_cases (ahi - alo) 0) as [Hle|Hgt].
  { rewrite seqZ_nil by lia. cbn. intros t Ht. lia. }
  replace (ahi - alo) with (Z.of_nat (Z.to_nat (ahi - alo))) by lia.
  apply scan_rows_equal; [apply row_equal_empty|].
  intros t Ht. lia.
Qed.

Lemma common_block_intro win blk :
  (let '(alo, ahi, blo, bhi) := win in
   0 <= alo /\ ahi <= Difflib.len a /\ 0 <= blo /\ bhi <= Difflib.len b) ->
  in_window win blk -> equal_block a b blk -> common_block a b blk.
Proof.
  destruct win as [[[alo ahi] blo] bhi], blk as [[i j] k].
  unfold in_window, equal_block, common_block. intros (? & ? & ? & ?)
    (? & ? & ? & ? & ?) Heq. repeat split; try lia. exact Heq.
Qed.

Lemma blocks_loop_common fuel : forall queue blocks,
  Forall (fun win =>
            window_ok win /\
            let '(alo, ahi, blo, bhi) := win in
            0 <= alo /\ ahi <= Difflib.len a /\ 0 <= blo /\
            bhi <= Difflib.len b) queue ->
  Forall (common_block a b) blocks ->
  Forall (common_block a b) (Difflib.blocks_loop a b fuel queue blocks).
Proof.
  induction fuel as [|fuel IH]; intros queue blocks Hq Hb; [exact Hb|].
  destruct queue as [|[[[alo ahi] blo] bhi] queue]; [exact Hb|].
  cbn [Difflib.blocks_loop].
  inversion Hq as [|? ? [Hwin Hbnd] Hq']; subst.
  pose proof (find_longest_match_window a b alo ahi blo bhi Hwin) as Hblk.
  pose proof (find_longest_match_equal alo ahi blo bhi) as Heq.
  pose proof (common_block_intro (alo, ahi, blo, bhi) _ Hbnd Hblk Heq) as Hc.
  destruct (Difflib.find_longest_match a b alo ahi blo bhi) as [[i j] k].
  destruct Hwin as [Hwa Hwb]. destruct Hblk as (Hi & Hik & Hj & Hjk & Hk).
  destruct (Z.eqb_spec k 0) as [->|Hk0]; [by apply IH|].
  apply IH.
  - repeat case_match; repeat constructor; try done; cbn; lia.
  - apply Forall_app. split; [exact Hb|]. constructor; [exact Hc|constructor].
Qed.

Lemma collapse_common blocks : forall cur non_adjacent,
  Forall (common_block a b) blocks -> common_block a b cur ->
  Forall (common_block a b) non_adjacent ->
  Forall (common_block a b) (Difflib.collapse blocks cur non_adjacent).
Proof.
  induction blocks as [|[[i2 j2] k2] blocks IH];
    intros [[i1 j1] k1] non_adjacent Hb Hcur Hna; cbn [Difflib.collapse].
  - destruct (k1 =? 0); [exact Hna|]. apply Forall_app.
    split; [exact Hna|]. constructor; [exact Hcur|constructor].
  - inversion Hb as [|? ? H2 Hb']; subst.
    destruct (Z.eqb_spec (i1 + k1) i2) as [Ei|_]; cbn [andb].
    + destruct (Z.eqb_spec (j1 + k1) j2) as [Ej|_].
      * apply IH; try done.
        destruct Hcur as (? & ? & ? & ? & ? & Heq1).
        destruct H2 as (? & ? & ? & ? & ? & Heq2).
        repeat split; try lia. intros t Ht.
        destruct (Z.lt_ge_cases t k1) as [Hlt|Hge]; [apply Heq1; lia|].
        specialize (Heq2 (t - k1) ltac:(lia)).
        replace (i2 + (t - k1)) with (i1 + t) in Heq2 by lia.
        by replace (j2 + (t - k1)) with (j1 + t) in Heq2 by lia.
      * apply IH; try done. destruct (k1 =? 0); [exact Hna|].
        apply Forall_app. split; [exact Hna|]. constructor; [exact Hcur|constructor].
    + apply IH; try done. destruct (k1 =? 0); [exact Hna|].
      apply Forall_app. split; [exact Hna|]. constructor; [exact Hcur|constructor].
Qed.

Lemma matching_blocks_common :
  Forall (common_block a b) (Difflib.get_matching_blocks a b).
Proof.
  unfold Difflib.get_matching_blocks. cbv zeta. apply Forall_app. split.
  - apply collapse_common.
    + rewrite sort_by_perm. apply blocks_loop_common; [|constructor].
      repeat constructor; unfold Difflib.len; lia.
    + unfold common_block, Difflib.len. repeat split; try lia.
    + constructor.
  - repeat constructor; unfold Difflib.len; try lia.
Qed.

(** A block of positive size shows a common element. *)
Lemma common_block_element blk :
  common_block a b blk -> 0 < snd blk -> exists c, c ∈ a /\ c ∈ b.
Proof.
  destruct blk as [[i j] k]. cbn [snd].
  intros (Hi & Hj & Hk & Hia & Hjb & Heq) Hpos.
  exists (Difflib.item a i). specialize (Heq 0 ltac:(lia)).
  rewrite !Z.add_0_r in Heq. split.
  - unfold Difflib.item. apply list_elem_of_In, nth_In.
    unfold Difflib.len in Hia. lia.
  - rewrite Heq. unfold Difflib.item. apply list_elem_of_In, nth_In.
    unfold Difflib.len in Hjb. lia.
Qed.

Lemma ratio_disjoint :
  (forall c, c ∈ a -> c ∉ b) -> (Difflib.ratio a b == 0)%Q \/ a ++ b = [].
Proof.
  intros Hdis. unfold Difflib.ratio. cbv zeta.
  fold (total_size (Difflib.get_matching_blocks a b)).
  assert (H0 : total_size (Difflib.get_matching_blocks a b) = 0).
  { pose proof matching_blocks_common as Hall.
    induction Hall as [|blk l Hblk _ IH]; [done|].
    unfold total_size in *. cbn [map foldr]. rewrite IH.
    destruct (Z.eq_dec (snd blk) 0) as [->|Hne]; [done|]. exfalso.
    assert (Hpos : 0 < snd blk).
    { destruct blk as [[i j] k]. destruct Hblk as (_ & _ & ? & _). cbn in *. lia. }
    destruct (common_block_element blk Hblk Hpos) as (c & Ha & Hb).
    by apply (Hdis c). }
  rewrite H0. unfold Difflib._calculate_ratio.
  destruct (Z.eqb_spec (Difflib.len a + Difflib.len b) 0) as [E|_].
  - right. unfold Difflib.len in E. destruct a, b; cbn in *; try lia. done.
  - by left.
Qed.

End CommonBlocks.

(** X26. Every matching block of the sequence matcher is a common
    substring: a block [(i, j, k)] lies inside both sequences and
    [a[i:i+k] == b[j:j+k]]. The heuristics (the removal of popular
    elements from the index, the longest-match scan, the queue) never
    report elements as matched that differ. *)
Theorem matching_blocks_are_common_substrings :
  forall a b, Forall (common_block a b) (Difflib.get_matching_blocks a b).
Proof. exact matching_blocks_common. Qed.

(** X27. Two texts without a common character have similarity 0. *)
Theorem calculate_similarity_disjoint :
  forall text1 text2,
    (forall c, c ∈ text1 -> c ∉ text2) ->
    (calculate_similarity text1 text2 == 0)%Q.
Proof.
  intros text1 text2 Hdis. unfold calculate_similarity.
  destruct text1 as [|c1 t1]; [reflexivity|].
  destruct text2 as [|c2 t2]; [reflexivity|].
  destruct (ratio_disjoint (c1 :: t1) (c2 :: t2) Hdis) as [H|H]; [exact H|].
  discriminate H.
Qed.

Lemma calculate_similarity_disjoint_witness :
  (calculate_similarity (py "甲乙") (py "丙丁") == 0)%Q.
Proof.
  apply (calculate_similarity_disjoint (py "甲乙") (py "丙丁")).
  intros c H1 H2. apply list_elem_of_In in H1, H2. revert H1 H2.
  py_eval. cbn [In]. lia.
Defined.


(** ** A text compared with itself *)

Section SelfSimilarity.

Variable a : list Z.

Lemma indices_from_app c pre post : forall j0,
  Difflib.indices_from j0 c (pre ++ post)
  = Difflib.indices_from j0 c pre
    ++ Difflib.indices_from (j0 + Z.of_nat (length pre)) c post.
Proof.
  induction pre as [|x pre IH]; intros j0; cbn [app Difflib.indices_from length].
  - by rewrite Z.add_0_r.
  - rewrite IH.
    replace (j0 + 1 + Z.of_nat (length pre)) with (j0 + Z.of_nat (S (length pre)))
      by lia.
    by destruct (x =? c).
Qed.

Lemma indices_from_Forall c s : forall j0,
  Forall (fun j => j0 <= j < j0 + Z.of_nat (length s) /\
                   nth (Z.to_nat (j - j0)) s 0 = c)
         (Difflib.indices_from j0 c s).
Proof.
  intros j0. apply Forall_forall. intros j Hj. apply list_elem_of_In in Hj.
  by apply indices_from_spec.
Qed.

Lemma diag_nonneg m : 0 <= diag a m.
Proof.
  unfold diag. destruct (m <? 0); [lia|].
  induction (Z.to_nat m) as [|k IH]; cbn [diagonal_run]; case_match; lia.
Qed.

Lemma diag_unfold m :
  0 <= m ->
  diag a m = if popular a (Difflib.item a m) then 0 else 1 + diag a (m - 1).
Proof.
  intros Hm. unfold diag. destruct (Z.ltb_spec m 0); [lia|].
  destruct (Z.to_nat m) as [|k] eqn:E.
  - assert (m = 0) as -> by lia. cbn [diagonal_run]. reflexivity.
  - cbn [diagonal_run]. replace (Z.of_nat (S k)) with m by lia.
    destruct (Z.ltb_spec (m - 1) 0); [lia|].
    by replace (Z.to_nat (m - 1)) with k by lia.
Qed.

(** The row of the index for the element at position [i]: empty when the
    element is popular, otherwise the positions of the element, [i] among
    them, in ascending order. *)
Lemma b2j_row i :
  0 <= i < Difflib.len a ->
  if popular a (Difflib.item a i) then Difflib.b2j_get a (Difflib.item a i) = []
  else exists js1 js2,
    Difflib.b2j_get a (Difflib.item a i) = js1 ++ i :: js2 /\
    Forall (fun j => 0 <= j < i /\ Difflib.item a j = Difflib.item a i) js1 /\
    Forall (fun j => i < j < Difflib.len a /\
                     Difflib.item a j = Difflib.item a i) js2.
Proof.
  intros Hi. unfold Difflib.b2j_get, popular. cbv zeta.
  destruct (_ && _ && _); [reflexivity|].
  unfold Difflib.len in Hi.
  assert (Hlook : a !! Z.to_nat i = Some (Difflib.item a i)).
  { unfold Difflib.item.
    destruct (lookup_lt_is_Some_2 a (Z.to_nat i)) as [x Hx]; [lia|].
    rewrite Hx. f_equal. symmetry. by apply nth_lookup_Some. }
  pose proof (take_drop_middle a (Z.to_nat i) _ Hlook) as Hsplit.
  set (c := Difflib.item a i) in *.
  exists (Difflib.indices_from 0 c (take (Z.to_nat i) a)),
         (Difflib.indices_from (i + 1) c (drop (S (Z.to_nat i)) a)).
  assert (Hlen : length (take (Z.to_nat i) a) = Z.to_nat i).
  { rewrite length_take. lia. }
  split; [|split].
  - rewrite <- Hsplit at 1. rewrite indices_from_app. f_equal.
    cbn [Difflib.indices_from]. rewrite Z.eqb_refl, Hlen.
    replace (0 + Z.of_nat (Z.to_nat i)) with i by lia. done.
  - eapply Forall_impl; [apply indices_from_Forall|].
    intros j [Hj Hn]. rewrite Hlen in Hj. split; [lia|].
    unfold Difflib.item. rewrite Z.sub_0_r in Hn. rewrite <- Hn.
    rewrite <- Hsplit at 1. rewrite app_nth1; [done|]. rewrite Hlen. lia.
  - eapply Forall_impl; [apply indices_from_Forall|].
    intros j [Hj Hn]. rewrite length_drop in Hj. unfold Difflib.len.
    split; [lia|]. unfold Difflib.item. rewrite <- Hn.
    rewrite <- Hsplit at 1.
    rewrite app_nth2; rewrite Hlen; [|lia].
    replace (Z.to_nat j - Z.to_nat i)%nat with (S (Z.to_nat (j - (i + 1))))
      by lia.
    reflexivity.
Qed.

(** Cells of row [i] off the diagonal do not change a best block that is
    at least as long as the diagonal runs they are bounded by. *)
Lemma scan_row_off n i j2len js : forall newj2len besti bestsize,
  Forall (fun j => 0 <= j < n /\ j <> i /\
                   Difflib.item a j = Difflib.item a i /\
                   diag a (Z.min i j) <= bestsize) js ->
  0 <= i -> popular a (Difflib.item a i) = false ->
  (forall j v, j2len !! j = Some v -> v <= diag a (Z.min (i - 1) j)) ->
  (forall j v, newj2len !! j = Some v -> v <= diag a (Z.min i j)) ->
  exists newj2len',
    Difflib.scan_row 0 n i j2len js newj2len (besti, besti, bestsize)
    = (newj2len', (besti, besti, bestsize)) /\
    (forall j v, newj2len' !! j = Some v -> v <= diag a (Z.min i j)) /\
    newj2len' !! i = newj2len !! i.
Proof.
  induction js as [|j js IH]; intros newj2len besti bestsize Hjs Hi Hpop Hprev Hnew.
  { by exists newj2len. }
  inversion Hjs as [|? ? (Hj & Hne & Hitem & Hbest) Hjs']; subst.
  cbn [Difflib.scan_row].
  destruct (Z.ltb_spec j 0); [lia|]. destruct (Z.leb_spec n j); [lia|].
  set (k := default 0 (j2len !! (j - 1)) + 1).
  assert (Hk : k <= diag a (Z.min i j)).
  { assert (Hm : 0 <= Z.min i j) by lia.
    rewrite (diag_unfold _ Hm).
    assert (Hc : Difflib.item a (Z.min i j) = Difflib.item a i).
    { destruct (Z.min_spec i j) as [[_ ->]|[_ ->]]; done. }
    rewrite Hc, Hpop. unfold k.
    destruct (j2len !! (j - 1)) as [v|] eqn:E; simpl.
    - apply Hprev in E.
      replace (Z.min (i - 1) (j - 1)) with (Z.min i j - 1) in E by lia. lia.
    - pose proof (diag_nonneg (Z.min i j - 1)). lia. }
  destruct (Z.ltb_spec bestsize k); [lia|].
  destruct (IH (<[j := k]> newj2len) besti bestsize Hjs' Hi Hpop Hprev)
    as (new' & Hscan & Hinv & Hlook).
  { intros j' v. rewrite lookup_insert. case_decide as Hjj.
    - subst j'. intros [= <-]. exact Hk.
    - apply Hnew. }
  exists new'. split; [exact Hscan|]. split; [exact Hinv|].
  rewrite Hlook. by rewrite lookup_insert_ne.
Qed.

(** One row of the scan: the best block stays on the diagonal. *)
Lemma scan_row_diagonal i j2len besti bestsize :
  0 <= i < Difflib.len a ->
  (forall j v, j2len !! j = Some v -> v <= diag a (Z.min (i - 1) j)) ->
  default 0 (j2len !! (i - 1)) = diag a (i - 1) ->
  (forall m, 0 <= m < i -> diag a m <= bestsize) ->
  0 <= bestsize ->
  exists newj2len besti' bestsize',
    Difflib.scan_row 0 (Difflib.len a) i j2len
      (Difflib.b2j_get a (Difflib.item a i)) ∅ (besti, besti, bestsize)
    = (newj2len, (besti', besti', bestsize')) /\
    (forall j v, newj2len !! j = Some v -> v <= diag a (Z.min i j)) /\
    default 0 (newj2len !! i) = diag a i /\
    (forall m, 0 <= m < i + 1 -> diag a m <= bestsize') /\
    0 <= bestsize'.
Proof.
  intros Hi Hprev Hdiag Hbest Hpos.
  pose proof (b2j_row i Hi) as Hrow.
  pose proof (diag_unfold i ltac:(lia)) as Hunf.
  destruct (popular a (Difflib.item a i)) eqn:Hpop.
  { rewrite Hrow. cbn [Difflib.scan_row]. exists ∅, besti, bestsize.
    split; [done|]. split; [intros j v; by rewrite lookup_empty|].
    split; [by rewrite lookup_empty, Hunf|]. split; [|done].
    intros m Hm. destruct (Z.eq_dec m i) as [->|]; [lia|]. apply Hbest. lia. }
  destruct Hrow as (js1 & js2 & -> & Hjs1 & Hjs2).
  assert (Happ : forall js1 js2 new best,
            Forall (fun j => 0 <= j < Difflib.len a) js1 ->
            Difflib.scan_row 0 (Difflib.len a) i j2len (js1 ++ js2) new best
            = Difflib.scan_row 0 (Difflib.len a) i j2len js2
                (fst (Difflib.scan_row 0 (Difflib.len a) i j2len js1 new best))
                (snd (Difflib.scan_row 0 (Difflib.len a) i j2len js1 new best))).
  { clear. induction js1 as [|j js1 IH]; intros js2 new best Hjs; [done|].
    inversion Hjs as [|? ? Hj Hjs']; subst. cbn [app Difflib.scan_row].
    destruct (Z.ltb_spec j 0); [lia|].
    destruct (Z.leb_spec (Difflib.len a) j); [lia|].
    destruct best as [[bi bj] bk]. by apply IH. }
  rewrite Happ by (eapply Forall_impl; [exact Hjs1|]; intros j [? _]; lia).
  assert (Hoff1 : Forall (fun j => 0 <= j < Difflib.len a /\ j <> i /\
                     Difflib.item a j = Difflib.item a i /\
                     diag a (Z.min i j) <= bestsize) js1).
  { eapply Forall_impl; [exact Hjs1|]. intros j [Hj Hc].
    repeat split; try lia; try done.
    replace (Z.min i j) with j by lia. apply Hbest. lia. }
  assert (Hempty : forall j v, (∅ : gmap Z Z) !! j = Some v ->
                               v <= diag a (Z.min i j)).
  { intros j v. by rewrite lookup_empty. }
  destruct (scan_row_off (Difflib.len a) i j2len js1 ∅ besti bestsize
              Hoff1 ltac:(lia) Hpop Hprev Hempty)
    as (new1 & -> & Hinv1 & Hlook1).
  cbn [fst snd Difflib.scan_row].
  destruct (Z.ltb_spec i 0); [lia|].
  destruct (Z.leb_spec (Difflib.len a) i); [lia|].
  rewrite Hdiag. replace (diag a (i - 1) + 1) with (diag a i) by lia.
  set (best' := if bestsize <? diag a i
                then (i - diag a i + 1, i - diag a i + 1, diag a i)
                else (besti, besti, bestsize)).
  assert (Hb' : exists bi bk, best' = (bi, bi, bk) /\ diag a i <= bk /\
                              bestsize <= bk).
  { unfold best'. destruct (Z.ltb_spec bestsize (diag a i)).
    - eexists _, _. split; [reflexivity|]. lia.
    - eexists _, _. split; [reflexivity|]. lia. }
  destruct Hb' as (bi & bk & -> & Hbk1 & Hbk2).
  assert (Hoff2 : Forall (fun j => 0 <= j < Difflib.len a /\ j <> i /\
                     Difflib.item a j = Difflib.item a i /\
                     diag a (Z.min i j) <= bk) js2).
  { eapply Forall_impl; [exact Hjs2|]. intros j [Hj Hc].
    repeat split; try lia; try done.
    by replace (Z.min i j) with i by lia. }
  assert (Hins : forall j v, <[i := diag a i]> new1 !! j = Some v ->
                             v <= diag a (Z.min i j)).
  { intros j v. rewrite lookup_insert. case_decide as Hjj.
    - subst j. intros [= <-]. replace (Z.min i i) with i by lia. lia.
    - apply Hinv1. }
  destruct (scan_row_off (Difflib.len a) i j2len js2
              (<[i := diag a i]> new1) bi bk
              Hoff2 ltac:(lia) Hpop Hprev Hins)
    as (new2 & -> & Hinv2 & Hlook2).
  exists new2, bi, bk. split; [done|]. split; [exact Hinv2|].
  split; [by rewrite Hlook2, lookup_insert_eq|]. split; [|lia].
  intros m Hm. destruct (Z.eq_dec m i) as [->|]; [lia|].
  specialize (Hbest m ltac:(lia)). lia.
Qed.

Lemma scan_rows_diagonal (n : nat) : forall i j2len besti bestsize,
  0 <= i -> i + Z.of_nat n <= Difflib.len a ->
  (forall j v, j2len !! j = Some v -> v <= diag a (Z.min (i - 1) j)) ->
  default 0 (j2len !! (i - 1)) = diag a (i - 1) ->
  (forall m, 0 <= m < i -> diag a m <= bestsize) ->
  0 <= bestsize ->
  exists besti' bestsize',
    Difflib.scan_rows a a 0 (Difflib.len a) (seqZ i (Z.of_nat n)) j2len
      (besti, besti, bestsize)
    = (besti', besti', bestsize').
Proof.
  induction n as [|n IH]; intros i j2len besti bestsize Hi Hn Hprev Hdiag Hbest Hpos.
  { by exists besti, bestsize. }
  rewrite seqZ_cons by lia. cbn [Difflib.scan_rows].
  destruct (scan_row_diagonal i j2len besti bestsize)
    as (new & bi & bk & -> & Hinv & Hd & Hb & Hp); try done; try lia.
  replace (Z.pred (Z.of_nat (S n))) with (Z.of_nat n) by lia.
  apply IH; try lia.
  - by replace (Z.succ i - 1) with i by lia.
  - by replace (Z.succ i - 1) with i by lia.
  - intros m Hm. apply Hb. lia.
Qed.

(** The block is extended along the diagonal to the whole sequence. *)
Lemma extend_left_diagonal fuel : forall besti bestsize,
  0 <= besti <= Z.of_nat fuel ->
  Difflib.extend_left a a fuel false 0 0 (besti, besti, bestsize)
  = (0, 0, bestsize + besti).
Proof.
  induction fuel as [|fuel IH]; intros besti bestsize Hb.
  { cbn. assert (besti = 0) as -> by lia. by rewrite Z.add_0_r. }
  cbn [Difflib.extend_left]. destruct (Z.ltb_spec 0 besti); cbn [andb].
  - unfold Difflib.junk_test, Difflib.isbjunk. cbn [negb andb].
    rewrite Z.eqb_refl. rewrite IH by lia. f_equal. lia.
  - assert (besti = 0) as -> by lia. by rewrite Z.add_0_r.
Qed.

Lemma extend_right_diagonal fuel : forall bestsize,
  0 <= bestsize ->
  Difflib.len a - bestsize <= Z.of_nat fuel ->
  bestsize <= Difflib.len a ->
  Difflib.extend_right a a fuel false (Difflib.len a) (Difflib.len a)
    (0, 0, bestsize)
  = (0, 0, Difflib.len a).
Proof.
  induction fuel as [|fuel IH]; intros bestsize H0 Hf Hle.
  { cbn. f_equal. lia. }
  cbn [Difflib.extend_right]. rewrite Z.add_0_l.
  destruct (Z.ltb_spec bestsize (Difflib.len a)); cbn [andb].
  - unfold Difflib.junk_test, Difflib.isbjunk. cbn [negb andb].
    rewrite Z.eqb_refl. apply IH; lia.
  - f_equal. lia.
Qed.

Lemma find_longest_match_self :
  Difflib.find_longest_match a a 0 (Difflib.len a) 0 (Difflib.len a)
  = (0, 0, Difflib.len a).
Proof.
  unfold Difflib.find_longest_match. rewrite Z.sub_0_r.
  rewrite (extend_left_junk a a), (extend_right_junk a a).
  assert (Hwin : in_window (0, Difflib.len a, 0, Difflib.len a)
            (Difflib.scan_rows a a 0 (Difflib.len a)
               (seqZ 0 (Z.of_nat (length a))) ∅ (0, 0, 0))).
  { apply scan_rows_ok; try (unfold Difflib.len; lia).
    - apply row_ok_empty.
    - unfold in_window, Difflib.len. lia. }
  assert (Hempty : forall j v, (∅ : gmap Z Z) !! j = Some v ->
                               v <= diag a (Z.min (0 - 1) j)).
  { intros j v. by rewrite lookup_empty. }
  assert (Hnone : forall m, 0 <= m < 0 -> diag a m <= 0) by (intros; lia).
  destruct (scan_rows_diagonal (length a) 0 ∅ 0 0 ltac:(lia)
              ltac:(unfold Difflib.len; lia) Hempty eq_refl Hnone ltac:(lia))
    as (bi & bk & Hscan).
  fold (Difflib.len a) in Hscan, Hwin. rewrite Hscan in *.
  destruct Hwin as (Hi & Hik & _ & _ & Hk).
  unfold Difflib.len at 1 2. rewrite Nat2Z.id.
  rewrite extend_left_diagonal by (unfold Difflib.len in *; lia).
  apply extend_right_diagonal; unfold Difflib.len in *; lia.
Qed.

Lemma ratio_self : a <> [] -> (Difflib.ratio a a == 1)%Q.
Proof.
  intros Hne. unfold Difflib.ratio, Difflib.get_matching_blocks. cbv zeta.
  assert (Hlen : 0 < Difflib.len a).
  { unfold Difflib.len. destruct a; [done|]. cbn [length]. lia. }
  cbn [Difflib.blocks_loop]. rewrite find_longest_match_self.
  destruct (Z.eqb_spec (Difflib.len a) 0); [lia|].
  rewrite Z.add_0_l, Z.ltb_irrefl. change (0 <? 0) with false.
  cbn [andb app].
  assert (Hq : Difflib.blocks_loop a a (2 * length a) [] [(0, 0, Difflib.len a)]
               = [(0, 0, Difflib.len a)]) by (by destruct (2 * length a)%nat).
  rewrite Hq. cbn [Difflib.sort_by foldr Difflib.insert_sorted Difflib.collapse].
  change (0 + 0 =? 0) with true. cbn [andb Difflib.collapse].
  rewrite Z.add_0_l.
  destruct (Z.eqb_spec (Difflib.len a) 0); [lia|].
  cbn [app map snd foldr]. unfold Difflib._calculate_ratio.
  destruct (Z.eqb_spec (Difflib.len a + Difflib.len a) 0); [lia|].
  unfold Qeq. cbn [Qnum Qden]. rewrite Z2Pos.id by lia. lia.
Qed.

End SelfSimilarity.

(** X28. A non-empty text has similarity 1 with itself, so two articles
    of equal non-empty content are always classified as identical; two
    empty texts have similarity 0. *)
Theorem calculate_similarity_self :
  (forall text, text <> [] -> (calculate_similarity text text == 1)%Q) /\
  calculate_similarity [] [] = 0%Q.
Proof.
  split; [|reflexivity]. intros text Hne. unfold calculate_similarity.
  destruct text as [|c t]; [done|]. by apply ratio_self.
Qed.

Lemma calculate_similarity_self_witness :
  (calculate_similarity (py "禁止吸烟。") (py "禁止吸烟。") == 1)%Q.
Proof.
  apply (proj1 calculate_similarity_self (py "禁止吸烟。")).
  vm_compute. discriminate.
Defined.


(** ** The order of the matching blocks *)

Section Tiling.

Lemma comparable_sym r1 r2 : comparable r1 r2 -> comparable r2 r1.
Proof. unfold comparable. tauto. Qed.

Lemma beforeb_spec r1 r2 :
  beforeb r1 r2 = true <->
  (let '(_, ahi1, _, bhi1) := r1 in
   let '(alo2, _, blo2, _) := r2 in ahi1 <= alo2 /\ bhi1 <= blo2).
Proof.
  destruct r1 as [[[alo1 ahi1] blo1] bhi1], r2 as [[[alo2 ahi2] blo2] bhi2].
  unfold beforeb. rewrite andb_true_iff, !Z.leb_le. tauto.
Qed.

(** What is comparable with a window is comparable with what lies
    inside it. *)
Lemma comparable_inside w r x :
  inside w r -> comparable x w -> comparable x r.
Proof.
  destruct w as [[[alo ahi] blo] bhi], r as [[[alo' ahi'] blo'] bhi'],
    x as [[[xalo xahi] xblo] xbhi].
  unfold inside, comparable. rewrite !beforeb_spec. lia.
Qed.

Lemma FOP_app_sym {A} (R : A -> A -> Prop) l1 l2 :
  ForallOrdPairs R l1 -> ForallOrdPairs R l2 ->
  (forall x y, In x l1 -> In y l2 -> R x y) ->
  ForallOrdPairs R (l1 ++ l2).
Proof.
  intros H1 H2 H12. induction H1 as [|x l1 Hx _ IH]; [exact H2|].
  cbn [app]. constructor.
  - apply List.Forall_app. split; [exact Hx|].
    apply List.Forall_forall. intros y Hy. apply H12; [by left|exact Hy].
  - apply IH. intros x' y Hx' Hy. apply H12; [by right|exact Hy].
Qed.

Lemma FOP_In {A} (R : A -> A -> Prop) l1 x l2 :
  (forall u v, R u v -> R v u) ->
  ForallOrdPairs R (l1 ++ x :: l2) ->
  ForallOrdPairs R (l1 ++ l2) /\ Forall (R x) (l1 ++ l2).
Proof.
  intros Hsym. induction l1 as [|y l1 IH]; cbn [app]; intros H.
  - inversion H as [|? ? Hx Hl]; subst. split; [exact Hl|].
    apply Forall_forall. intros z Hz. rewrite List.Forall_forall in Hx.
    apply Hx. by apply list_elem_of_In.
  - inversion H as [|? ? Hy Hl]; subst. destruct (IH Hl) as [Hfop Hall].
    rewrite List.Forall_forall in Hy. split.
    + constructor; [|exact Hfop]. apply List.Forall_forall. intros z Hz.
      apply Hy. apply in_app_iff in Hz as [Hz|Hz]; apply in_app_iff;
        [by left|right; by right].
    + constructor; [|exact Hall]. apply Hsym, Hy. apply in_app_iff.
      right. by left.
Qed.

End Tiling.

Section Ordered.

Variables a b : list Z.

(** The queue loop keeps the blocks and the windows pairwise before or
    after each other. *)
Lemma blocks_loop_ordered fuel : forall queue blocks,
  Forall window_ok queue ->
  ForallOrdPairs comparable (map rect_of blocks ++ queue) ->
  ForallOrdPairs comparable
    (map rect_of (Difflib.blocks_loop a b fuel queue blocks)).
Proof.
  induction fuel as [|fuel IH]; intros queue blocks Hq Hfop.
  { cbn [Difflib.blocks_loop].
    clear -Hfop. induction (map rect_of blocks) as [|x l IHl]; [constructor|].
    cbn [app] in Hfop. inversion Hfop as [|? ? Hx Hl]; subst.
    constructor; [|by apply IHl].
    apply List.Forall_app in Hx. tauto. }
  destruct queue as [|[[[alo ahi] blo] bhi] queue].
  { cbn [Difflib.blocks_loop]. by rewrite app_nil_r in Hfop. }
  cbn [Difflib.blocks_loop].
  inversion Hq as [|? ? Hwin Hq']; subst.
  pose proof (find_longest_match_window a b alo ahi blo bhi Hwin) as Hblk.
  destruct (Difflib.find_longest_match a b alo ahi blo bhi) as [[i j] k].
  destruct Hwin as [Hwa Hwb]. destruct Hblk as (Hi & Hik & Hj & Hjk & Hk).
  apply (FOP_In comparable) in Hfop as [Hrest Hw]; [|apply comparable_sym].
  destruct (Z.eqb_spec k 0) as [->|Hk0]; [by apply IH|].
  set (W := (alo, ahi, blo, bhi)) in *.
  assert (HB : inside W (rect_of (i, j, k))) by (unfold inside, W, rect_of; lia).
  assert (HwB : Forall (fun x => comparable x (rect_of (i, j, k)))
                       (map rect_of blocks ++ queue)).
  { eapply Forall_impl; [exact Hw|]. intros x Hx.
    apply (comparable_inside W); [exact HB|by apply comparable_sym]. }
  (* the two windows that may be queued *)
  set (newq := (if (i + k <? ahi) && (j + k <? bhi)
                then [(i + k, ahi, j + k, bhi)] else [])
               ++ (if (alo <? i) && (blo <? j) then [(alo, i, blo, j)] else [])).
  assert (Hqeq : (if (i + k <? ahi) && (j + k <? bhi)
                  then (i + k, ahi, j + k, bhi)
                       :: (if (alo <? i) && (blo <? j)
                           then (alo, i, blo, j) :: queue else queue)
                  else if (alo <? i) && (blo <? j)
                       then (alo, i, blo, j) :: queue else queue)
                 = newq ++ queue).
  { unfold newq. by repeat case_match. }
  rewrite Hqeq.
  assert (Hnew_in : Forall (fun r => inside W r /\ window_ok r /\
                              comparable (rect_of (i, j, k)) r) newq).
  { assert (H1 : inside W (i + k, ahi, j + k, bhi) /\
                 window_ok (i + k, ahi, j + k, bhi) /\
                 comparable (rect_of (i, j, k)) (i + k, ahi, j + k, bhi)).
    { unfold inside, W, window_ok, comparable. rewrite !beforeb_spec.
      unfold rect_of. lia. }
    assert (H2 : inside W (alo, i, blo, j) /\ window_ok (alo, i, blo, j) /\
                 comparable (rect_of (i, j, k)) (alo, i, blo, j)).
    { unfold inside, W, window_ok, comparable. rewrite !beforeb_spec.
      unfold rect_of. lia. }
    unfold newq.
    destruct ((i + k <? ahi) && (j + k <? bhi)),
             ((alo <? i) && (blo <? j)); cbn [app];
      repeat (constructor; [done|]); constructor. }
  assert (Hnew_fop : ForallOrdPairs comparable newq).
  { assert (H3 : comparable (i + k, ahi, j + k, bhi) (alo, i, blo, j)).
    { unfold comparable. rewrite !beforeb_spec. lia. }
    unfold newq.
    destruct ((i + k <? ahi) && (j + k <? bhi)),
             ((alo <? i) && (blo <? j)); cbn [app];
      repeat first [ exact H3 | apply FOP_nil | apply FOP_cons
                   | apply List.Forall_nil | apply List.Forall_cons ]. }
  apply IH.
  - apply Forall_app. split; [|exact Hq'].
    eapply Forall_impl; [exact Hnew_in|]. by intros r (_ & ? & _).
  - rewrite map_app. cbn [map]. rewrite <- app_assoc. cbn [app].
    (* blocks ++ B :: newq ++ queue *)
    apply (FOP_app_sym comparable).
    + clear -Hrest. induction (map rect_of blocks) as [|x l IHl]; [constructor|].
      cbn [app] in Hrest. inversion Hrest as [|? ? Hx Hl]; subst.
      constructor; [|by apply IHl]. apply List.Forall_app in Hx. tauto.
    + constructor.
      * apply List.Forall_app. split.
        -- apply List.Forall_forall. intros r Hr.
           rewrite Forall_forall in Hnew_in. apply list_elem_of_In in Hr.
           by apply Hnew_in in Hr as (_ & _ & ?).
        -- apply List.Forall_forall. intros r Hr.
           rewrite Forall_forall in HwB. apply comparable_sym, HwB.
           apply elem_of_app. right. by apply list_elem_of_In.
      * apply (FOP_app_sym comparable); [exact Hnew_fop| |].
        -- clear -Hrest. induction (map rect_of blocks) as [|x l IHl];
             [exact Hrest|].
           cbn [app] in Hrest. inversion Hrest; subst. by apply IHl.
        -- intros x y Hx Hy. rewrite Forall_forall in Hnew_in.
           apply list_elem_of_In in Hx. apply Hnew_in in Hx as (Hx & _ & _).
           apply comparable_sym, (comparable_inside W); [exact Hx|].
           rewrite Forall_forall in Hw. apply comparable_sym, Hw.
           apply elem_of_app. right. by apply list_elem_of_In.
    + intros x y Hx Hy. destruct Hy as [<-|Hy].
      * rewrite Forall_forall in HwB. apply HwB. apply elem_of_app. left.
        by apply list_elem_of_In.
      * apply in_app_iff in Hy as [Hy|Hy].
        -- rewrite Forall_forall in Hnew_in.
           apply list_elem_of_In in Hy. apply Hnew_in in Hy as (Hy & _ & _).
           apply (comparable_inside W); [exact Hy|].
           rewrite Forall_forall in Hw. apply comparable_sym, Hw.
           apply elem_of_app. left. by apply list_elem_of_In.
        -- clear -Hrest Hx Hy.
           induction (map rect_of blocks) as [|z l IHl]; [done|].
           cbn [app] in Hrest. inversion Hrest as [|? ? Hz Hl]; subst.
           destruct Hx as [<-|Hx]; [|by apply IHl].
           rewrite List.Forall_forall in Hz. apply Hz. apply in_app_iff.
           by right.
Qed.

End Ordered.
(* ===================================================================== *)
(** * difflib.Differ: the delta of two texts *)
(* ===================================================================== *)

(** ** The matching blocks follow each other *)

Section Chain.

Variables a b : list Z.

Lemma blocks_loop_positive fuel : forall queue blocks,
  Forall window_ok queue ->
  Forall (fun blk : Z * Z * Z => 0 < snd blk) blocks ->
  Forall (fun blk : Z * Z * Z => 0 < snd blk)
         (Difflib.blocks_loop a b fuel queue blocks).
Proof.
  induction fuel as [|fuel IH]; intros queue blocks Hq Hb; [exact Hb|].
  destruct queue as [|[[[alo ahi] blo] bhi] queue]; [exact Hb|].
  cbn [Difflib.blocks_loop].
  inversion Hq as [|? ? Hwin Hq']; subst.
  pose proof (find_longest_match_window a b alo ahi blo bhi Hwin) as Hblk.
  destruct (Difflib.find_longest_match a b alo ahi blo bhi) as [[i j] k].
  destruct Hwin as [Hwa Hwb]. destruct Hblk as (Hi & Hik & Hj & Hjk & Hk).
  destruct (Z.eqb_spec k 0) as [->|Hk0]; [by apply IH|].
  apply IH.
  - repeat case_match; repeat constructor; try done; cbn; lia.
  - apply Forall_app. split; [exact Hb|].
    constructor; [cbn [snd]; lia|constructor].
Qed.

Lemma before_trans x y z :
  0 <= snd y -> before x y -> before y z -> before x z.
Proof.
  destruct x as [[i1 j1] k1], y as [[i2 j2] k2], z as [[i3 j3] k3].
  unfold before. cbn [snd]. lia.
Qed.

Lemma leb_before x y :
  0 < snd x -> 0 < snd y -> comparable (rect_of x) (rect_of y) ->
  if Difflib.triple_leb x y then before x y else before y x.
Proof.
  destruct x as [[i1 j1] k1], y as [[i2 j2] k2].
  unfold comparable, before, Difflib.triple_leb. rewrite !beforeb_spec.
  unfold rect_of. cbn [snd]. intros Hx Hy Hc.
  destruct (Z.ltb_spec i1 i2); cbn [orb]; [lia|].
  destruct (Z.eqb_spec i1 i2); cbn [andb]; [|lia].
  repeat case_match; lia.
Qed.

Lemma insert_sorted_before x l :
  0 < snd x -> Forall (fun y : Z * Z * Z => 0 < snd y) l ->
  Forall (fun y => comparable (rect_of x) (rect_of y)) l ->
  StronglySorted before l ->
  StronglySorted before (Difflib.insert_sorted Difflib.triple_leb x l).
Proof.
  intros Hx. induction l as [|y l IH]; intros Hpos Hcmp Hs;
    cbn [Difflib.insert_sorted].
  { repeat constructor. }
  apply Forall_cons in Hpos as [Hy Hpos]. apply Forall_cons in Hcmp as [Hxy Hcmp].
  apply StronglySorted_cons in Hs as [Hyl Hs].
  pose proof (leb_before x y Hx Hy Hxy) as Hleb.
  destruct (Difflib.triple_leb x y).
  - apply StronglySorted_cons. split.
    + constructor; [exact Hleb|].
      eapply Forall_impl; [exact Hyl|]. intros z Hz.
      apply (before_trans x y z); [lia|exact Hleb|exact Hz].
    + apply StronglySorted_cons. by split.
  - apply StronglySorted_cons. split; [|by apply IH].
    rewrite insert_sorted_perm. by constructor.
Qed.

Lemma sort_by_before l :
  Forall (fun y : Z * Z * Z => 0 < snd y) l ->
  ForallOrdPairs comparable (map rect_of l) ->
  StronglySorted before (Difflib.sort_by Difflib.triple_leb l).
Proof.
  unfold Difflib.sort_by. induction l as [|x l IH]; intros Hpos Hfop;
    cbn [foldr]; [constructor|].
  apply Forall_cons in Hpos as [Hx Hpos].
  cbn [map] in Hfop. inversion Hfop as [|? ? Hxl Hl]; subst.
  apply insert_sorted_before; [exact Hx| | |by apply IH].
  - fold (Difflib.sort_by Difflib.triple_leb l). by rewrite sort_by_perm.
  - fold (Difflib.sort_by Difflib.triple_leb l). rewrite sort_by_perm.
    apply Forall_forall. intros y Hy. rewrite List.Forall_forall in Hxl.
    apply Hxl, in_map, list_elem_of_In, Hy.
Qed.

Lemma collapse_before blocks : forall cur non_adjacent,
  StronglySorted before (non_adjacent ++ cur :: blocks) ->
  StronglySorted before (Difflib.collapse blocks cur non_adjacent).
Proof.
  induction blocks as [|[[i2 j2] k2] blocks IH];
    intros [[i1 j1] k1] non_adjacent Hs; cbn [Difflib.collapse].
  - destruct (k1 =? 0); [|exact Hs]. by apply StronglySorted_app_1_l in Hs.
  - assert (Hdrop : StronglySorted before
                      ((if k1 =? 0 then non_adjacent
                        else non_adjacent ++ [(i1, j1, k1)])
                       ++ (i2, j2, k2) :: blocks)).
    { destruct (k1 =? 0).
      - apply StronglySorted_app in Hs as (H1 & H2 & H3).
        apply StronglySorted_app. split; [|split; [exact H2|]].
        + intros x y Hx Hy. apply H1; [exact Hx|]. by right.
        + by apply StronglySorted_cons in H3 as [_ ?].
      - by rewrite <- app_assoc. }
    destruct (Z.eqb_spec (i1 + k1) i2) as [Ei|_]; cbn [andb];
      [|by apply IH].
    destruct (Z.eqb_spec (j1 + k1) j2) as [Ej|_]; [|by apply IH].
    apply IH. clear Hdrop.
    apply StronglySorted_app in Hs as (H1 & H2 & H3).
    apply StronglySorted_cons in H3 as [H3 H4].
    apply Forall_cons in H3 as [H12 H3].
    apply StronglySorted_cons in H4 as [H5 H6].
    apply StronglySorted_app. split; [|split; [exact H2|]].
    + intros x y Hx Hy. apply elem_of_cons in Hy as [->|Hy].
      * specialize (H1 x (i1, j1, k1) Hx ltac:(by left)).
        destruct x as [[i0 j0] k0]. exact H1.
      * apply H1; [exact Hx|]. right. by right.
    + apply StronglySorted_cons. split; [|exact H6].
      eapply Forall_impl; [exact H5|]. intros [[i3 j3] k3].
      unfold before. lia.
Qed.

(** The matching blocks are common substrings that follow each other in
    both sequences; the last one is the sentinel. *)
Lemma matching_blocks_before :
  StronglySorted before (Difflib.get_matching_blocks a b).
Proof.
  unfold Difflib.get_matching_blocks. cbv zeta.
  set (l := Difflib.blocks_loop a b _ _ _).
  assert (Hc : Forall (common_block a b) l).
  { apply blocks_loop_common; [|constructor].
    repeat constructor; unfold Difflib.len; lia. }
  assert (Hs : StronglySorted before (Difflib.sort_by Difflib.triple_leb l)).
  { apply sort_by_before.
    - apply blocks_loop_positive; [|constructor].
      repeat constructor; unfold Difflib.len; lia.
    - apply blocks_loop_ordered.
      + repeat constructor; unfold Difflib.len; lia.
      + cbn [map app]. repeat constructor. }
  apply StronglySorted_app. split; [|split].
  - intros x y Hx Hy. apply list_elem_of_singleton in Hy as ->.
    assert (Hcx : common_block a b x).
    { revert x Hx. apply Forall_forall. apply collapse_common.
      - by rewrite sort_by_perm.
      - unfold common_block, Difflib.len. repeat split; lia.
      - constructor. }
    destruct x as [[i j] k]. unfold common_block in Hcx. unfold before. lia.
  - apply collapse_before. cbn [app]. apply StronglySorted_cons.
    split; [|exact Hs]. rewrite sort_by_perm.
    eapply Forall_impl; [exact Hc|]. intros [[i j] k].
    unfold common_block, before. lia.
  - repeat constructor.
Qed.

End Chain.

(** ** Slices *)

Section Slices.

Lemma slice_nil x lo hi : hi <= lo -> slice x lo hi = [].
Proof. intros H. unfold slice. by rewrite seqZ_nil by lia. Qed.

Lemma slice_cons x lo hi :
  lo < hi -> slice x lo hi = Difflib.item x lo :: slice x (lo + 1) hi.
Proof.
  intros H. unfold slice. rewrite seqZ_cons by lia. cbn [map].
  replace (Z.succ lo) with (lo + 1) by lia.
  by replace (Z.pred (hi - lo)) with (hi - (lo + 1)) by lia.
Qed.

Lemma slice_app x lo mid hi :
  lo <= mid -> mid <= hi -> slice x lo hi = slice x lo mid ++ slice x mid hi.
Proof.
  intros H1 H2. unfold slice.
  replace (hi - lo) with ((mid - lo) + (hi - mid)) by lia.
  rewrite seqZ_app by lia. rewrite map_app.
  replace (lo + (mid - lo)) with mid by lia. done.
Qed.

Lemma slice_split x lo i hi :
  lo <= i < hi ->
  slice x lo hi = slice x lo i ++ Difflib.item x i :: slice x (i + 1) hi.
Proof.
  intros H. rewrite (slice_app x lo i hi) by lia. f_equal.
  apply slice_cons. lia.
Qed.

Lemma slice_all x : slice x 0 (Difflib.len x) = x.
Proof.
  unfold slice, Difflib.len. apply list_eq. intros i.
  rewrite list_lookup_fmap.
  destruct (decide (i < length x)%nat) as [Hlt|Hge].
  - rewrite lookup_seqZ_lt by lia. cbn [fmap option_fmap option_map].
    destruct (lookup_lt_is_Some_2 x i Hlt) as [v Hv]. rewrite Hv. f_equal.
    unfold Difflib.item. replace (Z.to_nat (0 + Z.of_nat i)) with i by lia.
    by apply nth_lookup_Some.
  - rewrite lookup_seqZ_ge by lia. symmetry. apply lookup_ge_None. lia.
Qed.

Lemma slice_equal a b i j k :
  equal_block a b (i, j, k) -> slice a i (i + k) = slice b j (j + k).
Proof.
  unfold equal_block, slice. intros Heq.
  replace (i + k - i) with k by lia. replace (j + k - j) with k by lia.
  rewrite <- (Z.add_0_r i) at 1. rewrite <- (Z.add_0_r j) at 1.
  rewrite <- !fmap_add_seqZ. rewrite <- !list_fmap_compose.
  apply Forall_fmap_ext_1. apply Forall_seqZ. intros t Ht. cbn.
  apply Heq. lia.
Qed.

End Slices.

(** ** Opcodes *)

Section Opcodes.

Variables a b : list Z.

(** [get_opcodes] on blocks that follow each other: the opcodes tile the
    two sequences up to the end of the last block. *)
Lemma opcodes_fold blocks : forall i j answer,
  StronglySorted before blocks ->
  Forall (fun blk : Z * Z * Z =>
            i <= fst (fst blk) /\ j <= snd (fst blk)) blocks ->
  Forall (fun blk : Z * Z * Z => 0 <= snd blk) blocks ->
  Forall (equal_block a b) blocks ->
  exists ops i' j',
    fold_left Difflib.opcodes_step blocks (i, j, answer)
    = (i', j', answer ++ ops) /\
    tiles i j ops i' j' /\ Forall (op_ok a b) ops /\
    (i', j') = default (i, j)
                 (last (map (fun blk : Z * Z * Z =>
                               (fst (fst blk) + snd blk,
                                snd (fst blk) + snd blk)) blocks)).
Proof.
  induction blocks as [|[[ai bj] size] blocks IH];
    intros i j answer Hs Hstart Hsize Heq.
  { exists [], i, j. cbn. rewrite app_nil_r. by repeat split. }
  apply StronglySorted_cons in Hs as [Hhead Hs].
  apply Forall_cons in Hstart as [[Hi Hj] _]. cbn [fst snd] in Hi, Hj.
  apply Forall_cons in Hsize as [Hk Hsize]. cbn [snd] in Hk.
  apply Forall_cons in Heq as [Hblk Heq].
  cbn [fold_left]. unfold Difflib.opcodes_step at 2.
  match goal with |- context [fold_left _ _ (_, _, ?ans)] =>
    destruct (IH (ai + size) (bj + size) ans Hs) as (ops & i' & j' & Hf & Ht & Hok & Hend)
  end; [|exact Hsize|exact Heq|].
  { eapply Forall_impl; [exact Hhead|]. intros [[i2 j2] k2]. unfold before.
    cbn [fst snd]. lia. }
  rewrite Hf.
  assert (Hlast : (i', j')
                  = default (i, j)
                      (last (map (fun blk : Z * Z * Z =>
                                    (fst (fst blk) + snd blk,
                                     snd (fst blk) + snd blk))
                                 ((ai, bj, size) :: blocks)))).
  { rewrite Hend. cbn [map fst snd].
    destruct (map _ blocks) as [|x l] eqn:E; [done|].
    rewrite last_cons_cons. destruct (last (x :: l)) eqn:E2; [done|].
    by apply last_None in E2. }
  assert (Hequal : op_ok a b (Difflib.op_equal, ai, ai + size, bj, bj + size)).
  { unfold op_ok. by apply slice_equal. }
  destruct (Z.ltb_spec i ai) as [Hlt1|Hge1];
    destruct (Z.ltb_spec j bj) as [Hlt2|Hge2]; cbn [andb];
    destruct (Z.eqb_spec size 0) as [Hz|Hnz];
    rewrite <- ?app_assoc; eexists _, i', j';
    (split; [reflexivity|]); (split; [|split; [|exact Hlast]]);
    cbn [app tiles]; repeat split; try lia;
    try (subst size; replace (ai + 0) with ai in Ht by lia;
         replace (bj + 0) with bj in Ht by lia);
    try exact Ht;
    try (replace i with ai by lia); try (replace j with bj by lia);
    try exact Ht;
    repeat (apply Forall_cons; split); try exact Hok; try exact Hequal;
    unfold op_ok; lia.
Qed.

Lemma get_opcodes_spec :
  tiles 0 0 (Difflib.get_opcodes a b) (Difflib.len a) (Difflib.len b) /\
  Forall (op_ok a b) (Difflib.get_opcodes a b).
Proof.
  unfold Difflib.get_opcodes.
  pose proof (matching_blocks_common a b) as Hc.
  destruct (opcodes_fold (Difflib.get_matching_blocks a b) 0 0 [])
    as (ops & i' & j' & Hf & Ht & Hok & Hend).
  - apply matching_blocks_before.
  - eapply Forall_impl; [exact Hc|]. intros [[i j] k]. unfold common_block.
    cbn [fst snd]. lia.
  - eapply Forall_impl; [exact Hc|]. intros [[i j] k]. unfold common_block.
    cbn [snd]. lia.
  - eapply Forall_impl; [exact Hc|]. intros [[i j] k].
    unfold common_block, equal_block. tauto.
  - rewrite Hf. cbn [snd app].
    unfold Difflib.get_matching_blocks in Hend. cbv zeta in Hend.
    rewrite map_app in Hend. cbn [map] in Hend. rewrite last_snoc in Hend.
    cbn [default fst snd] in Hend.
    injection Hend as -> ->. rewrite !Z.add_0_r in Ht. by split.
Qed.

End Opcodes.

(** ** The lines of a delta *)

Section Deltas.

Lemma replace1_nonempty old new s :
  new <> [] -> s <> [] -> replace1 old new s <> [].
Proof.
  intros Hn Hs. destruct s as [|c s]; [done|]. unfold replace1.
  cbn [flat_map]. destruct (c =? old); [by destruct new|done].
Qed.

Lemma html_escape_nonempty s : s <> [] -> html_escape s <> [].
Proof.
  intros H. unfold html_escape. cbv zeta.
  repeat apply replace1_nonempty; try exact H; py_eval; done.
Qed.

Lemma strip_single c : strip [c] = if is_space c then [] else [c].
Proof.
  unfold strip, rstrip. cbn [lstrip].
  destruct (is_space c) eqn:E; cbn [rev app lstrip]; [done|]. by rewrite E.
Qed.

Lemma annotation_app s1 s2 :
  annotation (s1 ++ s2) = annotation s1 ++ annotation s2.
Proof. unfold annotation. by rewrite List.filter_app, map_app, concat_app. Qed.

Lemma delta_nil : delta [] [] [].
Proof. by repeat split. Qed.

Lemma delta_app l1 l2 o1 o2 n1 n2 :
  delta l1 o1 n1 -> delta l2 o2 n2 -> delta (l1 ++ l2) (o1 ++ o2) (n1 ++ n2).
Proof.
  unfold delta, script_of, old_side, new_side.
  intros (H1 & H2 & H3) (H4 & H5 & H6).
  rewrite !flat_map_app, map_app, concat_app, annotation_app.
  by rewrite H1, H2, H3, H4, H5, H6.
Qed.

Lemma delta_same c : delta [[32; 32; c]] [c] [c].
Proof.
  unfold delta, script_of. cbn [flat_map edit_of_line]. py_eval.
  cbn [Z.eqb Pos.eqb negb app]. repeat split.
  cbn [map concat]. rewrite app_nil_r. unfold diff_part. cbv zeta. py_eval.
  cbn [startswith andb Z.eqb Pos.eqb drop]. rewrite strip_single.
  unfold annotation, visible. cbn [List.filter edited].
  destruct (is_space c); cbn [negb map concat render]; [done|].
  by rewrite app_nil_r.
Qed.

Lemma delta_removed c : delta [[45; 32; c]] [c] [].
Proof.
  unfold delta, script_of. cbn [flat_map edit_of_line]. py_eval.
  cbn [Z.eqb Pos.eqb negb app]. repeat split.
  cbn [map concat]. rewrite app_nil_r. unfold diff_part. cbv zeta. py_eval.
  cbn [startswith andb Z.eqb Pos.eqb drop]. rewrite strip_single.
  unfold annotation, visible. cbn [List.filter edited].
  destruct (is_space c); cbn [negb map concat render]; [done|].
  rewrite app_nil_r. pose proof (html_escape_nonempty [c] ltac:(done)) as Hne.
  py_eval. by destruct (html_escape [c]).
Qed.

Lemma delta_added c : delta [[43; 32; c]] [] [c].
Proof.
  unfold delta, script_of. cbn [flat_map edit_of_line]. py_eval.
  cbn [Z.eqb Pos.eqb negb app]. repeat split.
  cbn [map concat]. rewrite app_nil_r. unfold diff_part. cbv zeta. py_eval.
  cbn [startswith andb Z.eqb Pos.eqb drop]. rewrite strip_single.
  unfold annotation, visible. cbn [List.filter edited].
  destruct (is_space c); cbn [negb map concat render]; [done|].
  rewrite app_nil_r. pose proof (html_escape_nonempty [c] ltac:(done)) as Hne.
  py_eval. by destruct (html_escape [c]).
Qed.

(** A hint line stands for no step and gives no HTML. *)
Lemma delta_hint tags : delta [63 :: 32 :: tags] [] [].
Proof.
  unfold delta, script_of. cbn [flat_map app].
  assert (He : edit_of_line (63 :: 32 :: tags) = []).
  { unfold edit_of_line. by destruct tags as [|c [|]]. }
  rewrite He. by repeat split.
Qed.

Lemma delta_dump_same x l :
  delta (map (fun i => 32 :: 32 :: Differ.line x i) l)
        (map (Difflib.item x) l) (map (Difflib.item x) l).
Proof.
  induction l as [|i l IH]; [apply delta_nil|]. cbn [map].
  apply (delta_app [_] _ [_] _ [_] _); [apply delta_same|exact IH].
Qed.

Lemma delta_dump_removed x l :
  delta (map (fun i => 45 :: 32 :: Differ.line x i) l)
        (map (Difflib.item x) l) [].
Proof.
  induction l as [|i l IH]; [apply delta_nil|]. cbn [map].
  apply (delta_app [_] _ [_] _ [] []); [apply delta_removed|exact IH].
Qed.

Lemma delta_dump_added x l :
  delta (map (fun i => 43 :: 32 :: Differ.line x i) l)
        [] (map (Difflib.item x) l).
Proof.
  induction l as [|i l IH]; [apply delta_nil|]. cbn [map].
  apply (delta_app [_] _ [] [] [_] _); [apply delta_added|exact IH].
Qed.

Lemma delta_plain_replace a alo ahi b blo bhi :
  delta (Differ._plain_replace a alo ahi b blo bhi)
        (slice a alo ahi) (slice b blo bhi).
Proof.
  unfold Differ._plain_replace, Differ._dump. py_eval.
  destruct (bhi - blo <? ahi - alo).
  - rewrite <- (app_nil_l (slice a alo ahi)), <- (app_nil_r (slice b blo bhi)).
    apply delta_app; [apply delta_dump_added|apply delta_dump_removed].
  - rewrite <- (app_nil_r (slice a alo ahi)), <- (app_nil_l (slice b blo bhi)).
    apply delta_app; [apply delta_dump_removed|apply delta_dump_added].
Qed.

Lemma delta_qformat ca cb atags btags :
  delta (Differ._qformat [ca] [cb] atags btags) [ca] [cb].
Proof.
  unfold Differ._qformat. cbv zeta. py_eval. cbn [app].
  set (ta := rstrip _). set (tb := rstrip _).
  assert (Ha : delta match ta with
                     | [] => []
                     | _ :: _ => [63 :: 32 :: ta ++ [10]]
                     end [] []).
  { destruct ta; [apply delta_nil|apply delta_hint]. }
  assert (Hb : delta match tb with
                     | [] => []
                     | _ :: _ => [63 :: 32 :: tb ++ [10]]
                     end [] []).
  { destruct tb; [apply delta_nil|apply delta_hint]. }
  change (delta ([[45; 32; ca]] ++
                 match ta with
                 | [] => []
                 | _ :: _ => [63 :: 32 :: ta ++ [10]]
                 end ++ [[43; 32; cb]] ++
                 match tb with
                 | [] => []
                 | _ :: _ => [63 :: 32 :: tb ++ [10]]
                 end) ([ca] ++ [] ++ [] ++ []) ([] ++ [] ++ [cb] ++ [])).
  repeat apply delta_app; try done; [apply delta_removed|apply delta_added].
Qed.

Lemma delta_intraline ca cb : delta (Differ.intraline [ca] [cb]) [ca] [cb].
Proof.
  unfold Differ.intraline. destruct (fold_left _ _ _) as [atags btags].
  apply delta_qformat.
Qed.

End Deltas.

(** ** The search for a synch pair *)

Section Search.

Variables a b : list Z.

Lemma fold_left_invariant {A B} (P : A -> Prop) (Q : B -> Prop)
    (f : A -> B -> A) l : forall st,
  Forall Q l -> (forall st x, Q x -> P st -> P (f st x)) -> P st ->
  P (fold_left f l st).
Proof.
  induction l as [|x l IH]; intros st Hl Hf Hst; [exact Hst|].
  apply Forall_cons in Hl as [Hx Hl]. cbn [fold_left].
  apply IH; [exact Hl|exact Hf|by apply Hf].
Qed.

Lemma search_step_ok alo ahi blo bhi j st i :
  alo <= i < ahi -> blo <= j < bhi ->
  search_ok a b alo ahi blo bhi st ->
  search_ok a b alo ahi blo bhi (Differ.search_step a b j st i).
Proof.
  intros Hi Hj (Heq & Hbest & Hnone). unfold Differ.search_step. cbv zeta.
  destruct (str_eqb (Differ.line a i) (Differ.line b j)) eqn:E.
  - destruct (Differ.eq_pair st) as [p|] eqn:Ep.
    { unfold search_ok. rewrite Ep.
      split; [exact Heq|split; [exact Hbest|exact Hnone]]. }
    unfold search_ok.
    cbn [Differ.eq_pair Differ.best_pair Differ.best_ratio].
    split; [|by split]. intros i' j' [= <- <-].
    split; [lia|]. split; [lia|].
    unfold Differ.line in E. cbn [str_eqb] in E.
    apply andb_prop in E as [E _]. by apply Z.eqb_eq in E.
  - match goal with |- context [if ?c then _ else _] => destruct c end;
      [|split; [exact Heq|split; [exact Hbest|exact Hnone]]].
    unfold search_ok.
    cbn [Differ.eq_pair Differ.best_pair Differ.best_ratio].
    split; [exact Heq|]. split; [|discriminate].
    intros i' j' [= <- <-]. lia.
Qed.

Lemma search_spec alo ahi blo bhi :
  search_ok a b alo ahi blo bhi (Differ.search a alo ahi b blo bhi).
Proof.
  unfold Differ.search.
  apply (fold_left_invariant _ (fun j => blo <= j < bhi)).
  - apply Forall_seqZ. intros j Hj. lia.
  - intros st j Hj Hst.
    apply (fold_left_invariant _ (fun i => alo <= i < ahi)); [| |exact Hst].
    + apply Forall_seqZ. intros i Hi. lia.
    + intros st' i Hi Hst'. by apply search_step_ok.
  - by repeat split.
Qed.

End Search.

(** ** The delta *)

Section Fancy.

Variables a b : list Z.

Lemma helper_delta
    (fancy : list Z -> Z -> Z -> list Z -> Z -> Z -> option (list (list Z)))
    alo ahi blo bhi lines :
  (forall alo ahi blo bhi lines,
     fancy a alo ahi b blo bhi = Some lines ->
     delta lines (slice a alo ahi) (slice b blo bhi)) ->
  Differ._fancy_helper fancy a alo ahi b blo bhi = Some lines ->
  delta lines (slice a alo ahi) (slice b blo bhi).
Proof.
  intros IH. unfold Differ._fancy_helper, Differ._dump. py_eval.
  destruct (Z.ltb_spec alo ahi), (Z.ltb_spec blo bhi).
  - apply IH.
  - intros [= <-]. rewrite (slice_nil b) by lia. apply delta_dump_removed.
  - intros [= <-]. rewrite (slice_nil a) by lia. apply delta_dump_added.
  - intros [= <-]. rewrite !slice_nil by lia. apply delta_nil.
Qed.

(** Whatever the depth, the lines that [_fancy_replace] returns are a
    delta from its range of [a] to its range of [b]. *)
Lemma fancy_delta depth : forall alo ahi blo bhi lines,
  Differ._fancy_replace depth a alo ahi b blo bhi = Some lines ->
  delta lines (slice a alo ahi) (slice b blo bhi).
Proof.
  induction depth as [|depth IH]; intros alo ahi blo bhi lines;
    [discriminate|].
  cbn [Differ._fancy_replace]. cbv zeta.
  destruct (search_spec a b alo ahi blo bhi) as (Heq & Hbest & Hnone).
  destruct (Differ.Qltb _ _).
  - destruct (Differ.eq_pair _) as [[eqi eqj]|] eqn:Ee.
    + destruct (Heq _ _ eq_refl) as (Hi & Hj & Hitem).
      destruct (Differ._fancy_helper _ a alo eqi b blo eqj)
        as [lines1|] eqn:E1; [|discriminate].
      destruct (Differ._fancy_helper _ a (eqi + 1) ahi b (eqj + 1) bhi)
        as [lines2|] eqn:E2; [|discriminate].
      intros [= <-].
      apply helper_delta in E1; [|exact IH].
      apply helper_delta in E2; [|exact IH].
      rewrite (slice_split a alo eqi ahi), (slice_split b blo eqj bhi) by lia.
      apply delta_app; [exact E1|].
      apply (delta_app [_] _ [_] _ [_] _); [|exact E2].
      unfold Differ.line. py_eval. cbn [app]. rewrite <- Hitem.
      apply delta_same.
    + intros [= <-]. apply delta_plain_replace.
  - destruct (Differ.best_pair _) as [[best_i best_j]|] eqn:Eb; [|discriminate].
    destruct (Hbest _ _ eq_refl) as (Hi & Hj).
    destruct (Differ._fancy_helper _ a alo best_i b blo best_j)
      as [lines1|] eqn:E1; [|discriminate].
    destruct (Differ._fancy_helper _ a (best_i + 1) ahi b (best_j + 1) bhi)
      as [lines2|] eqn:E2; [|discriminate].
    intros [= <-].
    apply helper_delta in E1; [|exact IH].
    apply helper_delta in E2; [|exact IH].
    rewrite (slice_split a alo best_i ahi), (slice_split b blo best_j bhi)
      by lia.
    apply delta_app; [exact E1|].
    apply (delta_app _ _ [_] _ [_] _); [|exact E2].
    apply delta_intraline.
Qed.

Lemma helper_returns
    (fancy : list Z -> Z -> Z -> list Z -> Z -> Z -> option (list (list Z)))
    (depth : nat) alo ahi blo bhi :
  (forall alo ahi blo bhi,
     alo < ahi -> blo < bhi ->
     ahi - alo <= Z.of_nat depth \/ bhi - blo <= Z.of_nat depth ->
     is_Some (fancy a alo ahi b blo bhi)) ->
  ahi - alo <= Z.of_nat depth \/ bhi - blo <= Z.of_nat depth ->
  is_Some (Differ._fancy_helper fancy a alo ahi b blo bhi).
Proof.
  intros IH Hd. unfold Differ._fancy_helper.
  destruct (Z.ltb_spec alo ahi), (Z.ltb_spec blo bhi); try done.
  by apply IH.
Qed.

(** [_fancy_replace] returns when the shorter of its two ranges has at
    most [depth] lines: every level of the recursion takes one line out
    of each range. *)
Lemma fancy_returns depth : forall alo ahi blo bhi,
  alo < ahi -> blo < bhi ->
  ahi - alo <= Z.of_nat depth \/ bhi - blo <= Z.of_nat depth ->
  is_Some (Differ._fancy_replace depth a alo ahi b blo bhi).
Proof.
  induction depth as [|depth IH]; intros alo ahi blo bhi Ha Hb Hd; [lia|].
  cbn [Differ._fancy_replace]. cbv zeta.
  destruct (search_spec a b alo ahi blo bhi) as (Heq & Hbest & Hnone).
  destruct (Differ.Qltb _ _) eqn:Elt.
  - destruct (Differ.eq_pair _) as [[eqi eqj]|] eqn:Ee; [|done].
    destruct (Heq _ _ eq_refl) as (Hi & Hj & _).
    destruct (helper_returns (Differ._fancy_replace depth) depth
                alo eqi blo eqj IH) as [lines1 ->]; [lia|].
    destruct (helper_returns (Differ._fancy_replace depth) depth
                (eqi + 1) ahi (eqj + 1) bhi IH) as [lines2 ->]; [lia|].
    done.
  - destruct (Differ.best_pair _) as [[best_i best_j]|] eqn:Eb.
    + destruct (Hbest _ _ eq_refl) as (Hi & Hj).
      destruct (helper_returns (Differ._fancy_replace depth) depth
                  alo best_i blo best_j IH) as [lines1 ->]; [lia|].
      destruct (helper_returns (Differ._fancy_replace depth) depth
                  (best_i + 1) ahi (best_j + 1) bhi IH) as [lines2 ->]; [lia|].
      done.
    + rewrite (Hnone eq_refl) in Elt. discriminate Elt.
Qed.

Lemma tiles_le ops : forall i j i' j',
  tiles i j ops i' j' -> i <= i' /\ j <= j'.
Proof.
  induction ops as [|[[[[tag alo] ahi] blo] bhi] ops IH]; intros i j i' j';
    cbn [tiles]; [lia|].
  intros (-> & -> & Ha & Hb & Ht). apply IH in Ht. lia.
Qed.

Lemma compare_fold_None depth ops :
  fold_left (Differ.compare_step depth a b) ops None = None.
Proof. induction ops; [done|]. exact IHops. Qed.

Lemma compare_fold depth ops : forall i j i' j' out out',
  tiles i j ops i' j' -> Forall (op_ok a b) ops ->
  fold_left (Differ.compare_step depth a b) ops (Some out) = Some out' ->
  exists lines,
    out' = out ++ lines /\ delta lines (slice a i i') (slice b j j').
Proof.
  induction ops as [|[[[[tag alo] ahi] blo] bhi] ops IH];
    intros i j i' j' out out'; cbn [tiles fold_left].
  { intros [<- <-] _ [= <-]. exists []. rewrite app_nil_r.
    rewrite !slice_nil by lia. split; [done|apply delta_nil]. }
  intros (Ei & Ej & Ha & Hb & Ht) Hok. subst i j.
  apply Forall_cons in Hok as [Hop Hok].
  pose proof (tiles_le _ _ _ _ _ Ht) as [Hi' Hj'].
  unfold Differ.compare_step at 2. unfold Differ._dump. py_eval.
  assert (Hg : forall g,
            delta g (slice a alo ahi) (slice b blo bhi) ->
            fold_left (Differ.compare_step depth a b) ops (Some (out ++ g))
            = Some out' ->
            exists lines,
              out' = out ++ lines /\ delta lines (slice a alo i') (slice b blo j')).
  { intros g Hd Hf.
    destruct (IH _ _ _ _ _ _ Ht Hok Hf) as (lines & -> & Hl).
    exists (g ++ lines). rewrite app_assoc. split; [done|].
    rewrite (slice_app a alo ahi i'), (slice_app b blo bhi j') by lia.
    by apply delta_app. }
  unfold op_ok in Hop. destruct tag.
  - destruct (Differ._fancy_replace depth a alo ahi b blo bhi) as [g|] eqn:E;
      [|by rewrite compare_fold_None].
    apply Hg. by apply fancy_delta in E.
  - apply Hg. subst bhi. rewrite (slice_nil b) by lia.
    apply delta_dump_removed.
  - apply Hg. subst ahi. rewrite (slice_nil a) by lia.
    apply delta_dump_added.
  - apply Hg. rewrite <- Hop. apply delta_dump_same.
Qed.

Lemma compare_fold_returns depth ops : forall i j i' j' out,
  tiles i j ops i' j' -> Forall (op_ok a b) ops ->
  i' - i <= Z.of_nat depth \/ j' - j <= Z.of_nat depth ->
  is_Some (fold_left (Differ.compare_step depth a b) ops (Some out)).
Proof.
  induction ops as [|[[[[tag alo] ahi] blo] bhi] ops IH];
    intros i j i' j' out; cbn [tiles fold_left]; [done|].
  intros (Ei & Ej & Ha & Hb & Ht) Hok Hd. subst i j.
  apply Forall_cons in Hok as [Hop Hok].
  pose proof (tiles_le _ _ _ _ _ Ht) as [Hi' Hj'].
  unfold Differ.compare_step at 2. unfold op_ok in Hop.
  destruct tag; try (eapply IH; [exact Ht|exact Hok|lia]).
  destruct (fancy_returns depth alo ahi blo bhi) as [g ->]; [lia..|].
  eapply IH; [exact Ht|exact Hok|lia].
Qed.

(** The delta of two texts, when [compare] returns it, is a delta from
    the first to the second. *)
Lemma compare_delta depth lines :
  Differ.compare depth a b = Some lines -> delta lines a b.
Proof.
  unfold Differ.compare. intros H.
  destruct get_opcodes_spec with (a := a) (b := b) as [Ht Hok].
  destruct (compare_fold _ _ _ _ _ _ _ _ Ht Hok H) as (l & -> & Hd).
  by rewrite !slice_all in Hd.
Qed.

(** [compare] returns when the shorter text has at most [depth]
    characters. *)
Lemma compare_returns depth :
  (Nat.min (length a) (length b) <= depth)%nat ->
  is_Some (Differ.compare depth a b).
Proof.
  intros Hd. unfold Differ.compare.
  destruct get_opcodes_spec with (a := a) (b := b) as [Ht Hok].
  apply (compare_fold_returns _ _ _ _ _ _ _ Ht Hok).
  unfold Difflib.len. lia.
Qed.

End Fancy.

(** The HTML of a diff is the HTML of an edit script from the old text
    to the new one. *)
Lemma generate_unified_html_diff_script depth old_text new_text html :
  generate_unified_html_diff depth old_text new_text = Some html ->
  exists script,
    old_side script = old_text /\ new_side script = new_text /\
    html = annotation script.
Proof.
  unfold generate_unified_html_diff.
  destruct (Differ.compare depth old_text new_text) as [lines|] eqn:E;
    [|discriminate].
  intros [= <-]. apply compare_delta in E as (H1 & H2 & H3).
  by exists (script_of lines).
Qed.

Lemma generate_unified_html_diff_returns depth old_text new_text :
  (Nat.min (length old_text) (length new_text) <= depth)%nat ->
  is_Some (generate_unified_html_diff depth old_text new_text).
Proof.
  intros H. unfold generate_unified_html_diff.
  by destruct (compare_returns old_text new_text depth H) as [lines ->].
Qed.

(* ===================================================================== *)
(** * C8: identical and modified pairs *)
(* ===================================================================== *)

Section DiffCalls.

Variable depth : nat.
Variables law1 law2 : Law.

(** The diffs of a comparison are within the depth when the shorter of
    any two contents is. *)
Lemma within_depth_returns ms :
  within_depth depth law1 law2 = true ->
  forallb (diff_returns depth law1 law2) ms = true.
Proof.
  intros Hw. apply forallb_forall. intros e _.
  unfold diff_returns, diff_call.
  destruct (article2_num e =? -1); [done|].
  destruct (dict_get (articles law1) (article1_num e)) as [a1|] eqn:E1;
    [|done].
  destruct (dict_get (articles law2) (article2_num e)) as [a2|] eqn:E2;
    [|done].
  destruct (Qgeb (similarity e) (98 # 100)); [done|].
  apply dict_get_In in E1, E2. unfold within_depth in Hw.
  rewrite forallb_forall in Hw. specialize (Hw _ E1). cbn [snd] in Hw.
  rewrite forallb_forall in Hw. specialize (Hw _ E2). cbn [snd] in Hw.
  apply Nat.leb_le in Hw.
  by destruct (compare_returns (content a1) (content a2) depth Hw)
    as [lines ->].
Qed.

(** An entry whose diff returns adds to the list ['modified'] a record
    that carries the HTML of an edit script between its two contents. *)
Lemma modified_records_script e a1 a2 :
  diff_returns depth law1 law2 e = true ->
  article2_num e <> -1 ->
  dict_get (articles law1) (article1_num e) = Some a1 ->
  dict_get (articles law2) (article2_num e) = Some a2 ->
  (similarity e < 98 # 100)%Q ->
  exists script,
    old_side script = content a1 /\ new_side script = content a2 /\
    generate_unified_html_diff depth (content a1) (content a2)
    = Some (annotation script) /\
    modified_records depth law1 law2 e
    = [{| md_old_number := article1_num e;
          md_new_number := article2_num e;
          old_content := content a1;
          new_content := content a2;
          md_similarity := similarity e;
          md_match_type := match_type e;
          old_chapter_info := chapter_info_of law1 a1;
          new_chapter_info := chapter_info_of law2 a2;
          unified_diff_html := annotation script |}].
Proof.
  intros Hret Hne Hget1 Hget2 Hsim. apply Qgeb_false in Hsim.
  unfold diff_returns, diff_call in Hret. unfold modified_records.
  rewrite Hget1, Hget2, Hsim in *.
  destruct (Z.eqb_spec (article2_num e) (-1)); [done|].
  destruct (generate_unified_html_diff depth (content a1) (content a2))
    as [html|] eqn:E.
  - destruct (generate_unified_html_diff_script _ _ _ _ E)
      as (script & H1 & H2 & ->).
    by exists script.
  - unfold generate_unified_html_diff in E.
    by destruct (Differ.compare depth (content a1) (content a2)).
Qed.

(** The records of the list ['modified']. *)
Lemma modified_records_inv e x :
  In x (modified_records depth law1 law2 e) ->
  (md_similarity x < 98 # 100)%Q /\
  exists script,
    old_side script = old_content x /\ new_side script = new_content x /\
    unified_diff_html x = annotation script.
Proof.
  unfold modified_records.
  destruct (article2_num e =? -1); [done|].
  destruct (dict_get (articles law1) (article1_num e)) as [a1|]; [|done].
  destruct (dict_get (articles law2) (article2_num e)) as [a2|]; [|done].
  destruct (Qgeb (similarity e) (98 # 100)) eqn:Es; [done|].
  destruct (generate_unified_html_diff depth (content a1) (content a2))
    as [html|] eqn:E; [|done].
  intros [<-|[]].
  cbn [md_similarity unified_diff_html old_content new_content].
  split; [by apply Qgeb_false|].
  destruct (generate_unified_html_diff_script _ _ _ _ E)
    as (script & H1 & H2 & ->).
  by exists script.
Qed.

End DiffCalls.

(** A comparison of parsed documents returns when the diff library has
    the depth for the shorter of any two contents. *)
Lemma compare_articles_returns depth self law1 law2 :
  parsed_numbers (articles law2) ->
  within_depth depth law1 law2 = true ->
  exists r, compare_articles depth self law1 law2 = Some r.
Proof.
  intros Hp Hw.
  destruct (compare_articles_spec depth self law1 law2 Hp)
    as (mr & _ & _ & Hok).
  destruct (Hok (within_depth_returns _ _ _ _ Hw)) as (r & Hr & _).
  by exists r.
Qed.

Lemma forallb_false {A} (p : A -> bool) l :
  forallb p l = false -> exists x, In x l /\ p x = false.
Proof.
  induction l as [|x l IH]; [discriminate|]. cbn [forallb].
  destruct (p x) eqn:E.
  - intros H. destruct (IH H) as (y & Hy & Hpy). exists y. by split; [right|].
  - intros _. exists x. by split; [left|].
Qed.

(** A comparison of parsed documents fails only with the diff of one of
    its entries. *)
Lemma compare_articles_fails depth self law1 law2 mr :
  parsed_numbers (articles law2) ->
  intelligent_article_matching self (articles law1) (articles law2) = Some mr ->
  compare_articles depth self law1 law2 = None ->
  exists e content1 content2,
    In e (result_matches mr) /\
    diff_call law1 law2 e = Some (content1, content2) /\
    Differ.compare depth content1 content2 = None.
Proof.
  intros Hp Hmr Hnone.
  destruct (compare_articles_spec depth self law1 law2 Hp)
    as (mr' & Hmr' & _ & Hok).
  rewrite Hmr in Hmr'. injection Hmr' as <-.
  destruct (forallb (diff_returns depth law1 law2) (result_matches mr)) eqn:E.
  { destruct (Hok eq_refl) as (r & Hr & _). congruence. }
  apply forallb_false in E as (e & He & Hret). exists e.
  unfold diff_returns in Hret.
  destruct (diff_call law1 law2 e) as [[content1 content2]|]; [|discriminate].
  exists content1, content2. split; [exact He|]. split; [reflexivity|].
  by destruct (Differ.compare depth content1 content2).
Qed.

(** C8. In a comparison of parsed documents, every matched pair (manual
    or auto) is in the list "identical" when its recorded similarity is at
    least 0.98 and in the list "modified" when it is below; the list
    "identical" holds only records of similarity at least 0.98 and the
    list "modified" only records of similarity below 0.98. Every modified
    record carries its character-level diff: the HTML of an edit script
    whose kept and removed characters spell the old content and whose
    kept and added characters spell the new content, the removed and the
    added ones inside their [span] markers. The comparison returns when
    the diff library has the depth for the shorter of any two contents. *)
Theorem C8_identical_or_modified :
  forall depth self law1 law2,
    parsed_numbers (articles law2) ->
    exists mr,
      intelligent_article_matching self (articles law1) (articles law2)
      = Some mr /\
      (within_depth depth law1 law2 = true ->
         exists r, compare_articles depth self law1 law2 = Some r) /\
      forall r,
        compare_articles depth self law1 law2 = Some r ->
        (forall e, In e (result_matches mr) -> matched e = true ->
           exists a1 a2,
             dict_get (articles law1) (article1_num e) = Some a1 /\
             dict_get (articles law2) (article2_num e) = Some a2 /\
             ((98 # 100 <= similarity e)%Q ->
                In {| id_old_number := article1_num e;
                      id_new_number := article2_num e;
                      id_content := content a1;
                      id_similarity := similarity e;
                      id_match_type := match_type e |} (identical r)) /\
             ((similarity e < 98 # 100)%Q ->
                exists script,
                  old_side script = content a1 /\
                  new_side script = content a2 /\
                  generate_unified_html_diff depth (content a1) (content a2)
                  = Some (annotation script) /\
                  In {| md_old_number := article1_num e;
                        md_new_number := article2_num e;
                        old_content := content a1;
                        new_content := content a2;
                        md_similarity := similarity e;
                        md_match_type := match_type e;
                        old_chapter_info := chapter_info_of law1 a1;
                        new_chapter_info := chapter_info_of law2 a2;
                        unified_diff_html := annotation script |}
                     (modified r))) /\
        Forall (fun x => (98 # 100 <= id_similarity x)%Q) (identical r) /\
        Forall (fun x => (md_similarity x < 98 # 100)%Q /\
                         exists script,
                           old_side script = old_content x /\
                           new_side script = new_content x /\
                           unified_diff_html x = annotation script)
               (modified r).
Proof.
  intros depth self law1 law2 Hp.
  destruct (compare_articles_spec depth self law1 law2 Hp)
    as (mr & Hmr & _ & Hok).
  exists mr. split; [exact Hmr|]. split.
  { by apply compare_articles_returns. }
  intros r Hr.
  destruct (compare_articles_inv depth self law1 law2 r Hp Hr)
    as (mr' & Hmr' & Hret & Hi & Hm & _ & _).
  rewrite Hmr in Hmr'. injection Hmr' as <-.
  destruct (matching_resolved self law1 law2 mr Hp Hmr) as [Hres _].
  split; [|split].
  - intros e He Hmatched. rewrite Forall_forall in Hres.
    destruct (Hres e (proj2 (list_elem_of_In _ _) He)) as [[H1 H2] Hne].
    specialize (Hne Hmatched). destruct H2 as [?|H2]; [done|].
    apply dict_get_keys in H1 as [a1 Hget1].
    apply dict_get_keys in H2 as [a2 Hget2].
    exists a1, a2. split; [exact Hget1|]. split; [exact Hget2|]. split.
    + intros Hsim. rewrite Hi.
      eapply Permutation_in; [symmetry; apply sort_key_perm|].
      apply in_flat_map. exists e. split; [exact He|].
      unfold identical_records. rewrite Hget1, Hget2.
      destruct (Z.eqb_spec (article2_num e) (-1)); [done|].
      apply Qgeb_true in Hsim. rewrite Hsim. by left.
    + intros Hsim. rewrite forallb_forall in Hret.
      destruct (modified_records_script depth law1 law2 e a1 a2
                  (Hret e He) Hne Hget1 Hget2 Hsim)
        as (script & Ho & Hn & Hg & Hrec).
      exists script. split; [exact Ho|]. split; [exact Hn|].
      split; [exact Hg|]. rewrite Hm.
      eapply Permutation_in; [symmetry; apply sort_key_perm|].
      apply in_flat_map. exists e. split; [exact He|].
      rewrite Hrec. by left.
  - rewrite Hi. apply Forall_forall. intros x Hx.
    apply list_elem_of_In in Hx.
    apply (Permutation_in _ (sort_key_perm _ _)) in Hx.
    apply in_flat_map in Hx as (e & _ & Hx). revert Hx.
    unfold identical_records.
    destruct (article2_num e =? -1); [done|].
    destruct (dict_get _ _); [|done]. destruct (dict_get _ _); [|done].
    destruct (Qgeb _ _) eqn:E; [|done].
    intros [<-|[]]. cbn [id_similarity]. by apply Qgeb_true.
  - rewrite Hm. apply Forall_forall. intros x Hx.
    apply list_elem_of_In in Hx.
    apply (Permutation_in _ (sort_key_perm _ _)) in Hx.
    apply in_flat_map in Hx as (e & _ & Hx).
    by apply modified_records_inv in Hx.
Qed.

(** The two versions of the statute of the examples, compared at the
    threshold 0.8: article 3 is found again as article 4, article 2 as
    the amended article 3, whose diff marks the one character that
    changed. *)
Lemma C8_witness :
  exists mr r,
    intelligent_article_matching
      {| similarity_threshold := 8 # 10; manual_matches := [] |}
      old_statute new_statute = Some mr /\
    compare_articles 12
      {| similarity_threshold := 8 # 10; manual_matches := [] |}
      (law_of old_statute) (law_of new_statute) = Some r /\
    map (fun x => (id_old_number x, id_new_number x)) (identical r) = [(3, 4)] /\
    map (fun x => (md_old_number x, md_new_number x)) (modified r) = [(2, 3)] /\
    map unified_diff_html (modified r)
    = [py "罚款" ++ span_open (py "diff-deleted") ++ py "一</span>"
       ++ span_open (py "diff-added") ++ py "二</span>百元。"].
Proof.
  destruct (C8_identical_or_modified 12
              {| similarity_threshold := 8 # 10; manual_matches := [] |}
              (law_of old_statute) (law_of new_statute))
    as (mr & Hmr & Hreturns & _).
  - unfold parsed_numbers. cbn. repeat (apply Forall_cons_2; [lia|]).
    apply Forall_nil_2.
  - destruct Hreturns as [r Hr]; [vm_compute; reflexivity|].
    exists mr, r. split; [exact Hmr|]. split; [exact Hr|].
    vm_compute in Hr. injection Hr as <-. repeat split; reflexivity.
Defined.
(* ===================================================================== *)
(** * Further properties of the parser *)
(* ===================================================================== *)

(** ** Numerals: every string converts *)

Section NumeralScan.

Lemma str_eqb_eq s t : str_eqb s t = true -> s = t.
Proof.
  revert t. induction s as [|c s IH]; intros [|d t]; cbn [str_eqb]; try done.
  intros H. apply andb_true_iff in H as [Hc Hs]. apply Z.eqb_eq in Hc.
  f_equal; [done|by apply IH].
Qed.

Lemma recognized_cases c :
  Numeral.recognized c = true -> In c (py "零一二三四五六七八九十百千万").
Proof.
  unfold Numeral.recognized. intros H. apply existsb_exists in H as (x & Hx & E).
  apply Z.eqb_eq in E. by subst.
Qed.

(** One iteration of the scan, by the kind of the character: a digit, a
    unit, or a character outside the table. *)
Lemma parse_loop_cons c :
  (exists v, 0 <= v < 10 /\ forall i s r t,
     parse_loop chinese_to_num i (c :: s) r t
     = parse_loop chinese_to_num (i + 1) s r v) \/
  (exists u, 10 <= u /\ forall i s r t,
     parse_loop chinese_to_num i (c :: s) r t
     = parse_loop chinese_to_num (i + 1) s
         (r + (let t0 := if (c =? ch "十") && (i =? 0) then 1 else t in
               if t0 =? 0 then 1 else t0) * u) 0) \/
  (Numeral.recognized c = false /\ forall i s r t,
     parse_loop chinese_to_num i (c :: s) r t
     = parse_loop chinese_to_num (i + 1) s r t).
Proof.
  destruct (Numeral.recognized c) eqn:Hc.
  - apply recognized_cases in Hc. revert Hc. py_eval. cbn [In].
    intros H.
    repeat (destruct H as [<-|H]; [
      first [ left; eexists; split; [|intros; cbn [parse_loop]; reflexivity]; lia
            | right; left; eexists; split;
              [|intros i s r t; cbn [parse_loop]; reflexivity]; lia ] |]).
    destruct H.
  - right; right. split; [done|]. intros i s r t.
    destruct (unrecognized_char c Hc) as (Hget & Hunit & Hzero).
    cbn [parse_loop]. by rewrite Hget, Hunit, Hzero.
Qed.

Lemma parse_loop_total s : forall i r t,
  0 <= r -> 0 <= t ->
  exists r1 t1, parse_loop chinese_to_num i s r t = Some (r1, t1) /\
                0 <= r1 /\ 0 <= t1.
Proof.
  induction s as [|c s IH]; intros i r t Hr Ht; [by exists r, t|].
  destruct (parse_loop_cons c) as [(v & Hv & E)|[(u & Hu & E)|[_ E]]];
    rewrite E; apply IH; try lia.
  cbv zeta. repeat case_match; nia.
Qed.

(** The index matters only for a leading 十, where the pending digit is 0
    in any case. *)
Lemma parse_loop_index s : forall i j r t,
  (i = 0 -> t = 0) -> (j = 0 -> t = 0) -> 0 <= i -> 0 <= j ->
  parse_loop chinese_to_num i s r t = parse_loop chinese_to_num j s r t.
Proof.
  induction s as [|c s IH]; intros i j r t Hi Hj Hi0 Hj0; [reflexivity|].
  destruct (parse_loop_cons c) as [(v & Hv & E)|[(u & Hu & E)|[_ E]]];
    rewrite !E.
  - apply IH; lia.
  - cbv zeta.
    assert (Ht : (if (if (c =? ch "十") && (i =? 0) then 1 else t) =? 0
                  then 1 else if (c =? ch "十") && (i =? 0) then 1 else t)
               = (if (if (c =? ch "十") && (j =? 0) then 1 else t) =? 0
                  then 1 else if (c =? ch "十") && (j =? 0) then 1 else t)).
    { destruct (c =? ch "十"); cbn [andb]; [|done].
      destruct (Z.eqb_spec i 0) as [Ei|_], (Z.eqb_spec j 0) as [Ej|_];
        try done.
      - rewrite (Hi Ei). reflexivity.
      - rewrite (Hj Ej). reflexivity. }
    rewrite Ht. apply IH; lia.
  - apply IH; lia.
Qed.

Lemma parse_loop_skip c s i r t :
  Numeral.recognized c = false ->
  parse_loop chinese_to_num i (c :: s) r t
  = parse_loop chinese_to_num (i + 1) s r t.
Proof.
  intros Hc. destruct (unrecognized_char c Hc) as (Hget & Hunit & Hzero).
  cbn [parse_loop]. by rewrite Hget, Hunit, Hzero.
Qed.

Lemma parse_loop_filter s : forall i r t,
  (i = 0 -> t = 0) -> 0 <= i ->
  parse_loop chinese_to_num i s r t
  = parse_loop chinese_to_num i (List.filter Numeral.recognized s) r t.
Proof.
  induction s as [|c s IH]; intros i r t Hi Hi0; [reflexivity|].
  cbn [List.filter]. destruct (Numeral.recognized c) eqn:Hc.
  - destruct (parse_loop_cons c) as [(v & Hv & E)|[(u & Hu & E)|[Hc' E]]];
      [| |congruence]; rewrite !E; apply IH; lia.
  - rewrite parse_loop_skip by done.
    rewrite <- (parse_loop_index _ (i + 1) i) by lia.
    apply IH; lia.
Qed.

(** The look-up of the whole string in the table is a shortcut: the scan
    gives the same value on the keys of the table. *)
Lemma convert_scan s :
  convert_chinese_number s = _parse_complex_chinese_number s chinese_to_num.
Proof.
  destruct s as [|c s]; [reflexivity|]. unfold convert_chinese_number.
  destruct (sdict_get chinese_to_num (c :: s)) as [v|] eqn:E; [|reflexivity].
  revert E. unfold chinese_to_num at 1. cbn [sdict_get].
  repeat match goal with
  | |- context [if str_eqb ?k ?s then _ else _] =>
    destruct (str_eqb k s) eqn:Ek;
      [apply str_eqb_eq in Ek; simplify_eq; intros [= <-];
       vm_compute; reflexivity|clear Ek]
  end.
  discriminate.
Qed.

Lemma convert_total s : exists n, convert_chinese_number s = Some n /\ 0 <= n.
Proof.
  revert s.
  intros s. rewrite convert_scan. unfold _parse_complex_chinese_number.
  destruct (parse_loop_total s 0 0 0) as (r & t & E & Hr & Ht); [lia|lia|].
  rewrite E. eexists. split; [reflexivity|]. case_match; lia.
Qed.

End NumeralScan.

(** X1. [convert_chinese_number] returns a non-negative number on every
    string: no character can make a table look-up of the scan fail. *)
Theorem convert_chinese_number_total :
  forall s, exists n, convert_chinese_number s = Some n /\ 0 <= n.
Proof. exact convert_total. Qed.

(** X2. Characters outside the numeral table are skipped: a string
    converts to the same number as the string of its table characters. *)
Theorem convert_chinese_number_skips_unrecognized :
  forall s,
    convert_chinese_number s
    = convert_chinese_number (List.filter Numeral.recognized s).
Proof.
  intros s. rewrite !convert_scan. unfold _parse_complex_chinese_number.
  by rewrite <- parse_loop_filter.
Qed.

(** ** Lines: strip, split and join *)

Section Lines.

Lemma lstrip_suffix s : exists w, s = w ++ lstrip s.
Proof.
  induction s as [|c s [w IH]]; [by exists []|]. cbn [lstrip].
  destruct (is_space c); [|by exists []].
  exists (c :: w). cbn [app]. by f_equal.
Qed.

Lemma rstrip_prefix s : exists w, s = rstrip s ++ w.
Proof.
  unfold rstrip. destruct (lstrip_suffix (rev s)) as [w Hw].
  exists (rev w). rewrite <- rev_app_distr, <- Hw. by rewrite rev_involutive.
Qed.

Lemma lstrip_idem s : lstrip (lstrip s) = lstrip s.
Proof.
  induction s as [|c s IH]; [reflexivity|]. cbn [lstrip].
  destruct (is_space c) eqn:E; [exact IH|]. cbn [lstrip]. by rewrite E.
Qed.

Lemma lstrip_fixed c s : is_space c = false -> lstrip (c :: s) = c :: s.
Proof. intros E. cbn [lstrip]. by rewrite E. Qed.

(** The first character of a stripped line is no white space. *)
Lemma strip_head s c r : strip s = c :: r -> is_space c = false.
Proof.
  unfold strip. intros E. destruct (rstrip_prefix (lstrip s)) as [w Hw].
  rewrite E in Hw. cbn [app] in Hw. by apply lstrip_head in Hw.
Qed.

(** A line is left alone by [strip] exactly when it neither starts nor
    ends with white space. *)
Lemma strip_fixed s :
  strip s = s <->
  (forall c r, s = c :: r -> is_space c = false) /\
  (forall c r, rev s = c :: r -> is_space c = false).
Proof.
  split.
  - intros E. split; intros c r Hs.
    + rewrite Hs in E. by apply strip_head in E.
    + rewrite <- E in Hs. by apply strip_last in Hs.
  - intros [Hh Hl]. unfold strip, rstrip.
    assert (E1 : lstrip s = s).
    { destruct s as [|c r]; [reflexivity|]. apply lstrip_fixed. by eapply Hh. }
    rewrite E1.
    assert (E2 : lstrip (rev s) = rev s).
    { destruct (rev s) as [|c r] eqn:E; [reflexivity|].
      apply lstrip_fixed. by eapply Hl. }
    rewrite E2. apply rev_involutive.
Qed.

Lemma strip_idem s : strip (strip s) = strip s.
Proof.
  apply strip_fixed. split; intros c r E.
  - by apply strip_head in E.
  - by apply strip_last in E.
Qed.

Lemma strip_app s t :
  s <> [] -> t <> [] -> strip s = s -> strip t = t -> strip (s ++ t) = s ++ t.
Proof.
  intros Hs Ht Es Et. apply strip_fixed in Es as [Hsh _].
  apply strip_fixed in Et as [_ Htl]. apply strip_fixed. split; intros c r E.
  - destruct s as [|c' s']; [done|]. cbn [app] in E. injection E as -> _.
    by eapply Hsh.
  - rewrite rev_app_distr in E. destruct (rev t) as [|c' t'] eqn:Er.
    + apply (f_equal (@rev Z)) in Er. cbn [rev] in Er. rewrite rev_involutive in Er. done.
    + cbn [app] in E. injection E as -> _. by eapply Htl.
Qed.

Lemma lstrip_elem s c : c ∈ lstrip s -> c ∈ s.
Proof.
  destruct (lstrip_suffix s) as [w Hw]. intros Hc. rewrite Hw.
  apply elem_of_app. by right.
Qed.

Lemma strip_elem s c : c ∈ strip s -> c ∈ s.
Proof.
  unfold strip. intros Hc. apply lstrip_elem.
  destruct (rstrip_prefix (lstrip s)) as [w Hw]. rewrite Hw.
  apply elem_of_app. by left.
Qed.

(** No piece of [split] holds the separator. *)
Lemma split_pieces sep s : Forall (fun l => sep ∉ l) (split sep s).
Proof.
  induction s as [|c s IH]; cbn [split].
  - constructor; [|constructor]. apply not_elem_of_nil.
  - destruct (Z.eqb_spec c sep) as [->|Hne].
    + constructor; [apply not_elem_of_nil|exact IH].
    + destruct (split sep s) as [|w ws]; inversion IH; subst;
        constructor; try done.
      * apply not_elem_of_cons. split; [congruence|apply not_elem_of_nil].
      * apply not_elem_of_cons. split; [congruence|done].
Qed.

Lemma join_cons sep l ls :
  ls <> [] -> join sep (l :: ls) = l ++ sep ++ join sep ls.
Proof. by destruct ls. Qed.

(** [split] undoes [join] on lines that hold no separator. *)
Lemma split_join sep ls :
  ls <> [] -> Forall (fun l => sep ∉ l) ls ->
  split sep (join [sep] ls) = ls.
Proof.
  induction ls as [|l ls IH]; [done|]. intros _ Hls.
  inversion Hls as [|? ? Hl Hls']; subst.
  destruct ls as [|l' ls'].
  - cbn [join]. by apply split_no_sep.
  - rewrite join_cons by done. cbn [app].
    rewrite split_app_sep by done. f_equal. by apply IH.
Qed.

(** Without the separators, a joined text is the concatenation of its
    lines. *)
Lemma filter_join sep ls :
  Forall (fun l => sep ∉ l) ls ->
  List.filter (fun c => negb (c =? sep)) (join [sep] ls) = concat ls.
Proof.
  assert (Hline : forall l, sep ∉ l ->
            List.filter (fun c => negb (c =? sep)) l = l).
  { induction l as [|c l IHl]; [done|]. intros Hl.
    apply not_elem_of_cons in Hl as [Hc Hl]. cbn [List.filter].
    destruct (Z.eqb_spec c sep); [done|]. cbn [negb]. by rewrite IHl. }
  induction ls as [|l ls IH]; [done|]. intros Hls.
  inversion Hls as [|? ? Hl Hls']; subst.
  destruct ls as [|l' ls'].
  - cbn [join concat]. rewrite app_nil_r. by apply Hline.
  - rewrite join_cons by done. cbn [concat app].
    rewrite List.filter_app, Hline by done. f_equal.
    cbn [List.filter]. rewrite Z.eqb_refl. cbn [negb]. by apply IH.
Qed.

Lemma join_nil_inv sep ls :
  Forall (fun l => l <> []) ls -> join sep ls = [] -> ls = [].
Proof.
  destruct ls as [|l ls]; [done|]. intros Hls E.
  inversion Hls as [|? ? Hl _]; subst.
  destruct ls; cbn [join] in E; [done|].
  by apply app_eq_nil in E as [? _].
Qed.

End Lines.

(** ** fix_pdf_line_breaks *)

Section Repair.

Lemma merge_loop_spec rest : forall current_line,
  Forall (fun l => 10 ∉ l) rest ->
  current_line <> [] -> strip current_line = current_line ->
  10 ∉ current_line ->
  let r := merge_loop current_line rest in
  (fst r <> [] /\ strip (fst r) = fst r /\ 10 ∉ fst r) /\
  Forall (fun l => 10 ∉ l) (snd r) /\
  fst r ++ concat (map strip (snd r))
  = current_line ++ concat (map strip rest).
Proof.
  induction rest as [|l rest IH]; intros cur Hrest Hne Hs Hnl; cbv zeta.
  { cbn [merge_loop fst snd]. by repeat split. }
  inversion Hrest as [|? ? Hl Hrest']; subst.
  cbn [merge_loop]. destruct (strip l) as [|c next] eqn:El.
  { cbn [fst snd]. by repeat split. }
  destruct (_should_merge_lines cur (c :: next)).
  - assert (Hnext : 10 ∉ strip l) by (intros H; by apply strip_elem in H).
    specialize (IH (cur ++ c :: next) Hrest').
    destruct IH as (Hcl & Hsnd & Hcat).
    + by destruct cur.
    + apply strip_app; try done. rewrite <- El. apply strip_idem.
    + rewrite <- El. intros H. apply elem_of_app in H as [H|H]; done.
    + split; [exact Hcl|]. split; [exact Hsnd|].
      rewrite Hcat. cbn [map concat]. rewrite El. by rewrite <- app_assoc.
  - cbn [fst snd]. by repeat split.
Qed.

Lemma fix_loop_spec fuel : forall lines,
  (length lines <= fuel)%nat ->
  Forall (fun l => 10 ∉ l) lines ->
  Forall (fun l => l <> [] /\ strip l = l /\ 10 ∉ l) (fix_loop fuel lines) /\
  concat (fix_loop fuel lines) = concat (map strip lines).
Proof.
  induction fuel as [|fuel IH]; intros lines Hlen Hlines.
  { destruct lines; [|cbn in Hlen; lia]. cbn. by split. }
  destruct lines as [|l rest]; [cbn; by split|].
  inversion Hlines as [|? ? Hl Hrest]; subst.
  cbn [fix_loop map concat]. destruct (strip l) as [|c cur] eqn:El.
  { cbn [app]. apply IH; [cbn in Hlen; lia|done]. }
  pose proof (merge_loop_length rest (c :: cur)) as Hlen'.
  destruct (merge_loop_spec rest (c :: cur) Hrest) as (Hcl & Hsnd & Hcat).
  - done.
  - rewrite <- El. apply strip_idem.
  - rewrite <- El. intros H. by apply strip_elem in H.
  - destruct (merge_loop (c :: cur) rest) as [cur' rest'].
    cbn [fst snd] in *.
    destruct (IH rest') as [Hall Hconcat]; [cbn in Hlen; lia|done|].
    split; [by constructor|].
    cbn [concat]. by rewrite Hconcat.
Qed.

End Repair.

(** X3. Line-break repair loses no text: without its line breaks, the
    repaired text is the concatenation of the stripped lines of the
    input. Only line breaks and the white space at the ends of lines are
    removed, and nothing is reordered. *)
Theorem fix_pdf_line_breaks_keeps_text :
  forall text,
    List.filter (fun c => negb (c =? 10)) (fix_pdf_line_breaks text)
    = concat (map strip (split 10 text)).
Proof.
  intros [|c text]; [reflexivity|]. unfold fix_pdf_line_breaks.
  destruct (fix_loop_spec (length (split 10 (c :: text))) (split 10 (c :: text)))
    as [Hall Hcat]; [done|apply split_pieces|].
  rewrite filter_join; [exact Hcat|].
  eapply Forall_impl; [exact Hall|]. by intros l (_ & _ & ?).
Qed.

(** X4. The repaired text has no blank line and no line that starts or
    ends with white space: it is empty, or each of its lines is non-empty
    and equal to its own [strip]. *)
Theorem fix_pdf_line_breaks_lines :
  forall text,
    fix_pdf_line_breaks text = [] \/
    Forall (fun l => l <> [] /\ strip l = l)
           (split 10 (fix_pdf_line_breaks text)).
Proof.
  intros [|c text]; [by left|]. unfold fix_pdf_line_breaks.
  destruct (fix_loop_spec (length (split 10 (c :: text))) (split 10 (c :: text)))
    as [Hall _]; [done|apply split_pieces|].
  destruct (fix_loop _ _) as [|l ls] eqn:E; [by left|]. right.
  rewrite split_join.
  - eapply Forall_impl; [exact Hall|]. by intros ? (? & ? & _).
  - done.
  - eapply Forall_impl; [exact Hall|]. by intros ? (_ & _ & ?).
Qed.

(** ** normalize_punctuation: the characters of the result *)

Section NormalizedText.

Lemma space_cases c :
  is_space c = true ->
  In c [9; 10; 11; 12; 13; 28; 29; 30; 31; 32; 133; 160; 5760;
        8192; 8193; 8194; 8195; 8196; 8197; 8198; 8199; 8200; 8201; 8202;
        8232; 8233; 8239; 8287; 12288].
Proof.
  unfold is_space, in_ranges. intros H.
  apply existsb_exists in H as ([lo hi] & Hin & Hb).
  apply andb_true_iff in Hb as [Hlo Hhi].
  apply Z.leb_le in Hlo, Hhi. cbn [fst snd] in *.
  unfold space_table in Hin. cbn [In] in Hin.
  repeat (destruct Hin as [[= <- <-]|Hin];
          [cbn [In]; lia|]).
  destruct Hin.
Qed.

Lemma space_not_digit c : is_space c = true -> is_digit c = false.
Proof.
  intros H. apply space_cases in H. cbn [In] in H.
  repeat (destruct H as [<-|H]; [vm_compute; reflexivity|]).
  destruct H.
Qed.

Lemma stray_period_weaken s :
  stray_period false s = false -> stray_period true s = false.
Proof.
  destruct s as [|c s]; [done|]. cbn [stray_period negb].
  rewrite andb_true_r, andb_false_r. cbn [orb].
  intros H. by apply orb_false_iff in H as [_ H].
Qed.

Lemma stray_period_any s d :
  stray_period false s = false -> stray_period d s = false.
Proof. destruct d; [apply stray_period_weaken|done]. Qed.

Lemma stray_period_digits digits : forall d s,
  Forall (fun c => is_digit c = true) digits -> digits <> [] ->
  ch "." ∉ digits ->
  stray_period true s = false ->
  stray_period d (digits ++ s) = false.
Proof.
  induction digits as [|c digits IH]; intros d s Hd Hne Hp Hs; [done|].
  inversion Hd as [|? ? Hc Hd']; subst.
  apply not_elem_of_cons in Hp as [Hcp Hp].
  cbn [app stray_period]. destruct (Z.eqb_spec c (ch ".")); [done|].
  cbn [andb orb]. rewrite Hc.
  destruct digits as [|c' digits']; [exact Hs|]. by apply IH.
Qed.

Lemma sub_numbering_loop_periods fuel : forall s d,
  ch "." ∉ s -> stray_period d (sub_numbering_loop fuel s) = false.
Proof.
  induction fuel as [|fuel IH]; intros [|c s] d Hs; try reflexivity.
  cbn [sub_numbering_loop].
  destruct (match_numbering (c :: s)) as [[replacement rest]|] eqn:E.
  - apply match_numbering_Some in E as (digits & w & Hcs & Hne & Hd & Hw & ->).
    rewrite Hcs in Hs.
    apply not_elem_of_app in Hs as [Hs1 Hs2].
    apply not_elem_of_cons in Hs2 as [_ Hs2].
    apply not_elem_of_cons in Hs2 as [Hw2 Hs2].
    rewrite <- app_assoc. apply stray_period_digits; try done.
    change (py ". ") with [46; 32]. cbn [app stray_period].
    change (ch ".") with 46 in *. cbn.
    destruct (Z.eqb_spec w 46); [done|]. cbn [andb orb].
    by apply IH.
  - apply not_elem_of_cons in Hs as [Hc Hs]. cbn [stray_period].
    destruct (Z.eqb_spec c (ch ".")); [done|]. cbn [andb orb]. by apply IH.
Qed.

Lemma stray_period_filter s : forall d,
  stray_period d s = false ->
  stray_period d (List.filter (fun c => negb (is_space c)) s) = false.
Proof.
  induction s as [|c s IH]; intros d H; [done|].
  cbn [stray_period] in H. apply orb_false_iff in H as [Hc Hs].
  cbn [List.filter]. destruct (is_space c) eqn:Esp; cbn [negb].
  - apply IH. apply stray_period_any.
    by rewrite (space_not_digit c Esp) in Hs.
  - cbn [stray_period]. rewrite Hc. cbn [orb]. by apply IH.
Qed.

Lemma stray_period_split s : forall d pre post,
  stray_period d s = false -> s = pre ++ ch "." :: post ->
  (pre = [] /\ d = true) \/
  exists front c, pre = front ++ [c] /\ is_digit c = true.
Proof.
  induction s as [|c s IH]; intros d pre post H E.
  { by destruct pre. }
  cbn [stray_period] in H. apply orb_false_iff in H as [Hc Hs].
  destruct pre as [|p pre].
  - cbn [app] in E. injection E as -> ->. left. split; [done|].
    rewrite Z.eqb_refl in Hc. by destruct d.
  - cbn [app] in E. injection E as <- ->. right.
    destruct (IH _ _ _ Hs eq_refl) as [[-> Hd]|(front & x & -> & Hx)].
    + by exists [], c.
    + by exists (c :: front), x.
Qed.

Lemma normalize_stray s : stray_period false (normalize_punctuation s) = false.
Proof.
  destruct s as [|c0 s0]; [reflexivity|].
  rewrite normalize_unfold by done. rewrite clean_spaces_filter.
  apply stray_period_filter, sub_numbering_loop_periods.
  intros H. apply list_elem_of_In, in_map_iff in H as (c & Hc & _).
  by apply punct_char_not_period in Hc.
Qed.

End NormalizedText.

(** X5. A normalized text holds no white space and none of the half-width
    marks that the table replaces, the period apart. *)
Theorem normalize_punctuation_alphabet :
  forall s,
    Forall (fun c => is_space c = false /\ c ∉ py ",;:?!()[]{}<>«»")
           (normalize_punctuation s).
Proof.
  intros s. eapply Forall_impl; [apply normalize_chars|].
  intros c [Hsp Hc]. split; [exact Hsp|].
  intros Hin. apply list_elem_of_In in Hin. revert Hin. py_eval. cbn [In].
  destruct Hc as [->|[c0 ->]]; [py_eval; lia|].
  destruct (punct_char_cases c0) as [(n & Hn & Heq)|[Heq Hnot]].
  - rewrite Heq. clear Heq. revert Hn.
    unfold replacements, punctuation_map. py_eval. cbn [app In].
    intros Hn.
    repeat (destruct Hn as [[= <- <-]|Hn]; [lia|]).
    destruct Hn.
  - rewrite Heq. intros Hin. apply Hnot.
    unfold replacements, punctuation_map, keys. py_eval.
    cbn [app map fst In]. intuition.
Qed.

(** X6. Normalization is stable from the second pass on: a third pass
    changes nothing. *)
Theorem normalize_punctuation_stable :
  forall s,
    normalize_punctuation (normalize_punctuation (normalize_punctuation s))
    = normalize_punctuation (normalize_punctuation s).
Proof.
  intros s. rewrite (normalize_twice (normalize_punctuation s)).
  rewrite (normalize_twice s), map_map. apply map_ext.
  intros c. unfold widen_period.
  destruct (Z.eqb_spec c (ch ".")) as [->|]; [reflexivity|].
  destruct (Z.eqb_spec c (ch ".")); [done|reflexivity].
Qed.

(** X7. In a normalized text a half-width period stands only directly
    after a decimal digit: every other period has been widened. *)
Theorem normalize_punctuation_periods :
  forall s pre post,
    normalize_punctuation s = pre ++ ch "." :: post ->
    exists front d, pre = front ++ [d] /\ is_digit d = true.
Proof.
  intros s pre post E.
  destruct (stray_period_split _ false pre post (normalize_stray s) E)
    as [[_ ?]|H]; [done|exact H].
Qed.

Lemma normalize_punctuation_periods_witness :
  exists front d, py "第1" = front ++ [d] /\ is_digit d = true.
Proof.
  apply (normalize_punctuation_periods (py "第1. 甲.乙") (py "第1") (py "甲。乙")).
  vm_compute. reflexivity.
Defined.

(* ===================================================================== *)
(** * The document parser *)
(* ===================================================================== *)

(** ** Dictionaries *)

Section Dictionaries.

Context {V : Type}.

Lemma dict_set_keys (d : dict Z V) k v k' :
  In k' (keys (dict_set d k v)) <-> k' = k \/ In k' (keys d).
Proof.
  induction d as [|[k0 v0] d IH]; cbn [dict_set keys map fst In].
  - intuition.
  - destruct (Z.eqb_spec k0 k) as [->|Hne]; cbn [map fst In].
    + intuition.
    + unfold keys in IH. rewrite IH. intuition.
Qed.

Lemma dict_set_wf (d : dict Z V) k v : dict_wf d -> dict_wf (dict_set d k v).
Proof.
  unfold dict_wf. induction d as [|[k0 v0] d IH]; cbn [dict_set keys map fst].
  - intros _. constructor; [apply not_elem_of_nil|constructor].
  - intros Hd. inversion Hd as [|? ? Hk0 Hd']; subst.
    destruct (Z.eqb_spec k0 k) as [->|Hne]; cbn [map fst].
    + by constructor.
    + constructor; [|by apply IH].
      intros Hin. apply list_elem_of_In, dict_set_keys in Hin.
      destruct Hin as [->|Hin]; [done|]. by apply list_elem_of_In in Hin.
Qed.

Lemma dict_set_Forall (P : Z * V -> Prop) (d : dict Z V) k v :
  P (k, v) -> Forall P d -> Forall P (dict_set d k v).
Proof.
  intros Hkv. induction 1 as [|[k0 v0] d H0 Hd IH]; cbn [dict_set].
  - by repeat constructor.
  - destruct (k0 =? k); by constructor.
Qed.

Lemma dict_get_set (d : dict Z V) k v k' :
  dict_get (dict_set d k v) k' = if k =? k' then Some v else dict_get d k'.
Proof.
  induction d as [|[k0 v0] d IH]; cbn [dict_set dict_get]; [done|].
  destruct (Z.eqb_spec k0 k) as [->|Hne]; cbn [dict_get].
  - by destruct (k =? k').
  - rewrite IH. destruct (Z.eqb_spec k0 k') as [->|Hne'].
    + destruct (Z.eqb_spec k k'); [congruence|done].
    + done.
Qed.

End Dictionaries.

(** ** clean_text *)

Section CleanText.

Lemma nonblank_spec l : nonblank l = true <-> l <> [].
Proof. by destruct l. Qed.

Lemma cleaned_lines_spec text :
  Forall (fun l => l <> [] /\ strip l = l /\ 10 ∉ l)
         (List.filter nonblank (map strip (split 10 text))).
Proof.
  apply Forall_forall. intros l Hl.
  apply list_elem_of_In, filter_In in Hl as [Hl Hne].
  apply in_map_iff in Hl as (l0 & <- & Hl0).
  split; [by apply nonblank_spec|]. split; [apply strip_idem|].
  intros H. apply strip_elem in H.
  pose proof (split_pieces 10 text) as Hp. rewrite Forall_forall in Hp.
  apply list_elem_of_In in Hl0. by apply Hp in Hl0.
Qed.

(** Lines that are clean already are left as they are. *)
Lemma filter_strip_clean ls :
  Forall (fun l => l <> [] /\ strip l = l /\ 10 ∉ l) ls ->
  List.filter nonblank (map strip ls) = ls.
Proof.
  induction 1 as [|l ls (Hne & Hs & _) _ IH]; [done|].
  cbn [map List.filter]. rewrite Hs.
  destruct l; [done|]. cbn [nonblank]. by rewrite IH.
Qed.

End CleanText.

(** X8. [clean_text] is idempotent: a cleaned text has no blank line and
    no white space at the ends of its lines, so cleaning it again changes
    nothing. *)
Theorem clean_text_idempotent :
  forall text, clean_text (clean_text text) = clean_text text.
Proof.
  intros text. pose proof (cleaned_lines_spec text) as Hls.
  assert (E : clean_text text
              = join [10] (List.filter nonblank (map strip (split 10 text))))
    by reflexivity.
  rewrite E. clear E.
  destruct (List.filter nonblank (map strip (split 10 text))) as [|l ls].
  { reflexivity. }
  unfold clean_text. rewrite split_join; [|done|].
  - by rewrite filter_strip_clean.
  - eapply Forall_impl; [exact Hls|]. by intros ? (_ & _ & ?).
Qed.

(** X9. A cleaned text is empty, or each of its lines is non-empty and
    has no white space at either end; and no character other than white
    space is lost: without the line breaks it is the concatenation of the
    stripped lines of the input. *)
Theorem clean_text_lines :
  forall text,
    (clean_text text = [] \/
     Forall (fun l => l <> [] /\ strip l = l) (split 10 (clean_text text))) /\
    List.filter (fun c => negb (c =? 10)) (clean_text text)
    = concat (map strip (split 10 text)).
Proof.
  intros text. pose proof (cleaned_lines_spec text) as Hls. unfold clean_text.
  split.
  - destruct (List.filter nonblank (map strip (split 10 text))) as [|l ls] eqn:E;
      [by left|right].
    rewrite split_join.
    + eapply Forall_impl; [exact Hls|]. by intros ? (? & ? & _).
    + done.
    + eapply Forall_impl; [exact Hls|]. by intros ? (_ & _ & ?).
  - rewrite filter_join.
    + clear Hls. induction (map strip (split 10 text)) as [|l ls IH]; [done|].
      cbn [List.filter concat]. destruct l as [|c l]; cbn [nonblank].
      * exact IH.
      * cbn [concat]. by rewrite IH.
    + eapply Forall_impl; [exact Hls|]. by intros ? (_ & _ & ?).
Qed.

(** ** clean_article_content *)

Lemma clean_article_content_eq content :
  clean_article_content content
  = normalize_punctuation (fix_pdf_line_breaks content) /\
  Forall (fun c => is_space c = false) (clean_article_content content).
Proof.
  revert content.
  intros content.
  assert (E : clean_article_content content
              = normalize_punctuation (fix_pdf_line_breaks content)).
  { destruct content as [|c0 content0]; [reflexivity|].
    unfold clean_article_content.
    set (t := normalize_punctuation (fix_pdf_line_breaks (c0 :: content0))).
    assert (Ht : Forall (fun c => is_space c = false) t).
    { eapply Forall_impl; [apply normalize_chars|]. by intros c [? _]. }
    assert (Hnl : 10 ∉ t).
    { intros H. rewrite Forall_forall in Ht. by apply Ht in H. }
    rewrite split_no_sep by exact Hnl. cbn [clean_lines].
    rewrite strip_no_space by exact Ht.
    destruct t as [|c t']; [reflexivity|].
    destruct (match_enumerator (c :: t')); reflexivity. }
  split; [exact E|]. rewrite E.
  eapply Forall_impl; [apply normalize_chars|]. by intros c [? _].
Qed.

(** X10. [clean_article_content] returns one line: the text is repaired
    and normalized, normalization removes every line break, and the
    paragraph loop that follows finds a single line and returns it
    unchanged. Sub-items such as （一） are therefore never put on lines of
    their own. *)
Theorem clean_article_content_single_line :
  forall content,
    clean_article_content content
    = normalize_punctuation (fix_pdf_line_breaks content) /\
    Forall (fun c => is_space c = false) (clean_article_content content).
Proof. exact clean_article_content_eq. Qed.

(** ** Header patterns *)

Section Headers.

Lemma heading_space_is_space c : heading_space c = is_space c.
Proof.
  unfold heading_space. destruct (Z.eqb_spec c (ch "　")) as [->|]; [|done].
  vm_compute. reflexivity.
Qed.

Lemma skip_heading_space s : skip_class heading_space s = lstrip s.
Proof.
  induction s as [|c s IH]; [reflexivity|]. cbn [skip_class lstrip].
  rewrite heading_space_is_space. by rewrite IH.
Qed.

Lemma skip_class_run cls run c rest :
  Forall (fun x => cls x = true) run -> cls c = false ->
  skip_class cls (run ++ c :: rest) = c :: rest.
Proof.
  intros Hrun Hc. induction Hrun as [|x run Hx _ IH]; cbn [app skip_class].
  - by rewrite Hc.
  - by rewrite Hx.
Qed.

(** A header token followed by anything is recognized, with the whole run
    of numerals. *)
Lemma match_token_run numerals marker run rest :
  run <> [] -> Forall (fun c => in_chars numerals c = true) run ->
  in_chars numerals marker = false ->
  match_token numerals marker (py "第" ++ run ++ marker :: rest)
  = Some (run, rest).
Proof.
  intros Hne Hrun Hm. change (py "第") with [ch "第"]. cbn [app].
  unfold match_token. rewrite Z.eqb_refl. cbv zeta.
  rewrite skip_class_run by done.
  replace (length (run ++ marker :: rest) - length (marker :: rest))%nat
    with (length run) by (rewrite length_app; lia).
  rewrite take_app_length. destruct run; [done|]. by rewrite Z.eqb_refl.
Qed.

Lemma match_token_other numerals marker s :
  startswith s (py "第") = false -> match_token numerals marker s = None.
Proof.
  change (py "第") with [ch "第"]. destruct s as [|c s]; [done|].
  cbn [startswith match_token]. rewrite andb_true_r. by intros ->.
Qed.

(** The run of numerals of a token consists of numerals. *)
Lemma match_token_Some numerals marker s run rest :
  match_token numerals marker s = Some (run, rest) ->
  run <> [] /\ Forall (fun c => in_chars numerals c = true) run /\
  s = py "第" ++ run ++ marker :: rest.
Proof.
  unfold match_token. destruct s as [|c r]; [discriminate|].
  destruct (Z.eqb_spec c (ch "第")) as [->|]; [|discriminate]. cbv zeta.
  pose proof (skip_class_suffix (in_chars numerals) r) as Hsuf.
  pose proof (skip_class_prefix (in_chars numerals) r) as Hpre.
  destruct (take _ r) as [|x run'] eqn:Et; [discriminate|].
  destruct (skip_class (in_chars numerals) r) as [|m rest'] eqn:Es;
    [discriminate|].
  destruct (Z.eqb_spec m marker) as [->|]; [|discriminate].
  intros [= <- <-]. split; [done|]. split; [exact Hpre|].
  change (py "第") with [ch "第"]. cbn [app]. f_equal. exact Hsuf.
Qed.

End Headers.
(** ** extract_pure_article_content *)

Section PureContent.

Lemma article_marker_class : in_chars article_numerals (ch "条") = false.
Proof. vm_compute. reflexivity. Qed.

Lemma extract_header run body :
  run <> [] -> Forall (fun c => in_chars article_numerals c = true) run ->
  extract_pure_article_content (py "第" ++ run ++ py "条" ++ body) = strip body.
Proof.
  intros Hne Hrun. unfold extract_pure_article_content.
  change (py "条" ++ body) with (ch "条" :: body).
  rewrite match_token_run by (done || apply article_marker_class).
  rewrite skip_heading_space. unfold strip. by rewrite lstrip_idem.
Qed.

Lemma extract_no_header text :
  startswith text (py "第") = false ->
  extract_pure_article_content text = strip text.
Proof.
  intros H. unfold extract_pure_article_content.
  by rewrite match_token_other.
Qed.

End PureContent.

(** X11. [extract_pure_article_content] removes the article header: for a
    text that starts with 第, a non-empty run of article numerals and 条,
    the result is the rest of the text, stripped; a text that does not
    start with 第 is only stripped. *)
Theorem extract_pure_article_content_spec :
  (forall run body,
     run <> [] -> Forall (fun c => in_chars article_numerals c = true) run ->
     extract_pure_article_content (py "第" ++ run ++ py "条" ++ body)
     = strip body) /\
  (forall text,
     startswith text (py "第") = false ->
     extract_pure_article_content text = strip text).
Proof. split; [exact extract_header|exact extract_no_header]. Qed.

Lemma extract_pure_article_content_spec_witness :
  extract_pure_article_content (py "第" ++ py "十二" ++ py "条" ++ py "　车辆 ")
  = strip (py "　车辆 ") /\
  extract_pure_article_content (py " 车辆") = strip (py " 车辆").
Proof.
  split.
  - apply (proj1 extract_pure_article_content_spec (py "十二") (py "　车辆 ")).
    + vm_compute. discriminate.
    + vm_compute. repeat constructor.
  - apply (proj2 extract_pure_article_content_spec (py " 车辆")).
    vm_compute. reflexivity.
Defined.

(** ** parse_articles *)

Section Articles.

(** A chapter or section header is no article header: after the numerals
    of a header comes its marker. *)
Lemma heading_numerals_article c :
  in_chars heading_numerals c = true -> in_chars article_numerals c = true.
Proof.
  unfold in_chars, heading_numerals, article_numerals. py_eval.
  cbn [existsb]. intros H.
  repeat match type of H with
  | (?a || ?b) = true => apply orb_true_iff in H as [H|H]
  end; try discriminate; rewrite H; cbn; by rewrite ?orb_true_r.
Qed.

Lemma match_token_exclusive marker s run rest :
  marker <> ch "条" -> in_chars article_numerals marker = false ->
  match_token heading_numerals marker s = Some (run, rest) ->
  match_token article_numerals (ch "条") s = None.
Proof.
  intros Hm Hcls H. apply match_token_Some in H as (Hne & Hrun & ->).
  change (py "第") with [ch "第"]. cbn [app]. unfold match_token.
  rewrite Z.eqb_refl. cbv zeta.
  rewrite skip_class_run; [| |done].
  - replace (length (run ++ marker :: rest) - length (marker :: rest))%nat
      with (length run) by (rewrite length_app; lia).
    rewrite take_app_length. destruct run; [done|].
    by destruct (Z.eqb_spec marker (ch "条")).
  - eapply Forall_impl; [exact Hrun|]. apply heading_numerals_article.
Qed.

Lemma match_header_token numerals marker s g0 run t after :
  match_header numerals marker s = Some (g0, run, t, after) ->
  exists rest, match_token numerals marker s = Some (run, rest).
Proof.
  unfold match_header.
  destruct (match_token numerals marker s) as [[run' rest]|]; [|discriminate].
  destruct (match_title rest) as [[[sp t'] a']|]; [|discriminate].
  intros [= <- <- <- <-]. by exists rest.
Qed.

Lemma match_header_exclusive marker s x :
  marker <> ch "条" -> in_chars article_numerals marker = false ->
  match_header heading_numerals marker s = Some x ->
  match_header article_numerals (ch "条") s = None.
Proof.
  intros Hm Hcls H. destruct x as [[[g0 run] t] after].
  apply match_header_token in H as [rest H].
  unfold match_header. by rewrite (match_token_exclusive _ _ _ _ Hm Hcls H).
Qed.

(** The article record that is saved holds a normalized content. *)
Lemma save_article_inv (P : Z -> Prop) st final :
  dict_wf (articles_so_far st) ->
  Forall (fun kv => P (fst kv) /\
            Forall (fun c => is_space c = false) (content (info (snd kv))))
         (articles_so_far st) ->
  (forall n, current_article_num st = Some n -> P n) ->
  dict_wf (save_article st final) /\
  Forall (fun kv => P (fst kv) /\
            Forall (fun c => is_space c = false) (content (info (snd kv))))
         (save_article st final).
Proof.
  intros Hwf Hall Hcur. unfold save_article.
  destruct (current_article_num st) as [n|]; [|by split].
  split; [by apply dict_set_wf|]. apply dict_set_Forall; [|done].
  cbn [fst snd info content article_record]. split; [by apply Hcur|].
  apply clean_article_content_eq.
Qed.

Lemma save_article_keys st final n :
  In n (keys (save_article st final)) <->
  current_article_num st = Some n \/ In n (keys (articles_so_far st)).
Proof.
  unfold save_article. destruct (current_article_num st) as [m|].
  - rewrite dict_set_keys. split; intros [H|H]; auto; left; congruence.
  - split; [auto|]. by intros [?|?].
Qed.

(** The numbers of the article headers among [lines]. *)
Lemma line_step_spec st line :
  exists st',
    line_step (Some st) line = Some st' /\
    match match_header article_numerals (ch "条") line with
    | Some (_, run, _, _) =>
      articles_so_far st' = save_article st false /\
      exists n, convert_chinese_number run = Some n /\ 0 <= n /\
                current_article_num st' = Some n
    | None =>
      articles_so_far st' = articles_so_far st /\
      current_article_num st' = current_article_num st
    end.
Proof.
  unfold line_step.
  assert (Hm1 : ch "章" <> ch "条") by (vm_compute; discriminate).
  assert (Hm2 : ch "节" <> ch "条") by (vm_compute; discriminate).
  assert (Hc1 : in_chars article_numerals (ch "章") = false)
    by (vm_compute; reflexivity).
  assert (Hc2 : in_chars article_numerals (ch "节") = false)
    by (vm_compute; reflexivity).
  destruct (match_header heading_numerals (ch "章") line)
    as [[[[g0 run] t] after]|] eqn:E1.
  { rewrite (match_header_exclusive _ _ _ Hm1 Hc1 E1).
    destruct (search_token _ _ line) as [run'|]; [|by exists st].
    destruct (convert_total run') as (n & -> & _).
    eexists. split; [reflexivity|]. by split. }
  destruct (match_header heading_numerals (ch "节") line)
    as [[[[g0 run] t] after]|] eqn:E2.
  { rewrite (match_header_exclusive _ _ _ Hm2 Hc2 E2).
    destruct (search_token _ _ line) as [run'|]; [|by exists st].
    destruct (convert_total run') as (n & -> & _).
    eexists. split; [reflexivity|]. by split. }
  destruct (match_header article_numerals (ch "条") line)
    as [[[[g0 run] t] after]|] eqn:E3.
  { destruct (convert_total run) as (n & Hn & Hn0). rewrite Hn.
    eexists. split; [reflexivity|]. split; [reflexivity|].
    exists n. by repeat split. }
  destruct (current_article_num st) as [n|] eqn:En; [|by exists st].
  destruct (strip line) as [|c l]; [by exists st; rewrite En|].
  destruct (_is_section_or_chapter_title (c :: l));
    [by exists st; rewrite En|].
  eexists. split; [reflexivity|]. by split.
Qed.

Lemma fold_line_step lines : forall st,
  dict_wf (articles_so_far st) ->
  Forall (fun kv => 0 <= fst kv /\
            Forall (fun c => is_space c = false) (content (info (snd kv))))
         (articles_so_far st) ->
  (forall n, current_article_num st = Some n -> 0 <= n) ->
  exists st',
    fold_left line_step lines (Some st) = Some st' /\
    dict_wf (articles_so_far st') /\
    Forall (fun kv => 0 <= fst kv /\
              Forall (fun c => is_space c = false) (content (info (snd kv))))
           (articles_so_far st') /\
    (forall n, current_article_num st' = Some n -> 0 <= n) /\
    (forall n,
       (current_article_num st' = Some n \/ In n (keys (articles_so_far st')))
       <->
       (current_article_num st = Some n \/ In n (keys (articles_so_far st)))
       \/ exists line g0 run t after,
            In line lines /\
            match_header article_numerals (ch "条") line
              = Some (g0, run, t, after) /\
            convert_chinese_number run = Some n).
Proof.
  induction lines as [|line lines IH]; intros st Hwf Hall Hcur.
  { exists st. repeat split; try done.
    - by left.
    - intros [H|(? & ? & ? & ? & ? & [] & _)]. exact H. }
  cbn [fold_left]. destruct (line_step_spec st line) as (st1 & -> & Hst1).
  destruct (match_header article_numerals (ch "条") line)
    as [[[[g0 run] t] after]|] eqn:E.
  - destruct Hst1 as (Hart & n1 & Hn1 & Hn1pos & Hcur1).
    destruct (save_article_inv (fun k => 0 <= k) st false Hwf Hall Hcur)
      as [Hwf1 Hall1].
    rewrite <- Hart in Hwf1, Hall1.
    destruct (IH st1 Hwf1 Hall1) as (st' & Hfold & Hwf' & Hall' & Hcur' & Hkeys).
    { intros n. rewrite Hcur1. by intros [= <-]. }
    exists st'. repeat split; try done.
    + intros H. apply Hkeys in H as [[H|H]|(l & a & b & c & d & Hl & Hm & Hc)].
      * right. exists line, g0, run, t, after. rewrite Hcur1 in H.
        injection H as <-. by repeat split; [left|..].
      * rewrite Hart in H. apply save_article_keys in H. by left.
      * right. exists l, a, b, c, d. by repeat split; [right|..].
    + intros H. apply Hkeys.
      destruct H as [H|(l & a & b & c & d & [<-|Hl] & Hm & Hc)].
      * left. right. rewrite Hart. by apply save_article_keys.
      * left. left. rewrite E in Hm. injection Hm as <- <- <- <-.
        rewrite Hcur1. congruence.
      * right. by exists l, a, b, c, d.
  - destruct Hst1 as [Hart Hcur1].
    destruct (IH st1) as (st' & Hfold & Hwf' & Hall' & Hcur' & Hkeys).
    { by rewrite Hart. }
    { by rewrite Hart. }
    { by rewrite Hcur1. }
    exists st'. repeat split; try done.
    + intros H. apply Hkeys in H as [H|(l & a & b & c & d & Hl & Hm & Hc)].
      * left. by rewrite <- Hart, <- Hcur1.
      * right. exists l, a, b, c, d. by repeat split; [right|..].
    + intros H. apply Hkeys.
      destruct H as [H|(l & a & b & c & d & [<-|Hl] & Hm & Hc)].
      * left. by rewrite Hart, Hcur1.
      * congruence.
      * right. by exists l, a, b, c, d.
Qed.

Lemma parse_articles_spec text :
  exists d,
    parse_articles text = Some d /\ dict_wf d /\
    Forall (fun kv => 0 <= fst kv /\
              Forall (fun c => is_space c = false) (content (info (snd kv)))) d
    /\
    (forall n,
       In n (keys d) <->
       exists line g0 run t after,
         In line (split 10 text) /\
         match_header article_numerals (ch "条") line
           = Some (g0, run, t, after) /\
         convert_chinese_number run = Some n).
Proof.
  unfold parse_articles.
  destruct (fold_line_step (split 10 text) initial_state)
    as (st & -> & Hwf & Hall & Hcur & Hkeys).
  { constructor. }
  { constructor. }
  { intros n. discriminate. }
  destruct (save_article_inv (fun k => 0 <= k) st true Hwf Hall Hcur)
    as [Hwf' Hall'].
  eexists. split; [reflexivity|]. split; [exact Hwf'|]. split; [exact Hall'|].
  intros n. rewrite save_article_keys, Hkeys.
  unfold initial_state. cbn [current_article_num articles_so_far keys map In].
  split.
  - by intros [[?|[]]|H].
  - intros H. by right.
Qed.

Lemma law_read_keys law : keys (articles (law_read law)) = keys (law_articles law).
Proof.
  unfold law_read, keys. cbn [articles]. rewrite map_map. by apply map_ext.
Qed.

End Articles.

(** X12. [parse_articles] never fails, and the mapping it returns is well
    formed: its article numbers are pairwise distinct and non-negative,
    and every stored content is normalized, without any white space or
    line break. *)
Theorem parse_articles_well_formed :
  forall text,
    exists d,
      parse_articles text = Some d /\ dict_wf d /\
      Forall (fun kv => 0 <= fst kv /\
                Forall (fun c => is_space c = false) (content (info (snd kv))))
             d.
Proof.
  intros text. destruct (parse_articles_spec text) as (d & H1 & H2 & H3 & _).
  by exists d.
Qed.

(** X13. The article numbers found by [parse_articles] are exactly the
    converted numerals of the lines that match the article pattern: every
    article header gives an entry, and nothing else does. *)
Theorem parse_articles_numbers :
  forall text,
    exists d,
      parse_articles text = Some d /\
      forall n,
        In n (keys d) <->
        exists line g0 run t after,
          In line (split 10 text) /\
          match_header article_numerals (ch "条") line
            = Some (g0, run, t, after) /\
          convert_chinese_number run = Some n.
Proof.
  intros text. destruct (parse_articles_spec text) as (d & H1 & _ & _ & H4).
  by exists d.
Qed.

(** X14. A text in which no line starts with 第 has no article: the
    result is the empty mapping. *)
Theorem parse_articles_no_header :
  forall text,
    Forall (fun line => startswith line (py "第") = false) (split 10 text) ->
    parse_articles text = Some [].
Proof.
  intros text Hlines.
  destruct (parse_articles_spec text) as (d & Hd & _ & _ & Hkeys).
  rewrite Hd. f_equal. destruct d as [|[n a] d]; [done|]. exfalso.
  destruct (proj1 (Hkeys n)) as (line & g0 & run & t & after & Hl & Hm & _).
  { by left. }
  rewrite Forall_forall in Hlines. apply list_elem_of_In in Hl.
  apply Hlines in Hl. unfold match_header in Hm.
  by rewrite match_token_other in Hm.
Qed.

Lemma parse_articles_no_header_witness :
  parse_articles (py "总则" ++ [10] ++ py "本法自公布之日起施行。") = Some [].
Proof.
  apply (parse_articles_no_header
           (py "总则" ++ [10] ++ py "本法自公布之日起施行。")).
  vm_compute. repeat constructor.
Defined.

(** ** parse_chapters and parse_sections *)

Section Headings.

Lemma clean_spaces_chars s : Forall (fun c => is_space c = false) (_clean_spaces s).
Proof.
  rewrite clean_spaces_filter. apply Forall_forall. intros c Hc.
  apply list_elem_of_In, filter_In in Hc as [_ Hc]. by apply negb_true_iff.
Qed.

Lemma chapter_fold ms : forall chapters,
  dict_wf chapters ->
  Forall (fun kv => 0 <= fst kv /\
            Forall (fun c => is_space c = false) (title (snd kv))) chapters ->
  exists d,
    fold_left chapter_step ms (Some chapters) = Some d /\ dict_wf d /\
    Forall (fun kv => 0 <= fst kv /\
              Forall (fun c => is_space c = false) (title (snd kv))) d.
Proof.
  induction ms as [|m ms IH]; intros chapters Hwf Hall; [by exists chapters|].
  cbn [fold_left chapter_step].
  destruct (search_token _ _ _) as [run|]; [|by apply IH].
  destruct (convert_total run) as (n & -> & Hn). apply IH.
  - by apply dict_set_wf.
  - apply dict_set_Forall; [|done]. cbn [fst snd title].
    split; [done|apply clean_spaces_chars].
Qed.

Lemma section_fold ms : forall sections,
  dict_wf sections ->
  Forall (fun kv => 0 <= fst kv /\ strip (title (snd kv)) = title (snd kv))
         sections ->
  exists d,
    fold_left section_step ms (Some sections) = Some d /\ dict_wf d /\
    Forall (fun kv => 0 <= fst kv /\ strip (title (snd kv)) = title (snd kv)) d.
Proof.
  induction ms as [|m ms IH]; intros sections Hwf Hall; [by exists sections|].
  cbn [fold_left section_step].
  destruct (search_token _ _ _) as [run|]; [|by apply IH].
  destruct (convert_total run) as (n & -> & Hn). apply IH.
  - by apply dict_set_wf.
  - apply dict_set_Forall; [|done]. cbn [fst snd title].
    split; [done|apply strip_idem].
Qed.

Lemma parse_headings_spec text :
  exists chs secs,
    parse_chapters text = Some chs /\ parse_sections text = Some secs /\
    dict_wf chs /\ dict_wf secs /\
    Forall (fun kv => 0 <= fst kv /\
              Forall (fun c => is_space c = false) (title (snd kv))) chs /\
    Forall (fun kv => 0 <= fst kv /\ strip (title (snd kv)) = title (snd kv))
           secs.
Proof.
  unfold parse_chapters, parse_sections.
  destruct (chapter_fold (finditer heading_numerals (ch "章") text) [])
    as (chs & E1 & Hwf1 & Hall1); [constructor|constructor|].
  destruct (section_fold (finditer heading_numerals (ch "节") text) [])
    as (secs & E2 & Hwf2 & Hall2); [constructor|constructor|].
  exists chs, secs. split; [exact E1|]. split; [exact E2|]. done.
Qed.

End Headings.

(** X15. [parse_chapters] and [parse_sections] never fail; the numbers of
    the mappings they return are pairwise distinct and non-negative, a
    chapter title holds no white space at all, and a section title none
    at its ends. *)
Theorem parse_headings_well_formed :
  forall text,
    exists chs secs,
      parse_chapters text = Some chs /\ parse_sections text = Some secs /\
      dict_wf chs /\ dict_wf secs /\
      Forall (fun kv => 0 <= fst kv /\
                Forall (fun c => is_space c = false) (title (snd kv))) chs /\
      Forall (fun kv => 0 <= fst kv /\ strip (title (snd kv)) = title (snd kv))
             secs.
Proof. exact parse_headings_spec. Qed.

(** ** From two texts to a comparison *)

Section Pipeline.

Lemma parse_file_content_spec text :
  exists law,
    parse_file_content text = Some law /\
    dict_wf (articles (law_read law)) /\
    parsed_numbers (articles (law_read law)).
Proof.
  unfold parse_file_content.
  destruct (parse_headings_spec (clean_text text))
    as (chs & secs & -> & -> & _).
  destruct (parse_articles_spec (clean_text text)) as (d & -> & Hwf & Hall & _).
  eexists. split; [reflexivity|].
  unfold dict_wf, parsed_numbers. rewrite !law_read_keys. cbn [law_articles].
  split; [exact Hwf|]. apply Forall_forall. intros k Hk.
  apply list_elem_of_In, in_map_iff in Hk as (kv & <- & Hkv).
  rewrite Forall_forall in Hall. apply list_elem_of_In in Hkv.
  by apply Hall in Hkv as [? _].
Qed.

End Pipeline.

(** X16. Parsing and aligning never fail, and a comparison fails in one
    way only. For any two texts, any threshold and any list of manual
    matches, both texts parse and the parsed documents are aligned; the
    comparison returns a result when the diff library has the depth for
    the shorter of any two contents; and when it does not return, the
    diff of a matched pair of similarity below 0.98 has exceeded the
    depth. No look-up of an article number raises a [KeyError]. *)
Theorem parse_and_compare_returns :
  forall depth self text1 text2,
    exists law1 law2 mr,
      parse_file_content text1 = Some law1 /\
      parse_file_content text2 = Some law2 /\
      intelligent_article_matching self (articles (law_read law1))
                                   (articles (law_read law2)) = Some mr /\
      (within_depth depth (law_read law1) (law_read law2) = true ->
         exists r,
           compare_articles depth self (law_read law1) (law_read law2)
           = Some r) /\
      (compare_articles depth self (law_read law1) (law_read law2) = None ->
         exists e content1 content2,
           In e (result_matches mr) /\
           (similarity e < 98 # 100)%Q /\
           diff_call (law_read law1) (law_read law2) e
           = Some (content1, content2) /\
           Differ.compare depth content1 content2 = None).
Proof.
  intros depth self text1 text2.
  destruct (parse_file_content_spec text1) as (law1 & H1 & _).
  destruct (parse_file_content_spec text2) as (law2 & H2 & _ & Hp).
  destruct (compare_articles_spec depth self (law_read law1) (law_read law2) Hp)
    as (mr & Hmr & _).
  exists law1, law2, mr. split; [exact H1|]. split; [exact H2|].
  split; [exact Hmr|]. split.
  - by apply compare_articles_returns.
  - intros Hnone.
    destruct (compare_articles_fails _ _ _ _ mr Hp Hmr Hnone)
      as (e & c1 & c2 & He & Hcall & Hcmp).
    exists e, c1, c2. split; [exact He|]. split; [|by split].
    unfold diff_call in Hcall.
    destruct (article2_num e =? -1); [discriminate|].
    destruct (dict_get _ _); [|discriminate].
    destruct (dict_get _ _); [|discriminate].
    destruct (Qgeb (similarity e) (98 # 100)) eqn:E; [discriminate|].
    by apply Qgeb_false.
Qed.

(** Two articles of 200 characters, matched by hand, whose diff needs
    more than five nested calls: the comparison does not return. *)
Lemma parse_and_compare_returns_witness :
  exists e,
    (similarity e < 98 # 100)%Q /\
    match_type e = manual /\
    Differ.compare 5 text_ab text_ba = None.
Proof.
  destruct (parse_and_compare_returns 5
              {| similarity_threshold := 8 # 10;
                 manual_matches := [{| old_number := 1; new_number := 1 |}] |}
              (py "第一条 " ++ text_ab) (py "第一条 " ++ text_ba))
    as (law1 & law2 & mr & H1 & H2 & Hmr & _ & Hfail).
  vm_compute in H1. injection H1 as <-.
  vm_compute in H2. injection H2 as <-.
  vm_compute in Hmr. injection Hmr as <-.
  destruct Hfail as (e & c1 & c2 & He & Hsim & Hcall & Hcmp).
  { vm_compute. reflexivity. }
  cbn [result_matches In] in He. destruct He as [<-|[]].
  vm_compute in Hcall. injection Hcall as <- <-.
  eexists. split; [exact Hsim|]. split; [reflexivity|exact Hcmp].
Defined.

(** X17. For any two texts, when no old number and no new number occurs
    twice in the list of manual matches, the alignment of the parsed
    documents is a partial bijection: the parser always delivers documents
    with distinct, non-negative article numbers. *)
Theorem parsed_alignment_partial_bijection :
  forall self text1 text2,
    NoDup (map old_number (manual_matches self)) ->
    NoDup (map new_number (manual_matches self)) ->
    exists law1 law2 r,
      parse_file_content text1 = Some law1 /\
      parse_file_content text2 = Some law2 /\
      intelligent_article_matching self (articles (law_read law1))
                                   (articles (law_read law2)) = Some r /\
      NoDup (map article1_num (matched_entries (result_matches r))) /\
      NoDup (map article2_num (matched_entries (result_matches r))).
Proof.
  intros self text1 text2 Ho Hn.
  destruct (parse_file_content_spec text1) as (law1 & H1 & Hwf1 & _).
  destruct (parse_file_content_spec text2) as (law2 & H2 & _ & Hp2).
  destruct (partial_bijection_iff self _ _ Hwf1 Hp2) as (r & Hr & Hiff).
  exists law1, law2, r. split; [done|]. split; [done|]. split; [done|].
  apply Hiff. split; by apply NoDup_map_filter.
Qed.

Lemma parsed_alignment_partial_bijection_witness :
  exists law1 law2 r,
    parse_file_content (py "第一条 甲乙丙") = Some law1 /\
    parse_file_content (py "第一条 甲乙丁") = Some law2 /\
    intelligent_article_matching
      {| similarity_threshold := 8 # 10;
         manual_matches := [{| old_number := 1; new_number := 1 |}] |}
      (articles (law_read law1)) (articles (law_read law2)) = Some r /\
    NoDup (map article1_num (matched_entries (result_matches r))) /\
    NoDup (map article2_num (matched_entries (result_matches r))).
Proof.
  apply (parsed_alignment_partial_bijection
           {| similarity_threshold := 8 # 10;
              manual_matches := [{| old_number := 1; new_number := 1 |}] |}
           (py "第一条 甲乙丙") (py "第一条 甲乙丁")).
  - apply (bool_decide_eq_true_1 (NoDup [1])). vm_compute. reflexivity.
  - apply (bool_decide_eq_true_1 (NoDup [1])). vm_compute. reflexivity.
Defined.

(** ** is_manually_matched *)

(** X18. [is_manually_matched] holds exactly when some manual match has
    the given old number or the given new number; with neither number
    given it is false. *)
Theorem is_manually_matched_spec :
  forall mm old new,
    is_manually_matched mm old new = true <->
    exists m, In m mm /\
      (old = Some (old_number m) \/ new = Some (new_number m)).
Proof.
  intros mm old new. induction mm as [|m mm IH]; cbn [is_manually_matched In].
  - split; [discriminate|]. by intros (? & [] & _).
  - destruct old as [o|], new as [n|];
      repeat match goal with
      | |- context [?a =? ?b] => destruct (Z.eqb_spec a b)
      end;
      try (split; [intros _; exists m; split; [by left|]; subst; auto|done]);
      rewrite IH; split;
      try (intros (m' & Hm' & H); exists m'; split; [by right|exact H]);
      intros (m' & [<-|Hm'] & H);
      try (exists m'; by split);
      destruct H as [H|H]; congruence.
Qed.

(* ===================================================================== *)
(** * Further properties of the alignment *)
(* ===================================================================== *)

Section Alignment.

Lemma auto_spec_used threshold articles1 articles2 order used entries used' :
  auto_spec threshold articles1 articles2 order used entries used' ->
  used' = used ∪ list_to_set (map article2_num (matched_entries entries)).
Proof.
  induction 1 as [used|n order used art1 m s entries used' Hget Hbest Hpos Hthr _ IH
                 |n order used art1 entries used' Hget Hall _ IH].
  - cbn. by rewrite union_empty_r_L.
  - rewrite IH. cbn [matched_entries List.filter matched match_type map].
    cbn [list_to_set]. fold (matched_entries entries).
    by rewrite (assoc_L (∪)).
  - rewrite IH. by cbn [matched_entries List.filter matched match_type].
Qed.

(** The shape of the entries of the automatic phase. *)
Lemma auto_spec_entries threshold articles1 articles2 order used entries used' :
  auto_spec threshold articles1 articles2 order used entries used' ->
  Forall (fun e =>
            (match_type e = auto /\ In (article2_num e) (keys articles2) /\
             article2_num e ∉ used) \/
            (match_type e = none /\ article2_num e = -1 /\
             similarity e = 0%Q)) entries.
Proof.
  induction 1 as [used|n order used art1 m s entries used' Hget Hbest Hpos Hthr _ IH
                 |n order used art1 entries used' Hget Hall _ IH].
  - constructor.
  - constructor.
    + left. cbn. split; [done|].
      apply best_of_In in Hbest as (art2 & Hin & _).
      apply candidates_In in Hin as [Hin Hm]. split; [|done].
      unfold keys. apply in_map_iff. by exists (m, art2).
    + eapply Forall_impl; [exact IH|]. intros e [(Ht & Hk & Hu)|Hn]; [left|by right].
      repeat split; try done. intros Hx. apply Hu. apply elem_of_union. by left.
  - constructor; [by right|exact IH].
Qed.

Lemma remaining_keys_iff (d : dict Z Article) used n :
  In n (keys (remaining d used)) <-> In n (keys d) /\ n ∉ used.
Proof.
  split; [apply remaining_keys|]. intros [Hin Hn].
  unfold keys in *. apply in_map_iff in Hin as ([k a] & <- & Hin).
  apply in_map_iff. exists (k, a). split; [done|]. by apply remaining_In.
Qed.

Lemma applicable_keys articles1 articles2 (m : ManualMatch) :
  applicable articles1 articles2 m = true ->
  In (old_number m) (keys articles1) /\ In (new_number m) (keys articles2).
Proof.
  unfold applicable. intros H. apply andb_prop in H as [H1 H2].
  split; by apply dict_get_keys, dict_mem_get.
Qed.

Lemma In_list_to_set (l : list Z) n : n ∈ (list_to_set l : gset Z) <-> In n l.
Proof. rewrite elem_of_list_to_set. apply list_elem_of_In. Qed.

Lemma In_sorted l n : In n (sorted l) <-> In n l.
Proof.
  split; apply Permutation_in; [apply sorted_perm|].
  symmetry. apply sorted_perm.
Qed.

(** The whole result of the alignment, in terms of the applicable manual
    matches and of the entries of the automatic phase. *)
Lemma StronglySorted_filter {A} (R : A -> A -> Prop) (p : A -> bool) l :
  StronglySorted R l -> StronglySorted R (List.filter p l).
Proof.
  induction 1 as [|x l Hs IH Hx]; cbn [List.filter]; [constructor|].
  destruct (p x); [|exact IH]. constructor; [exact IH|].
  apply List.Forall_forall. intros y Hy. apply filter_In in Hy as [Hy _].
  rewrite List.Forall_forall in Hx. by apply Hx.
Qed.

Lemma matching_shape self articles1 articles2 :
  parsed_numbers articles2 ->
  let app := List.filter (applicable articles1 articles2) (manual_matches self) in
  let used1 : gset Z := list_to_set (map old_number app) in
  let used2 : gset Z := list_to_set (map new_number app) in
  exists r entries,
    intelligent_article_matching self articles1 articles2 = Some r /\
    result_matches r = map (manual_entry articles1 articles2) app ++ entries /\
    map article1_num entries = sorted (keys (remaining articles1 used1)) /\
    Forall (fun e =>
              (match_type e = auto /\ In (article2_num e) (keys articles2) /\
               article2_num e ∉ used2) \/
              (match_type e = none /\ article2_num e = -1 /\
               similarity e = 0%Q)) entries /\
    NoDup (map article2_num (matched_entries entries)) /\
    (forall n, In n (result_new r) <->
       In n (keys articles2) /\
       ~ In n (map article2_num (matched_entries (result_matches r)))) /\
    result_new r
    = List.filter (fun n => negb (bool_decide (n ∈ result_used_articles2 r)))
                  (sorted (keys articles2)).
Proof.
  intros Hp app used1 used2.
  destruct (matching_spec self articles1 articles2 Hp)
    as (r & entries & Hr & Hm & Hspec & Hnew).
  destruct (manual_phase_spec articles1 articles2 self) as (Hm0 & Hu1 & Hu2).
  fold app in Hm0, Hu1, Hu2. rewrite Hm0 in Hm. rewrite Hu1, Hu2 in Hspec.
  fold used1 used2 in Hspec.
  exists r, entries. split; [exact Hr|]. split; [exact Hm|].
  split; [by apply auto_spec_olds in Hspec|].
  split.
  { eapply Forall_impl; [apply (auto_spec_entries _ _ _ _ _ _ _ Hspec)|].
    intros e [(Ht & Hin & Hu)|Hn]; [left|by right]. repeat split; try done.
    unfold keys in *. apply in_map_iff in Hin as (kv & <- & Hin).
    apply in_map_iff. exists kv. split; [done|].
    destruct kv. by apply remaining_In in Hin as [? _]. }
  split; [by apply auto_spec_news in Hspec as [? _]|].
  split; [|exact Hnew].
  intros n. rewrite Hnew, filter_In, In_sorted, negb_true_iff, bool_decide_eq_false.
  rewrite (auto_spec_used _ _ _ _ _ _ _ Hspec), Hm.
  rewrite matched_entries_app, matched_manual_entries, map_app, map_map.
  cbn [manual_entry article2_num]. fold used2.
  rewrite in_app_iff, elem_of_union, !In_list_to_set.
  unfold used2. rewrite In_list_to_set. tauto.
Qed.

End Alignment.

Section AlignmentResults.

Lemma matching_olds self articles1 articles2 :
  parsed_numbers articles2 -> dict_wf articles1 ->
  let app := List.filter (applicable articles1 articles2) (manual_matches self) in
  exists r,
    intelligent_article_matching self articles1 articles2 = Some r /\
    (forall n, In n (map article1_num (result_matches r)) <->
               In n (keys articles1)) /\
    (NoDup (map old_number app) ->
     map article1_num (result_matches r) ≡ₚ keys articles1).
Proof.
  intros Hp Hwf app.
  destruct (matching_shape self articles1 articles2 Hp)
    as (r & entries & Hr & Hm & Holds & _).
  fold app in Hm, Holds. exists r. split; [exact Hr|].
  assert (Hmap : map article1_num (result_matches r)
                 = map old_number app
                   ++ sorted (keys (remaining articles1
                                      (list_to_set (map old_number app))))).
  { rewrite Hm, map_app, map_map, Holds. by cbn [manual_entry article1_num]. }
  assert (Happ : forall n, In n (map old_number app) -> In n (keys articles1)).
  { intros n Hn. apply in_map_iff in Hn as (m & <- & Hm').
    apply filter_In in Hm' as [_ Hm']. by apply applicable_keys in Hm' as [? _]. }
  assert (Hiff : forall n, In n (map article1_num (result_matches r)) <->
                           In n (keys articles1)).
  { intros n. rewrite Hmap, in_app_iff, In_sorted, remaining_keys_iff.
    split.
    - intros [H|[H _]]; [by apply Happ|exact H].
    - intros H. destruct (in_dec Z.eq_dec n (map old_number app)) as [Hi|Hi];
        [by left|right].
      split; [exact H|]. intros Hs. by apply In_list_to_set in Hs. }
  split; [exact Hiff|]. intros Hnd. apply NoDup_Permutation;
    [| |intros x; rewrite !list_elem_of_In; apply Hiff].
  - rewrite Hmap. apply NoDup_app. split; [exact Hnd|]. split.
    + intros n Hn1 Hn2. rewrite list_elem_of_In, In_sorted in Hn2.
      apply remaining_keys_iff in Hn2 as [_ Hn2]. apply Hn2.
      by apply elem_of_list_to_set.
    + rewrite sorted_perm. by apply remaining_wf.
  - exact Hwf.
Qed.

Lemma matching_manual self articles1 articles2 m :
  parsed_numbers articles2 ->
  In m (manual_matches self) -> applicable articles1 articles2 m = true ->
  exists r,
    intelligent_article_matching self articles1 articles2 = Some r /\
    In (manual_entry articles1 articles2 m) (result_matches r) /\
    (forall e, In e (result_matches r) ->
       article1_num e = old_number m \/ article2_num e = new_number m ->
       match_type e = manual) /\
    ~ In (new_number m) (result_new r).
Proof.
  intros Hp Hin Happ.
  destruct (matching_shape self articles1 articles2 Hp)
    as (r & entries & Hr & Hm & Holds & Hshape & _ & Hnew & _).
  set (app := List.filter (applicable articles1 articles2) (manual_matches self))
    in *.
  assert (Hm_app : In m app) by (by apply filter_In).
  exists r. split; [exact Hr|]. split; [|split].
  - rewrite Hm. apply in_app_iff. left. by apply in_map.
  - intros e He Hnum. rewrite Hm in He. apply in_app_iff in He as [He|He].
    { by apply in_map_iff in He as (m' & <- & _). }
    exfalso. destruct Hnum as [Ho|Hn].
    + assert (Hk : In (article1_num e)
                      (sorted (keys (remaining articles1
                                       (list_to_set (map old_number app)))))).
      { rewrite <- Holds. by apply in_map. }
      rewrite In_sorted in Hk. apply remaining_keys_iff in Hk as [_ Hk]. apply Hk.
      apply In_list_to_set. rewrite Ho. by apply in_map.
    + rewrite Forall_forall in Hshape. apply list_elem_of_In in He.
      destruct (Hshape e He) as [(_ & _ & Hu)|(_ & Hneg & _)].
      * apply Hu. apply In_list_to_set. rewrite Hn. by apply in_map.
      * apply applicable_keys in Happ as [_ Hk].
        unfold parsed_numbers in Hp. rewrite Forall_forall in Hp.
        apply list_elem_of_In, Hp in Hk. lia.
  - intros Hn. apply Hnew in Hn as [_ Hn]. apply Hn.
    rewrite Hm, matched_entries_app, matched_manual_entries, map_app.
    apply in_app_iff. left. rewrite map_map. cbn [manual_entry article2_num].
    by apply in_map.
Qed.

Lemma remaining_empty (d : dict Z Article) : remaining d ∅ = d.
Proof.
  unfold remaining. induction d as [|[k a] d IH]; [done|].
  cbn [List.filter fst].
  rewrite bool_decide_eq_false_2 by apply not_elem_of_empty. cbn [negb].
  by f_equal.
Qed.

Lemma filter_unused_empty (l : list Z) :
  List.filter (fun n => negb (bool_decide (n ∈ (∅ : gset Z)))) l = l.
Proof.
  induction l as [|n l IH]; [done|]. cbn [List.filter].
  rewrite bool_decide_eq_false_2 by apply not_elem_of_empty. cbn [negb].
  by f_equal.
Qed.

Lemma matching_empty_new self articles1 :
  exists r,
    intelligent_article_matching self articles1 [] = Some r /\
    result_new r = [] /\
    map article1_num (result_matches r) = sorted (keys articles1) /\
    Forall (fun e => match_type e = none /\ article2_num e = -1 /\
                     similarity e = 0%Q) (result_matches r).
Proof.
  destruct (matching_shape self articles1 []) as
    (r & entries & Hr & Hm & Holds & Hshape & _ & _ & Hnew); [constructor|].
  assert (Happ : forall l, List.filter (applicable articles1 []) l = []).
  { induction l as [|m l IH]; [done|]. cbn [List.filter].
    unfold applicable at 1. cbn. rewrite andb_false_r. exact IH. }
  rewrite Happ in Hm, Holds, Hshape. cbn [map app list_to_set] in Hm, Holds.
  exists r. split; [exact Hr|]. split; [by rewrite Hnew|].
  rewrite Hm. split.
  - rewrite Holds. by rewrite remaining_empty.
  - eapply Forall_impl; [exact Hshape|]. by intros e [(_ & [] & _)|?].
Qed.

Lemma matching_empty_old self articles2 :
  intelligent_article_matching self [] articles2
  = Some {| result_matches := []; result_new := sorted (keys articles2);
            result_used_articles2 := ∅; manual_matches_count := 0 |}.
Proof.
  unfold intelligent_article_matching.
  assert (Hst : manual_phase self [] articles2
                = {| matches := []; used_articles1 := ∅; used_articles2 := ∅;
                     manual_matches_processed := 0 |}).
  { unfold manual_phase. generalize (manual_matches self).
    induction l as [|m l IH]; [done|]. cbn [fold_left]. exact IH. }
  rewrite Hst. cbn [used_articles1 used_articles2 matches
                    manual_matches_processed].
  rewrite remaining_empty. cbn [keys map sorted Difflib.sort_by foldr fold_left].
  by rewrite filter_unused_empty.
Qed.

End AlignmentResults.

(** X19. Every old article gets an entry: the old numbers of the entries
    of an alignment are the article numbers of the old document, and when
    no old number occurs twice among the applicable manual matches every
    old article has exactly one entry. *)
Theorem matching_covers_old_articles :
  forall self articles1 articles2,
    parsed_numbers articles2 -> dict_wf articles1 ->
    let app := List.filter (applicable articles1 articles2) (manual_matches self) in
    exists r,
      intelligent_article_matching self articles1 articles2 = Some r /\
      (forall n, In n (map article1_num (result_matches r)) <->
                 In n (keys articles1)) /\
      (NoDup (map old_number app) ->
       map article1_num (result_matches r) ≡ₚ keys articles1).
Proof. exact matching_olds. Qed.

Lemma matching_covers_old_articles_witness :
  exists r,
    intelligent_article_matching
      {| similarity_threshold := 8 # 10;
         manual_matches := [{| old_number := 2; new_number := 3 |}] |}
      old_doc new_doc = Some r /\
    (forall n, In n (map article1_num (result_matches r)) <->
               In n (keys old_doc)) /\
    (NoDup (map old_number
              (List.filter (applicable old_doc new_doc)
                 [{| old_number := 2; new_number := 3 |}])) ->
     map article1_num (result_matches r) ≡ₚ keys old_doc).
Proof.
  apply (matching_covers_old_articles
           {| similarity_threshold := 8 # 10;
              manual_matches := [{| old_number := 2; new_number := 3 |}] |}
           old_doc new_doc).
  - unfold parsed_numbers. cbn. repeat (apply Forall_cons_2; [lia|]).
    apply Forall_nil_2.
  - apply (bool_decide_eq_true_1 (NoDup (keys old_doc))). vm_compute.
    reflexivity.
Defined.

(** X20. The list of new articles of an alignment holds exactly the
    article numbers of the new document that no matched entry uses, in
    ascending order. *)
Theorem matching_new_articles :
  forall self articles1 articles2,
    parsed_numbers articles2 ->
    exists r,
      intelligent_article_matching self articles1 articles2 = Some r /\
      (forall n, In n (result_new r) <->
         In n (keys articles2) /\
         ~ In n (map article2_num (matched_entries (result_matches r)))) /\
      StronglySorted Z.le (result_new r).
Proof.
  intros self articles1 articles2 Hp.
  destruct (matching_shape self articles1 articles2 Hp)
    as (r & entries & Hr & _ & _ & _ & _ & Hnew & Heq).
  exists r. split; [exact Hr|]. split; [exact Hnew|].
  rewrite Heq. apply StronglySorted_filter, sorted_le.
Qed.

Lemma matching_new_articles_witness :
  exists r,
    intelligent_article_matching
      {| similarity_threshold := 8 # 10; manual_matches := [] |}
      old_doc new_doc = Some r /\
    (forall n, In n (result_new r) <->
       In n (keys new_doc) /\
       ~ In n (map article2_num (matched_entries (result_matches r)))) /\
    StronglySorted Z.le (result_new r).
Proof.
  apply (matching_new_articles
           {| similarity_threshold := 8 # 10; manual_matches := [] |}
           old_doc new_doc).
  unfold parsed_numbers. cbn. repeat (apply Forall_cons_2; [lia|]).
  apply Forall_nil_2.
Defined.

(** X21. Manual matches take precedence: a manual match whose two
    articles exist is recorded as a manual entry whatever the similarity
    of the two contents; no automatic or unmatched entry mentions its old
    or its new number, and its new number is not listed as new. *)
Theorem manual_match_precedence :
  forall self articles1 articles2 m,
    parsed_numbers articles2 ->
    In m (manual_matches self) -> applicable articles1 articles2 m = true ->
    exists r,
      intelligent_article_matching self articles1 articles2 = Some r /\
      In (manual_entry articles1 articles2 m) (result_matches r) /\
      (forall e, In e (result_matches r) ->
         article1_num e = old_number m \/ article2_num e = new_number m ->
         match_type e = manual) /\
      ~ In (new_number m) (result_new r).
Proof. exact matching_manual. Qed.

Lemma manual_match_precedence_witness :
  exists r,
    intelligent_article_matching
      {| similarity_threshold := 8 # 10;
         manual_matches := [{| old_number := 2; new_number := 3 |}] |}
      old_doc new_doc = Some r /\
    In (manual_entry old_doc new_doc {| old_number := 2; new_number := 3 |})
       (result_matches r) /\
    (forall e, In e (result_matches r) ->
       article1_num e = 2 \/ article2_num e = 3 -> match_type e = manual) /\
    ~ In 3 (result_new r).
Proof.
  apply (manual_match_precedence
           {| similarity_threshold := 8 # 10;
              manual_matches := [{| old_number := 2; new_number := 3 |}] |}
           old_doc new_doc {| old_number := 2; new_number := 3 |}).
  - unfold parsed_numbers. cbn. repeat (apply Forall_cons_2; [lia|]).
    apply Forall_nil_2.
  - by left.
  - vm_compute. reflexivity.
Defined.

(** X22. Empty documents: against an empty new document every old
    article is recorded as unmatched, in ascending order, and nothing is
    new; against an empty old document there is no entry and every new
    article is new. Manual matches cannot apply in either case. *)
Theorem matching_empty_documents :
  forall self articles,
    (exists r,
       intelligent_article_matching self articles [] = Some r /\
       result_new r = [] /\
       map article1_num (result_matches r) = sorted (keys articles) /\
       Forall (fun e => match_type e = none /\ article2_num e = -1 /\
                        similarity e = 0%Q) (result_matches r)) /\
    intelligent_article_matching self [] articles
    = Some {| result_matches := []; result_new := sorted (keys articles);
              result_used_articles2 := ∅; manual_matches_count := 0 |}.
Proof.
  intros self articles.
  split; [apply matching_empty_new|apply matching_empty_old].
Qed.

(* ===================================================================== *)
(** * Further properties of the comparison *)
(* ===================================================================== *)

Section Statistics.

Variable depth : nat.
Variables law1 law2 : Law.

Lemma count_cons {A} (p : A -> bool) x l :
  count p (x :: l) = (if p x then 1 else 0) + count p l.
Proof.
  unfold count. cbn [List.filter]. destruct (p x); cbn [length]; lia.
Qed.

(** What one iteration of the classification loop does to the counters
    and to the mapping. *)
Lemma classify_step_stats r e r' :
  classify_step depth law1 law2 (Some r) e = Some r' ->
  let st := statistics r in
  let st' := statistics r' in
  total_articles_v1 st' = total_articles_v1 st /\
  total_articles_v2 st' = total_articles_v2 st /\
  identical_count st' - Z.of_nat (length (identical r'))
    = identical_count st - Z.of_nat (length (identical r)) /\
  modified_count st' - Z.of_nat (length (modified r'))
    = modified_count st - Z.of_nat (length (modified r)) /\
  deleted_count st' - Z.of_nat (length (deleted r'))
    = deleted_count st - Z.of_nat (length (deleted r)) /\
  new_count st' = new_count st /\ new r' = new r /\
  manual_count st' = manual_count st + (if is_manual e then 1 else 0) /\
  auto_count st' = auto_count st + (if is_auto e then 1 else 0) /\
  identical_count st' + modified_count st'
    = identical_count st + modified_count st + (if has_new e then 1 else 0) /\
  deleted_count st' = deleted_count st + (if has_new e then 0 else 1) /\
  mapping r' = (if has_new e
                then dict_set (mapping r) (article1_num e) (article2_num e)
                else mapping r).
Proof.
  unfold classify_step, is_manual, is_auto, has_new.
  destruct (article2_num e =? -1).
  - destruct (dict_get (articles law1) (article1_num e)); [|discriminate].
    intros [= <-]. cbn. rewrite ?length_app. cbn [length].
    destruct (match_type e); repeat split; lia.
  - destruct (dict_get (articles law1) (article1_num e)); [|discriminate].
    destruct (dict_get (articles law2) (article2_num e)); [|discriminate].
    destruct (Qgeb _ _);
      [|destruct (generate_unified_html_diff _ _ _); [|discriminate]];
      intros [= <-]; cbn; rewrite ?length_app;
      cbn [length]; destruct (match_type e); repeat split; lia.
Qed.

Lemma classify_fold_stats ms : forall r0 r,
  fold_left (classify_step depth law1 law2) ms (Some r0) = Some r ->
  let st := statistics r0 in
  let st' := statistics r in
  total_articles_v1 st' = total_articles_v1 st /\
  total_articles_v2 st' = total_articles_v2 st /\
  identical_count st' - Z.of_nat (length (identical r))
    = identical_count st - Z.of_nat (length (identical r0)) /\
  modified_count st' - Z.of_nat (length (modified r))
    = modified_count st - Z.of_nat (length (modified r0)) /\
  deleted_count st' - Z.of_nat (length (deleted r))
    = deleted_count st - Z.of_nat (length (deleted r0)) /\
  new_count st' = new_count st /\ new r = new r0 /\
  manual_count st' = manual_count st + count is_manual ms /\
  auto_count st' = auto_count st + count is_auto ms /\
  identical_count st' + modified_count st'
    = identical_count st + modified_count st + count has_new ms /\
  deleted_count st' = deleted_count st + (Z.of_nat (length ms) - count has_new ms) /\
  mapping r = fold_left (fun m e =>
                           if has_new e
                           then dict_set m (article1_num e) (article2_num e)
                           else m) ms (mapping r0).
Proof.
  induction ms as [|e ms IH]; intros r0 r.
  { intros [= <-]. cbv zeta. unfold count. cbn [List.filter length fold_left].
    repeat split; try reflexivity; lia. }
  cbn [fold_left].
  destruct (classify_step depth law1 law2 (Some r0) e) as [r1|] eqn:E;
    [|by rewrite classify_fold_None].
  intros Hfold. specialize (IH r1 r Hfold). cbv zeta in IH.
  apply classify_step_stats in E. cbv zeta in E.
  destruct IH as (I1 & I2 & I3 & I4 & I5 & I6 & I7 & I8 & I9 & I10 & I11 & I12).
  destruct E as (E1 & E2 & E3 & E4 & E5 & E6 & E7 & E8 & E9 & E10 & E11 & E12).
  cbv zeta. rewrite !count_cons. cbn [length].
  rewrite I12, E12.
  destruct (has_new e), (is_manual e), (is_auto e);
    repeat split; try congruence; try lia.
Qed.

Lemma new_fold_stats ns : forall r0 r,
  fold_left (new_step law2) ns (Some r0) = Some r ->
  let st := statistics r0 in
  let st' := statistics r in
  total_articles_v1 st' = total_articles_v1 st /\
  total_articles_v2 st' = total_articles_v2 st /\
  identical_count st' = identical_count st /\ identical r = identical r0 /\
  modified_count st' = modified_count st /\ modified r = modified r0 /\
  deleted_count st' = deleted_count st /\ deleted r = deleted r0 /\
  manual_count st' = manual_count st /\ auto_count st' = auto_count st /\
  mapping r = mapping r0 /\
  new_count st' = new_count st + Z.of_nat (length ns) /\
  new_count st' - Z.of_nat (length (new r))
    = new_count st - Z.of_nat (length (new r0)).
Proof.
  induction ns as [|n ns IH]; intros r0 r.
  { intros [= <-]. cbv zeta. cbn [length]. repeat split; try reflexivity; lia. }
  cbn [fold_left]. unfold new_step at 2.
  destruct (dict_get (articles law2) n) as [a2|]; [|by rewrite new_fold_None].
  intros Hfold. specialize (IH _ r Hfold). cbv zeta in IH.
  cbn [statistics total_articles_v1 total_articles_v2 identical_count
       modified_count new_count deleted_count manual_count auto_count
       identical modified deleted new mapping] in IH.
  rewrite length_app in IH. cbn [length] in *.
  destruct IH as (I1 & I2 & I3 & I4 & I5 & I6 & I7 & I8 & I9 & I10 & I11 & I12
                  & I13).
  cbv zeta. repeat split; try congruence; try lia.
Qed.

End Statistics.

Lemma compare_articles_stats depth self law1 law2 r :
  compare_articles depth self law1 law2 = Some r ->
  let st := statistics r in
  total_articles_v1 st = Z.of_nat (length (articles law1)) /\
  total_articles_v2 st = Z.of_nat (length (articles law2)) /\
  identical_count st = Z.of_nat (length (identical r)) /\
  modified_count st = Z.of_nat (length (modified r)) /\
  new_count st = Z.of_nat (length (new r)) /\
  deleted_count st = Z.of_nat (length (deleted r)) /\
  exists mr,
    intelligent_article_matching self (articles law1) (articles law2) = Some mr /\
    manual_count st = count is_manual (result_matches mr) /\
    auto_count st = count is_auto (result_matches mr) /\
    identical_count st + modified_count st = count has_new (result_matches mr) /\
    identical_count st + modified_count st + deleted_count st
      = Z.of_nat (length (result_matches mr)) /\
    new_count st = Z.of_nat (length (result_new mr)) /\
    mapping r = mapping_of (result_matches mr).
Proof.
  unfold compare_articles.
  destruct (intelligent_article_matching _ _ _) as [mr|]; [|discriminate].
  match goal with |- context [fold_left (classify_step _ _ _) _ (Some ?r0)] =>
    destruct (fold_left (classify_step depth law1 law2)
                (result_matches mr) (Some r0)) as [r1|] eqn:E1
  end; [|by rewrite new_fold_None].
  destruct (fold_left (new_step law2) (result_new mr) (Some r1)) as [r2|] eqn:E2;
    [|discriminate].
  intros [= <-]. cbv zeta.
  cbn [statistics identical modified new deleted mapping].
  apply classify_fold_stats in E1. apply new_fold_stats in E2.
  cbv zeta in E1, E2.
  cbn [statistics total_articles_v1 total_articles_v2 identical_count
       modified_count new_count deleted_count manual_count auto_count
       identical modified deleted new mapping length] in E1.
  destruct E1 as (I1 & I2 & I3 & I4 & I5 & I6 & I7 & I8 & I9 & I10 & I11 & I12).
  destruct E2 as (J1 & J2 & J3 & J4 & J5 & J6 & J7 & J8 & J9 & J10 & J11 & J12
                  & J13).
  rewrite !(Permutation_length (sort_key_perm _ _)).
  rewrite J4, J6, J8. rewrite I7 in J13. cbn [length] in J13.
  repeat split; try lia.
  exists mr. split; [reflexivity|]. unfold mapping_of.
  rewrite J11, I12. repeat split; try lia.
Qed.

(** X23. The statistics of a comparison count its lists: the four
    counters are the lengths of the four lists, the two totals are the
    sizes of the two documents, and the counters of identical, modified and
    deleted articles add up to the number of entries of the alignment. *)
Theorem compare_articles_statistics :
  forall depth self law1 law2 r,
    compare_articles depth self law1 law2 = Some r ->
    let st := statistics r in
    total_articles_v1 st = Z.of_nat (length (articles law1)) /\
    total_articles_v2 st = Z.of_nat (length (articles law2)) /\
    identical_count st = Z.of_nat (length (identical r)) /\
    modified_count st = Z.of_nat (length (modified r)) /\
    new_count st = Z.of_nat (length (new r)) /\
    deleted_count st = Z.of_nat (length (deleted r)) /\
    exists mr,
      intelligent_article_matching self (articles law1) (articles law2)
      = Some mr /\
      manual_count st = count is_manual (result_matches mr) /\
      auto_count st = count is_auto (result_matches mr) /\
      identical_count st + modified_count st + deleted_count st
        = Z.of_nat (length (result_matches mr)) /\
      new_count st = Z.of_nat (length (result_new mr)).
Proof.
  intros depth self law1 law2 r Hr.
  destruct (compare_articles_stats depth self law1 law2 r Hr)
    as (H1 & H2 & H3 & H4 & H5 & H6 & mr & Hmr & H7 & H8 & _ & H9 & H10 & _).
  cbv zeta. repeat split; try done. by exists mr.
Qed.

Lemma compare_articles_statistics_witness :
  exists r,
    compare_articles 12%nat
      {| similarity_threshold := 5 # 10; manual_matches := [] |}
      (law_of old_doc) (law_of new_doc) = Some r /\
    identical_count (statistics r) = Z.of_nat (length (identical r)) /\
    modified_count (statistics r) = Z.of_nat (length (modified r)).
Proof.
  destruct (compare_articles 12%nat
              {| similarity_threshold := 5 # 10; manual_matches := [] |}
              (law_of old_doc) (law_of new_doc)) as [r|] eqn:E.
  - exists r. split; [reflexivity|].
    pose proof (compare_articles_statistics _ _ _ _ r E) as H.
    cbv zeta in H. tauto.
  - vm_compute in E. discriminate E.
Defined.


Section Conservation.

(** In an alignment of parsed documents an entry has a new article
    exactly when it is a manual or an automatic match. *)
Lemma matching_has_new self articles1 articles2 :
  parsed_numbers articles2 ->
  exists r,
    intelligent_article_matching self articles1 articles2 = Some r /\
    Forall (fun e => has_new e = matched e /\
                     (matched e = true -> In (article2_num e) (keys articles2)))
           (result_matches r).
Proof.
  intros Hp.
  destruct (matching_shape self articles1 articles2 Hp)
    as (r & entries & Hr & Hm & _ & Hshape & _).
  exists r. split; [exact Hr|]. rewrite Hm.
  assert (Hpos : forall n, In n (keys articles2) -> (n =? -1) = false).
  { intros n Hn. unfold parsed_numbers in Hp. rewrite Forall_forall in Hp.
    apply list_elem_of_In, Hp in Hn. apply Z.eqb_neq. lia. }
  apply Forall_app. split.
  - apply Forall_forall. intros e He.
    apply list_elem_of_In, in_map_iff in He as (m & <- & Hin).
    apply filter_In in Hin as [_ Happ].
    apply applicable_keys in Happ as [_ Hk].
    unfold has_new, matched. cbn [manual_entry article2_num match_type].
    by rewrite (Hpos _ Hk).
  - eapply Forall_impl; [exact Hshape|].
    intros e [(Ht & Hk & _)|(Ht & Hn & _)]; unfold has_new, matched; rewrite Ht.
    + by rewrite (Hpos _ Hk).
    + by rewrite Hn.
Qed.

Lemma filter_ext_Forall {A} (p q : A -> bool) l :
  Forall (fun x => p x = q x) l -> List.filter p l = List.filter q l.
Proof.
  induction 1 as [|x l Hx _ IH]; [done|]. cbn [List.filter].
  by rewrite Hx, IH.
Qed.

Lemma count_types l :
  Forall (fun e => has_new e = matched e) l ->
  count has_new l = count is_manual l + count is_auto l.
Proof.
  induction 1 as [|e l He _ IH]; [done|]. rewrite !count_cons, IH, He.
  unfold matched, is_manual, is_auto. destruct (match_type e); lia.
Qed.

Lemma NoDup_list_filter {A} (p : A -> bool) (l : list A) :
  NoDup l -> NoDup (List.filter p l).
Proof.
  intros H. rewrite <- (map_id (List.filter p l)).
  apply NoDup_map_filter. by rewrite map_id.
Qed.

Lemma compare_conservation depth self law1 law2 r :
  dict_wf (articles law1) -> dict_wf (articles law2) ->
  parsed_numbers (articles law2) ->
  let app := List.filter (applicable (articles law1) (articles law2))
                         (manual_matches self) in
  NoDup (map old_number app) -> NoDup (map new_number app) ->
  compare_articles depth self law1 law2 = Some r ->
    let st := statistics r in
    identical_count st + modified_count st + deleted_count st
      = total_articles_v1 st /\
    identical_count st + modified_count st + new_count st
      = total_articles_v2 st /\
    manual_count st + auto_count st = identical_count st + modified_count st.
Proof.
  intros Hwf1 Hwf2 Hp app Ho Hn Hr.
  destruct (compare_articles_stats _ _ _ _ r Hr)
    as (H1 & H2 & _ & _ & _ & _ & mr & Hmr & H7 & H8 & H9 & H10 & H11 & _).
  cbv zeta.
  destruct (matching_olds self _ _ Hp Hwf1) as (r1 & Hr1 & _ & Hperm).
  rewrite Hmr in Hr1. injection Hr1 as <-.
  specialize (Hperm Ho). apply Permutation_length in Hperm.
  rewrite length_map in Hperm. unfold keys in Hperm. rewrite length_map in Hperm.
  destruct (matching_has_new self (articles law1) _ Hp) as (r2 & Hr2 & Hhas).
  rewrite Hmr in Hr2. injection Hr2 as <-.
  destruct (matching_shape self (articles law1) _ Hp)
    as (r3 & entries & Hr3 & _ & _ & _ & _ & Hnew & Hnew_eq).
  rewrite Hmr in Hr3. injection Hr3 as <-.
  destruct (partial_bijection_iff self _ _ Hwf1 Hp) as (r4 & Hr4 & Hiff).
  rewrite Hmr in Hr4. injection Hr4 as <-. cbv zeta in Hiff.
  destruct (proj2 Hiff (conj Ho Hn)) as [_ Hnd2].
  split; [lia|]. split.
  - rewrite H9, H11, H2.
    assert (Hcount : count has_new (result_matches mr)
                     = Z.of_nat (length (map article2_num
                                           (matched_entries (result_matches mr))))).
    { unfold count, matched_entries. rewrite length_map. do 2 f_equal.
      apply filter_ext_Forall. eapply Forall_impl; [exact Hhas|].
      by intros e [? _]. }
    rewrite Hcount, <- Nat2Z.inj_add, <- length_app. f_equal.
    transitivity (length (keys (articles law2)));
      [|unfold keys; by rewrite length_map].
    apply Permutation_length, NoDup_Permutation.
    + apply NoDup_app. split; [exact Hnd2|]. split.
      * intros n Hn1 Hn2. apply list_elem_of_In, Hnew in Hn2 as [_ Hn2].
        by apply list_elem_of_In in Hn1.
      * rewrite Hnew_eq. apply NoDup_list_filter. rewrite sorted_perm.
        exact Hwf2.
    + exact Hwf2.
    + intros n. rewrite elem_of_app, !list_elem_of_In, Hnew. split.
      * intros [Hin|[Hin _]]; [|exact Hin].
        apply in_map_iff in Hin as (e & <- & He).
        apply filter_In in He as [He Hme].
        rewrite Forall_forall in Hhas. apply list_elem_of_In in He.
        apply Hhas in He as [_ He]. by apply He.
      * intros Hin.
        destruct (in_dec Z.eq_dec n
                    (map article2_num (matched_entries (result_matches mr))));
          [by left|by right].
  - rewrite H7, H8, H9. symmetry. apply count_types.
    eapply Forall_impl; [exact Hhas|]. by intros e [? _].
Qed.

(** The mapping of the comparison. *)
Lemma mapping_fold_other (ms : list MatchEntry) : forall (m0 : dict Z Z) k,
  ~ In k (map article1_num (List.filter has_new ms)) ->
  dict_get (fold_left (fun m e =>
                         if has_new e
                         then dict_set m (article1_num e) (article2_num e)
                         else m) ms m0) k
  = dict_get m0 k.
Proof.
  induction ms as [|e ms IH]; intros m0 k Hk; [done|].
  cbn [fold_left]. cbn [List.filter] in Hk. destruct (has_new e).
  - cbn [map In] in Hk. rewrite IH by tauto. rewrite dict_get_set.
    destruct (Z.eqb_spec (article1_num e) k); [tauto|done].
  - by apply IH.
Qed.

Lemma mapping_fold_In (ms : list MatchEntry) : forall (m0 : dict Z Z) k v,
  dict_get (fold_left (fun m e =>
                         if has_new e
                         then dict_set m (article1_num e) (article2_num e)
                         else m) ms m0) k = Some v ->
  dict_get m0 k = Some v \/
  exists e, In e (List.filter has_new ms) /\
            article1_num e = k /\ article2_num e = v.
Proof.
  induction ms as [|e ms IH]; intros m0 k v H; [by left|].
  cbn [fold_left] in H. cbn [List.filter]. apply IH in H.
  destruct H as [H|(e' & He' & Hk & Hv)].
  - destruct (has_new e) eqn:E; [|by left].
    rewrite dict_get_set in H.
    destruct (Z.eqb_spec (article1_num e) k) as [Hk|_]; [|by left].
    injection H as <-. right. exists e. by repeat split; [left|..].
  - right. exists e'. split; [|done]. destruct (has_new e); [by right|done].
Qed.

Lemma mapping_fold_NoDup (ms : list MatchEntry) : forall (m0 : dict Z Z) e,
  NoDup (map article1_num (List.filter has_new ms)) ->
  In e (List.filter has_new ms) ->
  dict_get (fold_left (fun m e =>
                         if has_new e
                         then dict_set m (article1_num e) (article2_num e)
                         else m) ms m0) (article1_num e)
  = Some (article2_num e).
Proof.
  induction ms as [|e0 ms IH]; intros m0 e Hnd He; [done|].
  cbn [fold_left]. cbn [List.filter] in Hnd, He.
  destruct (has_new e0) eqn:E0; [|by apply IH].
  cbn [map] in Hnd. apply NoDup_cons in Hnd as [Hnot Hnd].
  destruct He as [<-|He]; [|by apply IH].
  rewrite mapping_fold_other.
  - rewrite dict_get_set. by rewrite Z.eqb_refl.
  - intros H. by apply list_elem_of_In in H.
Qed.

End Conservation.

(** X24. Nothing is lost or counted twice: for documents with distinct,
    non-negative article numbers and manual matches without repeated
    numbers, the counters of identical, modified and deleted articles add
    up to the size of the old document, those of identical, modified and
    new articles to the size of the new document, and every identical or
    modified pair is counted as one manual or one automatic match. The
    comparison returns a result when the diff library has the depth for
    the shorter of any two contents. *)
Theorem compare_articles_conservation :
  forall depth self law1 law2,
    dict_wf (articles law1) -> dict_wf (articles law2) ->
    parsed_numbers (articles law2) ->
    let app := List.filter (applicable (articles law1) (articles law2))
                           (manual_matches self) in
    NoDup (map old_number app) -> NoDup (map new_number app) ->
    (within_depth depth law1 law2 = true ->
       exists r, compare_articles depth self law1 law2 = Some r) /\
    forall r,
      compare_articles depth self law1 law2 = Some r ->
      let st := statistics r in
      identical_count st + modified_count st + deleted_count st
        = total_articles_v1 st /\
      identical_count st + modified_count st + new_count st
        = total_articles_v2 st /\
      manual_count st + auto_count st = identical_count st + modified_count st.
Proof.
  intros depth self law1 law2 Hwf1 Hwf2 Hp app Ho Hn. split.
  - by apply compare_articles_returns.
  - intros r Hr. by apply (compare_conservation depth self law1 law2 r).
Qed.

Lemma compare_articles_conservation_witness :
  exists r,
    compare_articles 12%nat
      {| similarity_threshold := 5 # 10;
         manual_matches := [{| old_number := 2; new_number := 3 |}] |}
      (law_of old_doc) (law_of new_doc) = Some r /\
    let st := statistics r in
    identical_count st + modified_count st + deleted_count st
      = total_articles_v1 st /\
    identical_count st + modified_count st + new_count st
      = total_articles_v2 st /\
    manual_count st + auto_count st = identical_count st + modified_count st.
Proof.
  destruct (compare_articles_conservation 12
              {| similarity_threshold := 5 # 10;
                 manual_matches := [{| old_number := 2; new_number := 3 |}] |}
              (law_of old_doc) (law_of new_doc)) as [Hreturns Hall].
  - apply (bool_decide_eq_true_1 (NoDup [1; 2])). vm_compute. reflexivity.
  - apply (bool_decide_eq_true_1 (NoDup [1; 3])). vm_compute. reflexivity.
  - unfold parsed_numbers. cbn. repeat (apply Forall_cons_2; [lia|]).
    apply Forall_nil_2.
  - apply (bool_decide_eq_true_1 (NoDup [2])). vm_compute. reflexivity.
  - apply (bool_decide_eq_true_1 (NoDup [3])). vm_compute. reflexivity.
  - destruct Hreturns as [r Hr]; [vm_compute; reflexivity|].
    exists r. split; [exact Hr|]. by apply Hall.
Defined.

(** X25. The mapping of a comparison sends an old number to a new number
    only if an entry of the alignment with a new article pairs them; when
    the old numbers of these entries are pairwise distinct, it sends the
    old number of each of them to its new number. With a repeated old
    number the last entry wins. *)
Theorem compare_articles_mapping :
  forall depth self law1 law2 r,
    compare_articles depth self law1 law2 = Some r ->
    exists mr,
      intelligent_article_matching self (articles law1) (articles law2)
      = Some mr /\
      mapping r = mapping_of (result_matches mr) /\
      (forall n1 n2,
         dict_get (mapping r) n1 = Some n2 ->
         exists e, In e (result_matches mr) /\ has_new e = true /\
                   article1_num e = n1 /\ article2_num e = n2) /\
      (NoDup (map article1_num (List.filter has_new (result_matches mr))) ->
       forall e, In e (result_matches mr) -> has_new e = true ->
         dict_get (mapping r) (article1_num e) = Some (article2_num e)).
Proof.
  intros depth self law1 law2 r Hr.
  destruct (compare_articles_stats depth self law1 law2 r Hr)
    as (_ & _ & _ & _ & _ & _ & mr & Hmr & _ & _ & _ & _ & _ & Hmap).
  exists mr. split; [exact Hmr|]. split; [exact Hmap|]. rewrite Hmap.
  unfold mapping_of. split.
  - intros n1 n2 H. apply mapping_fold_In in H as [H|(e & He & H1 & H2)];
      [discriminate|].
    apply filter_In in He as [He Hnew]. by exists e.
  - intros Hnd e He Hnew. apply mapping_fold_NoDup; [exact Hnd|].
    by apply filter_In.
Qed.

Lemma compare_articles_mapping_witness :
  exists r mr,
    compare_articles 12%nat
      {| similarity_threshold := 5 # 10; manual_matches := [] |}
      (law_of old_doc) (law_of new_doc) = Some r /\
    intelligent_article_matching
      {| similarity_threshold := 5 # 10; manual_matches := [] |}
      old_doc new_doc = Some mr /\
    mapping r = mapping_of (result_matches mr).
Proof.
  destruct (compare_articles 12%nat
              {| similarity_threshold := 5 # 10; manual_matches := [] |}
              (law_of old_doc) (law_of new_doc)) as [r|] eqn:E.
  - destruct (compare_articles_mapping _ _ _ _ r E) as (mr & Hmr & Hmap & _).
    exists r, mr. split; [reflexivity|]. split; [exact Hmr|exact Hmap].
  - vm_compute in E. discriminate E.
Defined.


(* ===================================================================== *)
(** * The HTML of a diff *)
(* ===================================================================== *)

Section Escaping.

Lemma replace1_Forall (P Q : Z -> Prop) old new s :
  Forall Q new -> (forall c, c <> old -> P c -> Q c) ->
  Forall P s -> Forall Q (replace1 old new s).
Proof.
  intros Hnew Hkeep. unfold replace1. induction 1 as [|c s Hc _ IH].
  - constructor.
  - cbn [flat_map]. apply Forall_app. split; [|exact IH].
    destruct (Z.eqb_spec c old); [exact Hnew|].
    constructor; [by apply Hkeep|constructor].
Qed.

Lemma html_escape_chars s :
  Forall (fun c => ~ In c [ch "<"; ch ">"; 34; 39]) (html_escape s).
Proof.
  unfold html_escape.
  apply (replace1_Forall (fun c => ~ In c [ch "<"; ch ">"; 34])).
  { py_eval. repeat constructor; cbn [In]; lia. }
  { intros c Hc Hn [H|[H|[H|[H|[]]]]]; try (apply Hn; cbn [In]; tauto).
    congruence. }
  apply (replace1_Forall (fun c => ~ In c [ch "<"; ch ">"])).
  { py_eval. repeat constructor; cbn [In]; lia. }
  { intros c Hc Hn [H|[H|[H|[]]]]; try (apply Hn; cbn [In]; tauto).
    congruence. }
  apply (replace1_Forall (fun c => ~ In c [ch "<"])).
  { py_eval. repeat constructor; cbn [In]; lia. }
  { intros c Hc Hn [H|[H|[]]]; try (apply Hn; cbn [In]; tauto).
    congruence. }
  apply (replace1_Forall (fun c => True)).
  { py_eval. repeat constructor; cbn [In]; lia. }
  { intros c Hc _ [H|[]]. congruence. }
  apply Forall_forall. done.
Qed.

End Escaping.

(** X29. Every piece of the HTML of a diff is empty, or the escaped text
    of one diff element, bare or inside one of the two fixed [span] tags;
    the escaped text holds none of the characters [<], [>], the double
    quote and the single quote, so the text of an article cannot open or
    close a tag. An element that is neither kept, deleted nor added gives
    nothing. *)
Theorem diff_part_escaped :
  forall line,
    diff_part line = [] \/
    exists content,
      content = html_escape (strip (drop 2 line)) /\ content <> [] /\
      Forall (fun c => ~ In c [ch "<"; ch ">"; 34; 39]) content /\
      (diff_part line = content \/
       diff_part line
       = span_open (py "diff-deleted") ++ content ++ py "</span>" \/
       diff_part line
       = span_open (py "diff-added") ++ content ++ py "</span>").
Proof.
  intros line. unfold diff_part. cbv zeta.
  pose proof (html_escape_chars (strip (drop 2 line))) as Hchars.
  destruct (html_escape (strip (drop 2 line))) as [|c content] eqn:E.
  { left. by repeat case_match. }
  destruct (startswith line (py "  ")).
  { right. exists (c :: content). by repeat split; [..|left]. }
  destruct (startswith line (py "- ")).
  { right. exists (c :: content). by repeat split; [..|right; left]. }
  destruct (startswith line (py "+ ")); [|by left].
  right. exists (c :: content). by repeat split; [..|right; right].
Qed.

(** X30. [_clean_spaces] removes exactly the white-space characters of
    the text, wherever they stand, and keeps the other characters in
    order; applying it twice changes nothing more. *)
Theorem clean_spaces_removes_white_space :
  forall text,
    _clean_spaces text = List.filter (fun c => negb (is_space c)) text /\
    _clean_spaces (_clean_spaces text) = _clean_spaces text.
Proof.
  intros text. split; [apply clean_spaces_filter|].
  apply clean_spaces_no_space. rewrite clean_spaces_filter.
  apply Forall_forall. intros c Hc.
  apply list_elem_of_In, filter_In in Hc as [_ Hc]. by apply negb_true_iff.
Qed.

